(** * SSM-ClockKe v2.1: alignment kernel, band classifier and stamp chain

    A shallow embedding of the three scripts of the repository
    ([clockke_run_v2_1.py], [clockke_desktop_v2_1.py],
    [clockke_verify_v2_1.py]) and the properties of their numeric kernel
    and of their SHA-256 stamp chain.

    Conventions.
    - A Python [str] is a [string]: the text held as its UTF-8 bytes, so
      that [s.encode("utf-8")] is the list of the bytes of [s].
    - A Python [float] of the kernel is a real number of [R]; the
      accumulated weight [W], whose update only multiplies and adds, is
      also followed in IEEE binary64 ([PrimFloat]), and the command-line
      loop is also followed on floats that are infinite or not a number
      ([Special]), which the [--tick-sec] argument can be.
    - [hashlib.sha256] is the function of FIPS 180-4, on 32-bit words
      held in [Z]. *)

From Stdlib Require Import ZArith List Strings.String Strings.Ascii Strings.Byte.
From Stdlib Require Import Reals Lra Lia.
From Stdlib Require Import Floats.
From stdpp Require Import base option list strings pretty gmap.

Local Open Scope Z_scope.

(** * The program *)

(** ** Bytes and text *)

(** [s.encode("utf-8")]: the bytes of the text. *)
Definition encode_utf8 (s : string) : list byte := list_byte_of_string s.

(** [prev_stamp or ""]. *)
Definition or_empty (s : string) : string :=
  if String.eqb s "" then ""%string else s.

(** ** hashlib.sha256 *)

Module SHA256.

Definition mask32 : Z := 0xffffffff.
Definition wrap (x : Z) : Z := Z.land x mask32.
Definition add32 (x y : Z) : Z := wrap (x + y).
Definition rotr (n x : Z) : Z :=
  Z.lor (Z.shiftr x n) (wrap (Z.shiftl x (32 - n))).
Definition not32 (x : Z) : Z := Z.lxor x mask32.

Definition ch (e f g : Z) : Z := Z.lxor (Z.land e f) (Z.land (not32 e) g).
Definition maj (a b c : Z) : Z :=
  Z.lxor (Z.lxor (Z.land a b) (Z.land a c)) (Z.land b c).
Definition bsig0 (a : Z) : Z := Z.lxor (Z.lxor (rotr 2 a) (rotr 13 a)) (rotr 22 a).
Definition bsig1 (e : Z) : Z := Z.lxor (Z.lxor (rotr 6 e) (rotr 11 e)) (rotr 25 e).
Definition ssig0 (x : Z) : Z := Z.lxor (Z.lxor (rotr 7 x) (rotr 18 x)) (Z.shiftr x 3).
Definition ssig1 (x : Z) : Z := Z.lxor (Z.lxor (rotr 17 x) (rotr 19 x)) (Z.shiftr x 10).

(** The greatest [r] below [2^bits] with [r^k <= n], one bit at a time. *)
Fixpoint int_root (k : Z) (bits : nat) (n acc : Z) : Z :=
  match bits with
  | O => acc
  | S b =>
      let cand := acc + Z.shiftl 1 (Z.of_nat b) in
      int_root k b n (if cand ^ k <=? n then cand else acc)
  end.

Definition is_prime (p : nat) : bool :=
  forallb (fun d => negb (Nat.eqb (p mod d) 0)) (seq 2 (p - 2)).

Definition primes_below (n : nat) : list Z :=
  map Z.of_nat (filter is_prime (seq 2 (n - 2))).

(** The first 32 bits of the fractional part of the [k]-th root of [p]. *)
Definition root_fraction (k p : Z) : Z :=
  wrap (int_root k 36 (p * 2 ^ (32 * k)) 0).

(** Round constants: from the cube roots of the first 64 primes. *)
Definition round_constants : list Z :=
  Eval vm_compute in map (root_fraction 3) (primes_below 312).

(** The eight chaining words. *)
Record chaining := Chaining {
  ha : Z; hb : Z; hc : Z; hd : Z; he : Z; hf : Z; hg : Z; hh : Z }.

(** Initial value: from the square roots of the first 8 primes. *)
Definition initial_hash : chaining :=
  Eval vm_compute in
    match map (root_fraction 2) (primes_below 20) with
    | [a; b; c; d; e; f; g; h] => Chaining a b c d e f g h
    | _ => Chaining 0 0 0 0 0 0 0 0
    end.

(** Padding: a 1 bit, zeros up to 56 modulo 64 bytes, then the bit
    length on 8 bytes, most significant first. *)
Definition be_bytes (n : nat) (x : Z) : list Z :=
  map (fun i => Z.land (Z.shiftr x (8 * Z.of_nat i)) 0xff) (rev (seq 0 n)).

Definition pad (msg : list Z) : list Z :=
  let len := Z.of_nat (length msg) in
  let zeros := Z.to_nat ((55 - len) mod 64) in
  msg ++ 0x80 :: repeat 0 zeros ++ be_bytes 8 (8 * len).

Fixpoint words_of_bytes (bs : list Z) : list Z :=
  match bs with
  | b0 :: b1 :: b2 :: b3 :: rest =>
      Z.lor (Z.shiftl b0 24) (Z.lor (Z.shiftl b1 16) (Z.lor (Z.shiftl b2 8) b3))
      :: words_of_bytes rest
  | _ => []
  end.

(** Message schedule, most recent word first: the head of [sched] is
    W(t-1) when W(t) is computed. *)
Fixpoint extend (n : nat) (sched : list Z) : list Z :=
  match n with
  | O => sched
  | S n' =>
      let w := add32 (add32 (ssig1 (nth 1 sched 0)) (nth 6 sched 0))
                     (add32 (ssig0 (nth 14 sched 0)) (nth 15 sched 0)) in
      extend n' (w :: sched)
  end.

Definition schedule (block : list Z) : list Z :=
  rev (extend 48 (rev block)).

Definition round (s : chaining) (kw : Z * Z) : chaining :=
  let t1 := add32 (add32 (add32 (hh s) (bsig1 (he s)))
                         (add32 (ch (he s) (hf s) (hg s)) (fst kw))) (snd kw) in
  let t2 := add32 (bsig0 (ha s)) (maj (ha s) (hb s) (hc s)) in
  Chaining (add32 t1 t2) (ha s) (hb s) (hc s) (add32 (hd s) t1) (he s) (hf s) (hg s).

Definition compress (h : chaining) (block : list Z) : chaining :=
  let s := fold_left round (combine round_constants (schedule block)) h in
  Chaining (add32 (ha h) (ha s)) (add32 (hb h) (hb s))
           (add32 (hc h) (hc s)) (add32 (hd h) (hd s))
           (add32 (he h) (he s)) (add32 (hf h) (hf s))
           (add32 (hg h) (hg s)) (add32 (hh h) (hh s)).

(** The padded message is consumed sixteen words at a time. *)
Fixpoint blocks (n : nat) (ws : list Z) (h : chaining) : chaining :=
  match n with
  | O => h
  | S n' => blocks n' (skipn 16 ws) (compress h (firstn 16 ws))
  end.

Definition digest_words (msg : list byte) : chaining :=
  let ws := words_of_bytes (pad (map (fun b => Z.of_N (Byte.to_N b)) msg)) in
  blocks (length ws / 16)%nat ws initial_hash.

(** Lowercase hexadecimal. *)
Definition hex_digit (d : Z) : ascii :=
  match Z.land d 15 with
  | 0 => "0" | 1 => "1" | 2 => "2" | 3 => "3"
  | 4 => "4" | 5 => "5" | 6 => "6" | 7 => "7"
  | 8 => "8" | 9 => "9" | 10 => "a" | 11 => "b"
  | 12 => "c" | 13 => "d" | 14 => "e" | _ => "f"
  end%char.

Definition hex_word (x : Z) (tail : string) : string :=
  String (hex_digit (Z.shiftr x 28)) (String (hex_digit (Z.shiftr x 24))
 (String (hex_digit (Z.shiftr x 20)) (String (hex_digit (Z.shiftr x 16))
 (String (hex_digit (Z.shiftr x 12)) (String (hex_digit (Z.shiftr x 8))
 (String (hex_digit (Z.shiftr x 4))  (String (hex_digit x) tail))))))).

(** [hashlib.sha256(msg).hexdigest()]. *)
Definition hexdigest (msg : list byte) : string :=
  let h := digest_words msg in
  hex_word (ha h) (hex_word (hb h) (hex_word (hc h) (hex_word (hd h)
 (hex_word (he h) (hex_word (hf h) (hex_word (hg h) (hex_word (hh h) ""))))))).

End SHA256.

(** ** The stamp chain rule ([make_stamp], the same in the three scripts) *)

Local Open Scope string_scope.

Definition make_stamp (prev_stamp payload_str time_utc_str : string) : string :=
  let payload_bytes := encode_utf8 payload_str in
  let h_payload := encode_utf8 (SHA256.hexdigest payload_bytes) in
  let prev_bytes := encode_utf8 (or_empty prev_stamp) in
  let time_bytes := encode_utf8 time_utc_str in
  let raw := (prev_bytes ++ h_payload ++ time_bytes)%list in
  SHA256.hexdigest raw.

(** [f"{time_utc}|{final_align_str}|{band}"]. *)
Definition payload_of (time_utc final_align_str band : string) : string :=
  time_utc +:+ "|" +:+ final_align_str +:+ "|" +:+ band.

(** ** Manifest parameters *)

Local Open Scope R_scope.

Definition EPS_A : R := 1e-6.
Definition EPS_W : R := 1e-9.
Definition W_DEFAULT : R := 1.0.
Definition DECAY_W : R := 0.995.
Definition BASELINE_A : R := 0.02.
Definition JITTER_GAIN : R := 0.15.
Definition FREEZE_MULT : R := 1.5.
Definition FREEZE_PENALTY : R := 0.05.
Definition NOISE_AMPL : R := 0.01.
Definition AUTO_STOP_TICKS : Z := 600.

(** ** Helper functions *)

Definition clamp_a (a : R) : R :=
  let lo := -1.0 + EPS_A in
  let hi := 1.0 - EPS_A in
  if Rlt_dec a lo then lo
  else if Rgt_dec a hi then hi
  else a.

(** [math.log1p]. *)
Definition log1p (x : R) : R := ln (1 + x).

Definition atanh_safe (x : R) : R := 0.5 * (log1p x - log1p (- x)).

Definition classify_band (a_out : R) : string :=
  if Rge_dec a_out 0.80 then "A+"
  else if Rge_dec a_out 0.40 then "A"
  else if Rge_dec a_out 0.10 then "B"
  else if Rge_dec a_out (-0.10) then "C"
  else "D".

(** Python's [max(a, b)]: the first argument unless the second is greater. *)
Definition py_max (a b : R) : R := if Rgt_dec b a then b else a.

(** [source_a_raw] of the desktop script; [noise_unit] is the value drawn
    by [rng_obj.uniform(-1.0, 1.0)]. *)
Definition source_a_raw (now_epoch dt_ms tick_ms a_stress noise_unit : R) : R :=
  let jitter :=
    if Rle_dec dt_ms 0.0 then 0.0
    else if Rle_dec tick_ms 0.0 then 0.0
    else (dt_ms - tick_ms) / py_max tick_ms 1.0 in
  let base := BASELINE_A + a_stress in
  let jitter_term := - JITTER_GAIN * jitter in
  let base :=
    if Rgt_dec tick_ms 0.0 then
      if Rgt_dec dt_ms (FREEZE_MULT * tick_ms) then base - FREEZE_PENALTY else base
    else base in
  let noise_term := NOISE_AMPL * noise_unit in
  base + jitter_term + noise_term.

(** [source_a_raw] of the command-line script: no stress offset. *)
Definition source_a_raw_cli (now_epoch dt_ms tick_ms noise_unit : R) : R :=
  let jitter :=
    if Rle_dec dt_ms 0.0 then 0.0
    else if Rle_dec tick_ms 0.0 then 0.0
    else (dt_ms - tick_ms) / py_max tick_ms 1.0 in
  let base := BASELINE_A in
  let jitter_term := - JITTER_GAIN * jitter in
  let base :=
    if Rgt_dec tick_ms 0.0 then
      if Rgt_dec dt_ms (FREEZE_MULT * tick_ms) then base - FREEZE_PENALTY else base
    else base in
  let noise_term := NOISE_AMPL * noise_unit in
  base + jitter_term + noise_term.

(** ** [f"{a_out:+.9f}"] *)

(** Nearest integer, ties to even. *)
Definition round_half_even (y : R) : Z :=
  let n := Zfloor y in
  if Rlt_dec (y - IZR n) 0.5 then n
  else if Rgt_dec (y - IZR n) 0.5 then (n + 1)%Z
  else if Z.even n then n else (n + 1)%Z.

Definition decimal_digit (d : Z) : ascii :=
  ascii_of_nat (48 + Z.to_nat (d mod 10)).

(** The [k] low decimal digits of [n], most significant first. *)
Fixpoint fixed_digits (k : nat) (n : Z) (tail : string) : string :=
  match k with
  | O => tail
  | S k' => fixed_digits k' (n / 10) (String (decimal_digit n) tail)
  end.

(** The magnitude of [x] in units of 1e-9. *)
Definition nano_units (x : R) : Z := round_half_even (Rabs x * 1e9).

Definition format_align (a_out : R) : string :=
  let n := nano_units a_out in
  let sign := if Rlt_dec a_out 0 then "-" else "+" in
  sign +:+ pretty (n / 1000000000)%Z +:+ "." +:+ fixed_digits 9 (n mod 1000000000) "".

(** ** The (U, W) kernel of one tick *)

(** The update of both loops, with the module constants [DECAY_W] and
    [W_DEFAULT] as parameters: the new [U], the new [W] and [a_out]. *)
Definition kernel_step (decay weight U W a_raw : R) : R * R * R :=
  let a_c := clamp_a a_raw in
  let u := atanh_safe a_c in
  let U := decay * U + weight * u in
  let W := decay * W + weight in
  let denom := if Rgt_dec W EPS_W then W else EPS_W in
  let a_out := tanh (U / denom) in
  (U, W, a_out).

(** ** Session state *)

(** A recorded row:
    [(tick_index, time_utc, final_align, band, stamp, tick_ms, dt_ms, a_stress)]. *)
Record Row := mkRow {
  row_tick_idx : Z;
  row_time_utc : string;
  row_final_align_str : string;
  row_band : string;
  row_stamp : string;
  row_tick_ms : R;
  row_dt_ms : R;
  row_a_stress : R }.

(** The module-level state of the desktop script, which is also the
    local state of the command-line loop. *)
Record Engine := mkEngine {
  U : R;
  W : R;
  prev_stamp : string;
  tick_index : Z;
  running : bool;
  rows : list Row;
  last_tick_epoch : option R }.

(** What one tick reads from its environment: the cadence selector, the
    clock (epoch seconds and formatted UTC), the stress slider and the
    uniform draw. *)
Record TickEnv := mkTickEnv {
  env_tick_ms : R;
  env_now_epoch : R;
  env_time_utc : string;
  env_a_stress : R;
  env_noise_unit : R }.

Definition reset_engine (g : Engine) : Engine :=
  mkEngine 0.0 0.0 "" 1 (running g) [] None.

(** Steps 2 to 5 of a tick, common to both scripts. *)
Definition record_tick (g : Engine) (now_epoch : R) (time_utc : string)
    (tick_ms dt_ms a_stress a_raw : R) : Engine :=
  let '(U', W', a_out) := kernel_step DECAY_W W_DEFAULT (U g) (W g) a_raw in
  let band := classify_band a_out in
  let final_align_str := format_align a_out in
  let payload_str := payload_of time_utc final_align_str band in
  let stamp := make_stamp (prev_stamp g) payload_str time_utc in
  mkEngine U' W' stamp (tick_index g) (running g)
    (rows g ++ [mkRow (tick_index g) time_utc final_align_str band stamp
                      tick_ms dt_ms a_stress])
    (Some now_epoch).

(** [tick] of the desktop script. *)
Definition tick (e : TickEnv) (g : Engine) : Engine :=
  if negb (running g) then g
  else if (AUTO_STOP_TICKS <? tick_index g)%Z then
    mkEngine (U g) (W g) (prev_stamp g) (tick_index g) false (rows g) (last_tick_epoch g)
  else
    let TICK_MS := env_tick_ms e in
    let now_epoch := env_now_epoch e in
    let time_utc := env_time_utc e in
    let dt_ms :=
      match last_tick_epoch g with
      | None => TICK_MS
      | Some last => (now_epoch - last) * 1000.0
      end in
    let a_stress := env_a_stress e in
    let a_raw := source_a_raw now_epoch dt_ms TICK_MS a_stress (env_noise_unit e) in
    let g' := record_tick g now_epoch time_utc TICK_MS dt_ms a_stress a_raw in
    mkEngine (U g') (W g') (prev_stamp g') (tick_index g' + 1) (running g')
             (rows g') (last_tick_epoch g').

(** [on_start]: reset, then the first tick. *)
Definition on_start (e : TickEnv) (g : Engine) : Engine :=
  if running g then g
  else
    let g := reset_engine g in
    tick e (mkEngine (U g) (W g) (prev_stamp g) (tick_index g) true (rows g)
                     (last_tick_epoch g)).

(** The loop of [run_clockke_cli]: one element of [envs] per iteration
    (the cadence and the stress of the environment are not read), until
    [max_ticks] is reached or the loop is interrupted. *)
Fixpoint cli_loop (tick_ms : R) (max_ticks : Z) (envs : list TickEnv)
    (g : Engine) : Engine :=
  match envs with
  | [] => g
  | e :: envs' =>
      let now_epoch := env_now_epoch e in
      let time_utc := env_time_utc e in
      let dt_ms :=
        match last_tick_epoch g with
        | None => tick_ms
        | Some last => (now_epoch - last) * 1000.0
        end in
      let a_raw := source_a_raw_cli now_epoch dt_ms tick_ms (env_noise_unit e) in
      let g' := record_tick g now_epoch time_utc tick_ms dt_ms 0.0 a_raw in
      if ((0 <? max_ticks) && (max_ticks <=? tick_index g'))%Z then g'
      else
        cli_loop tick_ms max_ticks envs'
          (mkEngine (U g') (W g') (prev_stamp g') (tick_index g' + 1) (running g')
                    (rows g') (last_tick_epoch g'))
  end.

(** [run_clockke_cli] at a cadence that is a finite number; a cadence
    that is infinite or not a number is followed in [Special] below. *)
Definition run_clockke_cli (tick_sec : R) (max_ticks : Z) (envs : list TickEnv) : Engine :=
  let tick_ms := tick_sec * 1000.0 in
  cli_loop tick_ms max_ticks envs (mkEngine 0.0 0.0 "" 1 false [] None).

(** ** In-memory verification ([verify_rows] of the desktop script) *)

(** The [for] loop: [Some] at the first mismatch, [None] when the rows
    are exhausted. *)
Fixpoint verify_rows_loop (prev : string) (rs : list Row)
    : option (Z * string * string) :=
  match rs with
  | [] => None
  | r :: rs' =>
      let payload_str :=
        payload_of (row_time_utc r) (row_final_align_str r) (row_band r) in
      let expected := make_stamp prev payload_str (row_time_utc r) in
      if negb (String.eqb expected (row_stamp r))
      then Some (row_tick_idx r, row_stamp r, expected)
      else verify_rows_loop (row_stamp r) rs'
  end.

(** [verify_rows] reads the global [rows]; the state it leaves is returned
    with its result [(ok, val, stored, expected)]. *)
Definition verify_rows (g : Engine) : (bool * Z * string * string) * Engine :=
  match rows g with
  | [] => ((true, 0%Z, "", ""), g)
  | _ =>
      match verify_rows_loop "" (rows g) with
      | Some (tick_idx, stamp, expected) => ((false, tick_idx, stamp, expected), g)
      | None => ((true, Z.of_nat (length (rows g)), "", ""), g)
      end
  end.

(** ** File verification ([verify_file] of the verifier script) *)

(** A row yielded by [csv.DictReader]: the columns of the header, each
    with its text or with [None] when the line is too short. *)
Abbreviation csv_row := (gmap string (option string)).

Inductive py_exn :=
| KeyError (key : string)
| AttributeError (attr : string).

(** What [verify_file] prints, or the exception that ends it. *)
Inductive verify_report :=
| AllChecksPassed (count : nat)
| VerificationFailed (tick_index_str stored_stamp expected_stamp : string)
| Raised (e : py_exn).

(** [row[key]]. *)
Definition getitem (row : csv_row) (key : string) : py_exn + option string :=
  match row !! key with
  | Some v => inr v
  | None => inl (KeyError key)
  end.

(** [f"{v}"] of a text or of [None]. *)
Definition py_format (v : option string) : string :=
  match v with
  | Some s => s
  | None => "None"
  end.

(** [make_stamp] called on a cell: [None.encode] raises. *)
Definition make_stamp_cell (prev_stamp payload_str : string)
    (time_utc : option string) : py_exn + string :=
  match time_utc with
  | Some t => inr (make_stamp prev_stamp payload_str t)
  | None => inl (AttributeError "encode")
  end.

(** [expected_stamp != stored_stamp]. *)
Definition stamp_differs (expected_stamp : string) (stored_stamp : option string) : bool :=
  match stored_stamp with
  | Some s => negb (String.eqb expected_stamp s)
  | None => true
  end.

(** An exception ends the verification. *)
Notation "'let?' x := c 'in' k" :=
  (match c with inl e => Raised e | inr x => k end)
  (at level 10, x name, c at level 100, k at level 200).

Fixpoint verify_file_loop (prev_stamp : string) (count : nat)
    (reader : list csv_row) : verify_report :=
  match reader with
  | [] => AllChecksPassed count
  | row :: reader' =>
      let? tick_index_str := getitem row "tick_index" in
      let? time_utc := getitem row "time_utc" in
      let? final_align_str := getitem row "final_align" in
      let? band := getitem row "band" in
      let? stored_stamp := getitem row "stamp" in
      let payload_str :=
        payload_of (py_format time_utc) (py_format final_align_str) (py_format band) in
      let? expected_stamp := make_stamp_cell prev_stamp payload_str time_utc in
      if stamp_differs expected_stamp stored_stamp then
        VerificationFailed (py_format tick_index_str) (py_format stored_stamp)
                           expected_stamp
      else
        verify_file_loop (py_format stored_stamp) (S count) reader'
  end.

Definition verify_file (reader : list csv_row) : verify_report :=
  verify_file_loop "" 0 reader.

(** ** The accumulated weight in binary64 *)

(** [W = DECAY_W * W + W_DEFAULT] on IEEE doubles, from [W = 0.0]. *)
Definition W_step_binary64 (w : float) : float := (0.995 * w + 1.0)%float.

Definition W_binary64 (n : nat) : float := Nat.iter n W_step_binary64 0%float.

(** [1.0 <= W < 200] and [W > EPS_W] on doubles. *)
Definition W_in_range_binary64 (w : float) : bool :=
  (PrimFloat.leb 1.0 w && PrimFloat.ltb w 200.0 && PrimFloat.ltb 1e-9 w)%float.

(** ** The console history of the command-line script *)

Definition HISTORY_LEN : nat := 24.

Definition spark_char (a : R) : string :=
  if Rle_dec a (-0.40) then "v"
  else if Rlt_dec a (-0.10) then "/"
  else if Rle_dec a 0.10 then "_"
  else if Rle_dec a 0.40 then "-"
  else "^".

(** [history.append(a_out)], then [history.pop(0)] once the list is
    longer than [HISTORY_LEN]. *)
Definition push_history (history : list R) (a_out : R) : list R :=
  let history := (history ++ [a_out])%list in
  if (HISTORY_LEN <? length history)%nat then tail history else history.

(** ["".join(spark_char(x) for x in history)]. *)
Definition sparkline (history : list R) : string :=
  String.concat "" (map spark_char history).

(** The loop of [run_clockke_cli] with the history it keeps for the
    console: the state of [cli_loop] and the history list. *)
Fixpoint cli_loop_history (tick_ms : R) (max_ticks : Z) (envs : list TickEnv)
    (g : Engine) (history : list R) : Engine * list R :=
  match envs with
  | [] => (g, history)
  | e :: envs' =>
      let now_epoch := env_now_epoch e in
      let time_utc := env_time_utc e in
      let dt_ms :=
        match last_tick_epoch g with
        | None => tick_ms
        | Some last => (now_epoch - last) * 1000.0
        end in
      let a_raw := source_a_raw_cli now_epoch dt_ms tick_ms (env_noise_unit e) in
      let '(_, _, a_out) := kernel_step DECAY_W W_DEFAULT (U g) (W g) a_raw in
      let g' := record_tick g now_epoch time_utc tick_ms dt_ms 0.0 a_raw in
      let history := push_history history a_out in
      if ((0 <? max_ticks) && (max_ticks <=? tick_index g'))%Z then (g', history)
      else
        cli_loop_history tick_ms max_ticks envs'
          (mkEngine (U g') (W g') (prev_stamp g') (tick_index g' + 1) (running g')
                    (rows g') (last_tick_epoch g'))
          history
  end.

(** ** The displays of the desktop script *)

Definition BAND_COLORS : gmap string string :=
  list_to_map [("A+", "#008000"); ("A", "#008000"); ("B", "#CCCC00");
               ("C", "#FF7F00"); ("D", "#CC0000")].

(** [BAND_COLORS.get(band, "#000000")]. *)
Definition band_color (band : string) : string :=
  default "#000000" (BAND_COLORS !! band).

Definition dt_color (dt_ms tick_ms : R) : string :=
  if Rle_dec tick_ms 0 then "#000000"
  else
    let ratio := Rabs (dt_ms - tick_ms) / tick_ms in
    if Rlt_dec ratio 0.10 then "#008000"
    else if Rlt_dec ratio 0.50 then "#FF7F00"
    else "#CC0000".

(** Python's [min(a, b)]: the first argument unless the second is smaller. *)
Definition py_min (a b : R) : R := if Rlt_dec b a then b else a.

(** [int(x)] of a float: truncation toward zero. *)
Definition py_int (x : R) : Z := if Rle_dec 0 x then Zfloor x else Zceil x.

Definition canvas_width : Z := 220.
Definition canvas_height : Z := 18.

(** [draw_stability_bar]: the rectangle [(x0, y0, x1, y1, colour)] put on
    the canvas, or nothing when the bar has no length. *)
Definition draw_stability_bar (a_out : R) (band : string)
    : option (Z * Z * Z * Z * string) :=
  let a_vis := py_max (-1.0) (py_min 1.0 a_out) in
  let half_width := (canvas_width / 2)%Z in
  let center := half_width in
  let max_len := (half_width - 4)%Z in
  let length := py_int (a_vis * IZR max_len) in
  if (length =? 0)%Z then None
  else
    let '(x0, x1) :=
      if (0 <? length)%Z then (center, (center + length)%Z)
      else ((center + length)%Z, center) in
    let y0 := 3%Z in
    let y1 := (canvas_height - 3)%Z in
    let color := band_color band in
    Some (x0, y0, x1, y1, color).

(** ** Export and reading back *)

(** A file as [csv.reader] and [csv.writer] see it: the cells of every
    line, a blank line having none. *)
Abbreviation csv_table := (list (list string)).

Definition CSV_HEADER : list string :=
  ["tick_index"; "time_utc"; "final_align"; "band"; "stamp";
   "tick_ms"; "dt_ms"; "a_stress"].

Section ExportModel.
(** The texts [csv.writer] puts in the cell of a number: [str] of the
    cadence (an [int] in the desktop script, a [float] in the
    command-line script) and [str] of a [float]. *)
Variable cadence_str : R -> string.
Variable float_str : R -> string.

(** [writer.writerow(r)]. *)
Definition export_line (r : Row) : list string :=
  [pretty (row_tick_idx r); row_time_utc r; row_final_align_str r; row_band r;
   row_stamp r; cadence_str (row_tick_ms r); float_str (row_dt_ms r);
   float_str (row_a_stress r)].

(** The export of both scripts: nothing is written when there are no rows. *)
Definition on_export (g : Engine) : option csv_table :=
  match rows g with
  | [] => None
  | rs => Some (CSV_HEADER :: map export_line rs)
  end.

End ExportModel.

(** The dictionary [csv.DictReader] builds for a line: the cells under the
    field names, a later duplicate name replacing an earlier one, and
    [None] under the names the line is too short for.  Cells beyond the
    field names go under the key [None], which no text names. *)
Definition dict_of_line (fieldnames cells : list string) : csv_row :=
  let d := foldl (fun d kv => <[kv.1 := Some kv.2]> d) ∅ (zip fieldnames cells) in
  foldl (fun d key => <[key := None]> d) d (drop (length cells) fieldnames).

(** [csv.DictReader(f)]: the first line gives the field names, blank
    lines after it are skipped. *)
Definition DictReader (table : csv_table) : list csv_row :=
  match table with
  | [] => []
  | fieldnames :: lines =>
      map (dict_of_line fieldnames) (filter (fun cells => cells <> []) lines)
  end.

(** [verify_file] on the file holding [table]. *)
Definition verify_csv (table : csv_table) : verify_report :=
  verify_file (DictReader table).

(** ** The stress slider of the desktop script *)

Definition STRESS_MIN : R := -0.05.
Definition STRESS_MAX : R := 0.05.

(** ** The command-line script on floats with their special values *)

(** The cadence of the command-line script is the [--tick-sec] argument,
    which [argparse] reads with [float] and which can be [nan] or [inf].
    The module below follows the script on floats that can be infinite or
    not a number.  A finite float is still taken for the real number it
    stands for (rounding, underflow and the sign of a zero aside); a
    result too large for binary64 is the infinity the float operation
    gives.  An operation of the loop body that raises
    ([ZeroDivisionError], the [ValueError] of [math.log1p]) ends the run.
    As in [cli_loop], [envs] holds the iterations the loop gets through
    before it is stopped from outside; the pause between two iterations
    is not followed. *)
Module Special.

Inductive py_float :=
| Finite (x : R)
| PosInf
| NegInf
| NaN.

Inductive py_error :=
| ZeroDivisionError
| ValueError.

Notation "'let!' x := c 'in' k" :=
  (match c with inl e => inl e | inr x => k end)
  (at level 10, x name, c at level 100, k at level 200).

(** The magnitude from which a result rounds to an infinity:
    [2^1024 - 2^970]. *)
Definition OVERFLOW : R := (2 - / 2 ^ 53) * 2 ^ 1023.

(** The float a real result is rounded to, as far as it is followed. *)
Definition of_real (r : R) : py_float :=
  if Rle_dec OVERFLOW r then PosInf
  else if Rle_dec r (- OVERFLOW) then NegInf
  else Finite r.

Definition py_inf (negative : bool) : py_float :=
  if negative then NegInf else PosInf.

Definition negative (a : R) : bool := if Rlt_dec a 0 then true else false.

Definition py_neg (x : py_float) : py_float :=
  match x with
  | Finite a => Finite (- a)
  | PosInf => NegInf
  | NegInf => PosInf
  | NaN => NaN
  end.

Definition py_add (x y : py_float) : py_float :=
  match x, y with
  | NaN, _ | _, NaN => NaN
  | Finite a, Finite b => of_real (a + b)
  | PosInf, NegInf | NegInf, PosInf => NaN
  | PosInf, _ | _, PosInf => PosInf
  | NegInf, _ | _, NegInf => NegInf
  end.

Definition py_sub (x y : py_float) : py_float := py_add x (py_neg y).

(** An infinity of sign [neg] times the finite [a]. *)
Definition scale_inf (a : R) (neg : bool) : py_float :=
  if Req_dec_T a 0 then NaN else py_inf (xorb neg (negative a)).

Definition py_mul (x y : py_float) : py_float :=
  match x, y with
  | NaN, _ | _, NaN => NaN
  | Finite a, Finite b => of_real (a * b)
  | Finite a, PosInf | PosInf, Finite a => scale_inf a false
  | Finite a, NegInf | NegInf, Finite a => scale_inf a true
  | PosInf, PosInf | NegInf, NegInf => PosInf
  | PosInf, NegInf | NegInf, PosInf => NegInf
  end.

Definition is_zero (y : py_float) : bool :=
  match y with
  | Finite b => if Req_dec_T b 0 then true else false
  | _ => false
  end.

(** [x / y]: a zero divisor raises, whatever [x] is. *)
Definition py_div (x y : py_float) : py_error + py_float :=
  if is_zero y then inl ZeroDivisionError
  else
    inr match x, y with
        | NaN, _ | _, NaN => NaN
        | Finite a, Finite b => of_real (a / b)
        | Finite _, _ => Finite 0
        | PosInf, Finite b => py_inf (negative b)
        | NegInf, Finite b => py_inf (negb (negative b))
        | _, _ => NaN
        end.

(** The comparisons: every comparison with [nan] is false. *)
Definition py_lt (x y : py_float) : bool :=
  match x, y with
  | NaN, _ | _, NaN => false
  | Finite a, Finite b => if Rlt_dec a b then true else false
  | NegInf, NegInf | PosInf, _ => false
  | NegInf, _ => true
  | Finite _, PosInf => true
  | Finite _, NegInf => false
  end.

Definition py_le (x y : py_float) : bool :=
  match x, y with
  | NaN, _ | _, NaN => false
  | Finite a, Finite b => if Rle_dec a b then true else false
  | NegInf, _ => true
  | PosInf, PosInf => true
  | PosInf, _ => false
  | Finite _, PosInf => true
  | Finite _, NegInf => false
  end.

Definition py_gt (x y : py_float) : bool := py_lt y x.

Definition py_ge (x y : py_float) : bool := py_le y x.

(** Python's [max(a, b)]: the first argument unless the second is greater. *)
Definition py_max (a b : py_float) : py_float := if py_gt b a then b else a.

(** [math.log1p]: a domain error at and below -1. *)
Definition log1p (x : py_float) : py_error + py_float :=
  match x with
  | Finite a => if Rgt_dec a (-1) then inr (Finite (ln (1 + a))) else inl ValueError
  | PosInf => inr PosInf
  | NegInf => inl ValueError
  | NaN => inr NaN
  end.

(** [math.tanh]. *)
Definition tanh (x : py_float) : py_float :=
  match x with
  | Finite a => Finite (Rtrigo_def.tanh a)
  | PosInf => Finite 1
  | NegInf => Finite (-1)
  | NaN => NaN
  end.

Definition clamp_a (a : py_float) : py_float :=
  let lo := Finite (-1.0 + EPS_A) in
  let hi := Finite (1.0 - EPS_A) in
  if py_lt a lo then lo
  else if py_gt a hi then hi
  else a.

Definition atanh_safe (x : py_float) : py_error + py_float :=
  let! l := log1p x in
  let! m := log1p (py_neg x) in
  inr (py_mul (Finite 0.5) (py_sub l m)).

Definition classify_band (a_out : py_float) : string :=
  if py_ge a_out (Finite 0.80) then "A+"
  else if py_ge a_out (Finite 0.40) then "A"
  else if py_ge a_out (Finite 0.10) then "B"
  else if py_ge a_out (Finite (-0.10)) then "C"
  else "D".

(** [source_a_raw] of the command-line script. *)
Definition source_a_raw (now_epoch dt_ms tick_ms : py_float) (noise_unit : R)
    : py_error + py_float :=
  let! jitter :=
    if py_le dt_ms (Finite 0.0) || py_le tick_ms (Finite 0.0) then inr (Finite 0.0)
    else py_div (py_sub dt_ms tick_ms) (py_max tick_ms (Finite 1.0)) in
  let base := Finite BASELINE_A in
  let jitter_term := py_mul (Finite (- JITTER_GAIN)) jitter in
  let base :=
    if py_gt tick_ms (Finite 0.0)
       && py_gt dt_ms (py_mul (Finite FREEZE_MULT) tick_ms)
    then py_sub base (Finite FREEZE_PENALTY) else base in
  let noise_term := py_mul (Finite NOISE_AMPL) (Finite noise_unit) in
  inr (py_add (py_add base jitter_term) noise_term).

(** [f"{a_out:+.9f}"]. *)
Definition format_align (a_out : py_float) : string :=
  match a_out with
  | Finite a => format_align a
  | PosInf => "+inf"
  | NegInf => "-inf"
  | NaN => "+nan"
  end.

Record Row := mkRow {
  row_tick_idx : Z;
  row_time_utc : string;
  row_final_align_str : string;
  row_band : string;
  row_stamp : string;
  row_tick_ms : py_float;
  row_dt_ms : py_float;
  row_a_stress : py_float }.

(** The local state of [run_clockke_cli]. *)
Record Engine := mkEngine {
  U : py_float;
  W : py_float;
  prev_stamp : string;
  tick_index : Z;
  rows : list Row;
  last_tick_epoch : option R }.

(** One iteration of the loop, up to the console log. *)
Definition cli_tick (tick_ms : py_float) (e : TickEnv) (g : Engine)
    : py_error + Engine :=
  let now_epoch := env_now_epoch e in
  let time_utc := env_time_utc e in
  let dt_ms :=
    match last_tick_epoch g with
    | None => tick_ms
    | Some last => py_mul (py_sub (Finite now_epoch) (Finite last)) (Finite 1000.0)
    end in
  let! a_raw := source_a_raw (Finite now_epoch) dt_ms tick_ms (env_noise_unit e) in
  let a_c := clamp_a a_raw in
  let! u := atanh_safe a_c in
  let U' := py_add (py_mul (Finite DECAY_W) (U g)) (py_mul (Finite W_DEFAULT) u) in
  let W' := py_add (py_mul (Finite DECAY_W) (W g)) (Finite W_DEFAULT) in
  let denom := if py_gt W' (Finite EPS_W) then W' else Finite EPS_W in
  let! quotient := py_div U' denom in
  let a_out := tanh quotient in
  let band := classify_band a_out in
  let final_align_str := format_align a_out in
  let payload_str := payload_of time_utc final_align_str band in
  let stamp := make_stamp (prev_stamp g) payload_str time_utc in
  inr (mkEngine U' W' stamp (tick_index g)
         (rows g ++ [mkRow (tick_index g) time_utc final_align_str band stamp
                           tick_ms dt_ms (Finite 0.0)])
         (Some now_epoch)).

Fixpoint cli_loop (tick_ms : py_float) (max_ticks : Z) (envs : list TickEnv)
    (g : Engine) : py_error + Engine :=
  match envs with
  | [] => inr g
  | e :: envs' =>
      let! g' := cli_tick tick_ms e g in
      if ((0 <? max_ticks) && (max_ticks <=? tick_index g'))%Z then inr g'
      else
        cli_loop tick_ms max_ticks envs'
          (mkEngine (U g') (W g') (prev_stamp g') (tick_index g' + 1)
                    (rows g') (last_tick_epoch g'))
  end.

Definition run_clockke_cli (tick_sec : py_float) (max_ticks : Z)
    (envs : list TickEnv) : py_error + Engine :=
  let tick_ms := py_mul tick_sec (Finite 1000.0) in
  cli_loop tick_ms max_ticks envs
    (mkEngine (Finite 0.0) (Finite 0.0) "" 1 [] None).

(** [main] after the arguments are parsed. *)
Definition cli_main (arg_tick_sec : py_float) (arg_ticks : Z)
    (envs : list TickEnv) : py_error + Engine :=
  let tick_sec := py_max arg_tick_sec (Finite 0.001) in
  let max_ticks := Z.max arg_ticks 0 in
  run_clockke_cli tick_sec max_ticks envs.

End Special.

(** * Notions used in the statements *)

(** ** Text and digests *)

(** The sixteen lowercase hexadecimal digits. *)
Definition lower_hex (c : ascii) : Prop :=
  In c (list_ascii_of_string "0123456789abcdef").

(** ** The alignment source *)

(** The alignment formula in the words of the specification: the freeze
    penalty whenever [dt_ms > 1.5 * tick_ms]. *)
Definition spec_a_raw (dt_ms tick_ms a_stress u : R) : R :=
  let jitter :=
    if Rle_dec dt_ms 0 then 0
    else if Rle_dec tick_ms 0 then 0
    else (dt_ms - tick_ms) / Rmax tick_ms 1 in
  let base := 0.02 + a_stress in
  let base := if Rgt_dec dt_ms (1.5 * tick_ms) then base - 0.05 else base in
  base + (- 0.15 * jitter) + 0.01 * u.

(** ** Hyperbolic tangent and its inverse *)

(** The largest magnitude a transformed input can have. *)
Definition U_MAX : R := atanh_safe (1 - EPS_A).

(** ** The kernel over a sequence of ticks *)

(** The kernel part of the loop alone: the final [U] and [W], and the
    [a_out] of every step. *)
Fixpoint kernel_run (decay weight U W : R) (raws : list R) : R * R * list R :=
  match raws with
  | [] => (U, W, [])
  | a_raw :: raws' =>
      match kernel_step decay weight U W a_raw with
      | (U', W', a_out) =>
          match kernel_run decay weight U' W' raws' with
          | (Uf, Wf, outs) => (Uf, Wf, a_out :: outs)
          end
      end
  end.

(** The kernel states a session can be in: the zero state, and the state
    after one more step with the manifest parameters. *)
Inductive kernel_reachable : R -> R -> Prop :=
| reach_zero : kernel_reachable 0 0
| reach_step (U W a_raw : R) :
    kernel_reachable U W ->
    kernel_reachable (DECAY_W * U + W_DEFAULT * atanh_safe (clamp_a a_raw))
                     (DECAY_W * W + W_DEFAULT).

(** Sum of a list of reals. *)
Definition Rsum (l : list R) : R := fold_right Rplus 0 l.

(** ** The accumulated weight *)

(** [k] further steps from [w] all stay in range (binary64). *)
Fixpoint W_range_upto (k : nat) (w : float) : bool :=
  match k with
  | O => true
  | S k' =>
      let w' := W_step_binary64 w in
      W_in_range_binary64 w' && W_range_upto k' w'
  end.

(** The number of steps after which the binary64 weight no longer moves. *)
Definition W_SETTLED : nat := Z.to_nat 6339.

(** ** The recorded alignment text *)

Definition digit_value (c : ascii) : option Z :=
  let n := nat_of_ascii c in
  if ((48 <=? n) && (n <=? 57))%nat then Some (Z.of_nat n - 48)%Z else None.

(** The number written by a run of decimal digits, after [acc]. *)
Fixpoint digits_value (s : string) (acc : Z) : option Z :=
  match s with
  | EmptyString => Some acc
  | String c s' =>
      match digit_value c with
      | Some d => digits_value s' (10 * acc + d)%Z
      | None => None
      end
  end.

(** The text before the first point and the text after it. *)
Fixpoint split_point (s : string) : string * string :=
  match s with
  | EmptyString => (EmptyString, EmptyString)
  | String c s' =>
      if Ascii.eqb c "." then (EmptyString, s')
      else let (a, b) := split_point s' in (String c a, b)
  end.

(** The number a signed decimal text such as ["+0.123456789"] stands for. *)
Definition decimal_value (s : string) : option R :=
  match s with
  | EmptyString => None
  | String sg rest =>
      let (ip, fp) := split_point rest in
      match digits_value ip 0, digits_value fp 0 with
      | Some i, Some f =>
          let m := IZR i + IZR f / 10 ^ String.length fp in
          if Ascii.eqb sg "-" then Some (- m)
          else if Ascii.eqb sg "+" then Some m
          else None
      | _, _ => None
      end
  end.

(** ** Replaying a chain *)

(** What verification reads of a record: the three texts of its payload
    and its stored stamp. *)
Class Stamped (A : Type) := {
  time_of : A -> string;
  align_of : A -> string;
  band_of : A -> string;
  stamp_of : A -> string }.

Section Replay.
Context {A : Type} {stamped : Stamped A}.

(** The stamp a record should carry after [prev]. *)
Definition expected_of (prev : string) (x : A) : string :=
  make_stamp prev (payload_of (time_of x) (align_of x) (band_of x)) (time_of x).

(** The first record whose stored stamp is not the expected one, with
    its position and the expected stamp; each record is checked against
    the stored stamp of the record before it. *)
Fixpoint first_mismatch (prev : string) (l : list A) : option (nat * A * string) :=
  match l with
  | [] => None
  | x :: l' =>
      if String.eqb (expected_of prev x) (stamp_of x) then
        match first_mismatch (stamp_of x) l' with
        | Some (k, y, e) => Some (S k, y, e)
        | None => None
        end
      else Some (O, x, expected_of prev x)
  end.

(** The stamp stored in the record before position [i]; [prev] at 0. *)
Definition stored_before (prev : string) (l : list A) (i : nat) : string :=
  foldl (fun _ x => stamp_of x) prev (take i l).

(** The record at position [i], if any, carries the expected stamp. *)
Definition matches_at (prev : string) (l : list A) (i : nat) : Prop :=
  forall x, l !! i = Some x -> stamp_of x = expected_of (stored_before prev l i) x.

End Replay.

(** ** Verification of recorded rows *)

#[global] Instance Row_Stamped : Stamped Row := {|
  time_of := row_time_utc;
  align_of := row_final_align_str;
  band_of := row_band;
  stamp_of := row_stamp |}.

Definition row_expected : string -> Row -> string := expected_of.

Definition row_stored_before : list Row -> nat -> string := stored_before "".

Definition row_matches : list Row -> nat -> Prop := matches_at "".

(** ** Verification of a file *)

(** The text [verify_file] reads in a column: the cell as it is formatted. *)
Definition field (key : string) (row : csv_row) : string :=
  match row !! key with
  | Some cell => py_format cell
  | None => ""
  end.

Definition has_text (row : csv_row) (key : string) : Prop :=
  exists s, row !! key = Some (Some s).

(** A record exposing the columns the verifier reads. *)
Definition exposes (row : csv_row) : Prop :=
  has_text row "tick_index" /\ has_text row "time_utc"
  /\ has_text row "final_align" /\ has_text row "band" /\ has_text row "stamp".

(** A row the loop body gets through without an exception and with a
    stored stamp to compare. *)
Definition readable (row : csv_row) : Prop :=
  is_Some (row !! "tick_index") /\ has_text row "time_utc"
  /\ is_Some (row !! "final_align") /\ is_Some (row !! "band")
  /\ has_text row "stamp".

#[global] Instance csv_row_Stamped : Stamped csv_row := {|
  time_of := field "time_utc";
  align_of := field "final_align";
  band_of := field "band";
  stamp_of := field "stamp" |}.

Definition csv_expected : string -> csv_row -> string := expected_of.

Definition csv_stored_before : list csv_row -> nat -> string := stored_before "".

Definition csv_matches : list csv_row -> nat -> Prop := matches_at "".

(** ** Stamps of a session *)

Definition row_triple (r : Row) : string * string * string :=
  (row_time_utc r, row_final_align_str r, row_band r).

(** The stamps the chain rule gives to a sequence of
    [(time_utc, final_align, band)] triples, from [prev]. *)
Fixpoint chain_stamps (prev : string) (triples : list (string * string * string))
    : list string :=
  match triples with
  | [] => []
  | (t, a, b) :: rest =>
      let s := make_stamp prev (payload_of t a b) t in
      s :: chain_stamps s rest
  end.

(** The rows of a state are chained from the empty stamp and
    [prev_stamp] is the last of their stamps. *)
Definition chained (g : Engine) : Prop :=
  map row_stamp (rows g) = chain_stamps "" (map row_triple (rows g))
  /\ prev_stamp g = default "" (last (map row_stamp (rows g))).

(** The events of a desktop session: the Start and Stop buttons and the
    timer that calls [tick]. *)
Inductive ui_event :=
| Start (e : TickEnv)
| Timer (e : TickEnv)
| Stop.

Definition ui_step (g : Engine) (ev : ui_event) : Engine :=
  match ev with
  | Start e => on_start e g
  | Timer e => tick e g
  | Stop => mkEngine (U g) (W g) (prev_stamp g) (tick_index g) false (rows g)
                     (last_tick_epoch g)
  end.

(** The module-level state when the desktop script is loaded. *)
Definition desktop_initial : Engine := mkEngine 0.0 0.0 "" 1 false [] None.

Definition desktop_session (events : list ui_event) : Engine :=
  foldl ui_step desktop_initial events.

(** ** Tampering with a recorded field *)

(** SHA-256 separates the two inputs [x] and [y]. *)
Definition no_collision (x y : list byte) : Prop :=
  x <> y -> SHA256.hexdigest x <> SHA256.hexdigest y.

Definition csv_payload (row : csv_row) : string :=
  payload_of (field "time_utc" row) (field "final_align" row) (field "band" row).

(** The bytes hashed for the stamp of [row] after [prev]. *)
Definition stamp_input (prev : string) (row : csv_row) : list byte :=
  (encode_utf8 prev
   ++ encode_utf8 (SHA256.hexdigest (encode_utf8 (csv_payload row)))
   ++ encode_utf8 (field "time_utc" row))%list.

(** ** A recorded chain of two ticks *)

Definition csv_line (cells : list (string * option string)) : csv_row :=
  list_to_map cells.

Definition sample_row1 : csv_row :=
  csv_line [("tick_index", Some "1"); ("time_utc", Some "2025-01-01T00:00:00Z");
            ("final_align", Some "+0.019996001"); ("band", Some "C");
            ("stamp", Some "34df698a15c65124d9210e3040051a0716e1f6066cee5c3c1e4e89e6cf36193b");
            ("tick_ms", Some "1000.0"); ("dt_ms", Some "1000.0");
            ("a_stress", Some "0.0")].

Definition sample_row2 : csv_row :=
  csv_line [("tick_index", Some "2"); ("time_utc", Some "2025-01-01T00:00:01Z");
            ("final_align", Some "+0.018771532"); ("band", Some "C");
            ("stamp", Some "ccc869f2b53f7ab4a588f183bb69c61aa07d124c23b25fb272ace4872d166e09");
            ("tick_ms", Some "1000.0"); ("dt_ms", Some "1000.4");
            ("a_stress", Some "0.0")].

(** ** Malformed rows *)

(** The columns the loop body reads, in the order it reads them. *)
Definition columns_read : list string :=
  ["tick_index"; "time_utc"; "final_align"; "band"; "stamp"].

(** The first column read that the row does not have. *)
Definition first_absent (row : csv_row) : option string :=
  List.find (fun key => bool_decide (row !! key = None)) columns_read.

(** One row without its stamp cell, and one row whose [final_align] is
    not a number. *)
Definition row_without_stamp : csv_row :=
  csv_line [("tick_index", Some "1"); ("time_utc", Some "2025-01-01T00:00:00Z");
            ("final_align", Some "+0.019996001"); ("band", Some "C");
            ("stamp", None); ("tick_ms", None); ("dt_ms", None);
            ("a_stress", None)].

Definition row_not_a_number : csv_row :=
  csv_line [("tick_index", Some "1"); ("time_utc", Some "2025-01-01T00:00:00Z");
            ("final_align", Some "not-a-number"); ("band", Some "C");
            ("stamp", Some "f8018ea60eff37824dd535067eb916718b454b120e4e565fa754ae9fe1d9a41b");
            ("tick_ms", Some "1000.0"); ("dt_ms", Some "1000.0");
            ("a_stress", Some "0.0")].

(** ** What a session reads from its environment *)

Definition event_env (ev : ui_event) : option TickEnv :=
  match ev with
  | Start e => Some e
  | Timer e => Some e
  | Stop => None
  end.

(** The environments the events of a session carry. *)
Definition envs_of (events : list ui_event) : list TickEnv := omap event_env events.

(** The draw of [uniform(-1.0, 1.0)] lies in [[-1, 1]]. *)
Definition noise_in_range (e : TickEnv) : Prop := -1 <= env_noise_unit e <= 1.

(** The slider keeps the stress offset between [STRESS_MIN] and
    [STRESS_MAX]. *)
Definition stress_in_range (e : TickEnv) : Prop :=
  STRESS_MIN <= env_a_stress e <= STRESS_MAX.

(** Every source value a desktop tick can draw from [e], whatever the
    clock and the cadence, satisfies [A]. *)
Definition desktop_source_ok (A : R -> Prop) (e : TickEnv) : Prop :=
  forall now_epoch dt_ms tick_ms,
    A (source_a_raw now_epoch dt_ms tick_ms (env_a_stress e) (env_noise_unit e)).

(** The same for a tick of the command-line loop. *)
Definition cli_source_ok (A : R -> Prop) (e : TickEnv) : Prop :=
  forall now_epoch dt_ms tick_ms,
    A (source_a_raw_cli now_epoch dt_ms tick_ms (env_noise_unit e)).

(** ** Recorded rows *)


(** ** Records that read the same *)

(** Two records, possibly of different kinds, in which verification
    reads the same four texts. *)
Definition same_read {A B : Type} `{Stamped A} `{Stamped B} (x : A) (y : B) : Prop :=
  time_of y = time_of x /\ align_of y = align_of x
  /\ band_of y = band_of x /\ stamp_of y = stamp_of x.

(** A row with every column the verifier reads. *)
Definition has_columns (row : csv_row) : Prop :=
  Forall (fun key => is_Some (row !! key)) columns_read.

(** ** The decayed mean *)

(** The sum of a sequence in which every value counts [DECAY_W] times
    less for each value that came after it. *)
Fixpoint decayed_sum (us : list R) : R :=
  match us with
  | [] => 0
  | u :: rest => DECAY_W ^ length rest * u + decayed_sum rest
  end.

(** ** Lines of a recorded file *)

(** The two records of the chain above as lines of cells, the second one
    also cut short before its stamp, and a header without the [band]
    column. *)
Definition sample_line1 : list string :=
  ["1"; "2025-01-01T00:00:00Z"; "+0.019996001"; "C";
   "34df698a15c65124d9210e3040051a0716e1f6066cee5c3c1e4e89e6cf36193b";
   "1000.0"; "1000.0"; "0.0"].

Definition sample_line2 : list string :=
  ["2"; "2025-01-01T00:00:01Z"; "+0.018771532"; "C";
   "ccc869f2b53f7ab4a588f183bb69c61aa07d124c23b25fb272ace4872d166e09";
   "1000.0"; "1000.4"; "0.0"].

Definition short_line2 : list string :=
  ["2"; "2025-01-01T00:00:01Z"; "+0.018771532"; "C"].

Definition header_without_band : list string :=
  ["tick_index"; "time_utc"; "final_align"; "stamp"].

(** ** Rows of the command-line script on special floats *)


(** * Properties *)

(** ** Text and digests *)

Lemma or_empty_id (s : string) : or_empty s = s.
Proof.
  unfold or_empty. destruct (String.eqb_spec s ""); congruence.
Qed.

Lemma encode_utf8_length (s : string) :
  length (encode_utf8 s) = String.length s.
Proof.
  unfold encode_utf8, list_byte_of_string.
  rewrite length_map. induction s as [|c s IH]; simpl; congruence.
Qed.

Lemma encode_utf8_inj (s1 s2 : string) :
  encode_utf8 s1 = encode_utf8 s2 -> s1 = s2.
Proof.
  unfold encode_utf8. intros E.
  rewrite <- (string_of_list_byte_of_string s1), <- (string_of_list_byte_of_string s2).
  now rewrite E.
Qed.

Lemma string_app_nil (b : string) : EmptyString +:+ b = b.
Proof. reflexivity. Qed.

Lemma string_app_cons (x : ascii) (a b : string) :
  String x a +:+ b = String x (a +:+ b).
Proof. reflexivity. Qed.

Lemma string_app_assoc (a b c : string) : (a +:+ b) +:+ c = a +:+ (b +:+ c).
Proof.
  induction a as [|x a IH]; [reflexivity|].
  rewrite !string_app_cons. f_equal. exact IH.
Qed.

Lemma string_app_chars (a b : string) :
  list_ascii_of_string (a +:+ b)
  = (list_ascii_of_string a ++ list_ascii_of_string b)%list.
Proof.
  induction a as [|x a IH]; [reflexivity|].
  rewrite string_app_cons. cbn [list_ascii_of_string app]. f_equal. exact IH.
Qed.

Lemma string_chars_inj (a b : string) :
  list_ascii_of_string a = list_ascii_of_string b -> a = b.
Proof.
  intros E. rewrite <- (string_of_list_ascii_of_string a),
    <- (string_of_list_ascii_of_string b). now rewrite E.
Qed.

Lemma string_app_inv_tail (a b c : string) : a +:+ c = b +:+ c -> a = b.
Proof.
  intros E. apply string_chars_inj.
  apply (f_equal list_ascii_of_string) in E. rewrite !string_app_chars in E.
  now apply app_inv_tail in E.
Qed.

Lemma string_app_inv_head (a b c : string) : a +:+ b = a +:+ c -> b = c.
Proof.
  intros E. apply string_chars_inj.
  apply (f_equal list_ascii_of_string) in E. rewrite !string_app_chars in E.
  now apply app_inv_head in E.
Qed.

Lemma encode_utf8_app (a b : string) :
  encode_utf8 (a +:+ b) = (encode_utf8 a ++ encode_utf8 b)%list.
Proof.
  unfold encode_utf8, list_byte_of_string. now rewrite string_app_chars, map_app.
Qed.

Lemma hex_digit_lower (d : Z) : lower_hex (SHA256.hex_digit d).
Proof.
  unfold SHA256.hex_digit, lower_hex.
  assert (H : (0 <= Z.land d 15 < 16)%Z).
  { change 15%Z with (Z.ones 4). rewrite Z.land_ones by lia.
    apply Z.mod_pos_bound. reflexivity. }
  destruct (Z.land d 15) as [|p|p]; [simpl; tauto| |lia].
  repeat match goal with q : positive |- _ => destruct q; try lia end;
    simpl; tauto.
Qed.

Lemma hex_word_length (x : Z) (tail : string) :
  String.length (SHA256.hex_word x tail) = (8 + String.length tail)%nat.
Proof. reflexivity. Qed.

Lemma hex_word_lower (x : Z) (tail : string) :
  Forall lower_hex (list_ascii_of_string tail) ->
  Forall lower_hex (list_ascii_of_string (SHA256.hex_word x tail)).
Proof.
  intros H. unfold SHA256.hex_word. cbn [list_ascii_of_string].
  repeat (apply Forall_cons; split; [apply hex_digit_lower|]). exact H.
Qed.

Lemma hexdigest_length (msg : list byte) :
  String.length (SHA256.hexdigest msg) = 64%nat.
Proof.
  unfold SHA256.hexdigest. cbv zeta.
  repeat rewrite hex_word_length. reflexivity.
Qed.

Lemma hexdigest_lower (msg : list byte) :
  Forall lower_hex (list_ascii_of_string (SHA256.hexdigest msg)).
Proof.
  unfold SHA256.hexdigest. cbv zeta.
  repeat apply hex_word_lower. constructor.
Qed.

(** The rule on two known inputs, against the digests of [hashlib]. *)
Example make_stamp_first_tick :
  make_stamp "" "2025-01-01T00:00:00Z|+0.019996001|C" "2025-01-01T00:00:00Z"
  = "34df698a15c65124d9210e3040051a0716e1f6066cee5c3c1e4e89e6cf36193b".
Proof. vm_compute. reflexivity. Qed.

(** C1. For all texts [prev_stamp] (the empty one included), [payload_str]
    and [time_utc_str], [make_stamp] is the SHA-256 of the bytes of
    [prev_stamp], then the bytes of the lowercase hexadecimal text of the
    SHA-256 of the payload bytes, then the bytes of [time_utc_str]; the
    result is 64 lowercase hexadecimal characters, and the inner digest
    takes the 64 bytes of its hexadecimal text in the hashed input, not the
    32 bytes of the raw digest. *)
Theorem make_stamp_layout (prev_stamp payload_str time_utc_str : string) :
  let inner := SHA256.hexdigest (encode_utf8 payload_str) in
  let raw := (encode_utf8 prev_stamp ++ encode_utf8 inner ++ encode_utf8 time_utc_str)%list in
  make_stamp prev_stamp payload_str time_utc_str = SHA256.hexdigest raw
  /\ String.length (make_stamp prev_stamp payload_str time_utc_str) = 64%nat
  /\ Forall lower_hex (list_ascii_of_string (make_stamp prev_stamp payload_str time_utc_str))
  /\ length (encode_utf8 inner) = 64%nat
  /\ Forall lower_hex (list_ascii_of_string inner)
  /\ length raw = (String.length prev_stamp + 64 + String.length time_utc_str)%nat.
Proof.
  intros inner raw. unfold make_stamp. rewrite or_empty_id. fold inner. fold raw.
  assert (Hin : length (encode_utf8 inner) = 64%nat).
  { rewrite encode_utf8_length. apply hexdigest_length. }
  split; [reflexivity|].
  split; [apply hexdigest_length|].
  split; [apply hexdigest_lower|].
  split; [exact Hin|].
  split; [apply hexdigest_lower|].
  unfold raw. rewrite !length_app, Hin, !encode_utf8_length. lia.
Qed.

(** ** The alignment source *)

Ltac case_real_tests :=
  repeat match goal with
  | |- context [Rle_dec ?a ?b] => destruct (Rle_dec a b)
  | |- context [Rlt_dec ?a ?b] => destruct (Rlt_dec a b)
  | |- context [Rgt_dec ?a ?b] => destruct (Rgt_dec a b)
  | |- context [Rge_dec ?a ?b] => destruct (Rge_dec a b)
  end.

Lemma py_max_Rmax (a b : R) : py_max a b = Rmax a b.
Proof.
  unfold py_max, Rmax. case_real_tests; lra.
Qed.

(** C4, as stated, fails: with [tick_ms = 0], [dt_ms = 1], no stress and a
    draw of 0 the source returns the baseline 0.02, where the stated formula
    subtracts the freeze penalty and gives -0.03. *)
Lemma source_a_raw_no_penalty_without_cadence :
  -1 <= 0 <= 1
  /\ source_a_raw 0 1 0 0 0 = 0.02
  /\ spec_a_raw 1 0 0 0 = -0.03
  /\ source_a_raw 0 1 0 0 0 <> spec_a_raw 1 0 0 0.
Proof.
  assert (Hc : source_a_raw 0 1 0 0 0 = 0.02).
  { unfold source_a_raw, py_max, BASELINE_A, JITTER_GAIN, FREEZE_MULT,
      FREEZE_PENALTY, NOISE_AMPL. case_real_tests; lra. }
  assert (Hs : spec_a_raw 1 0 0 0 = -0.03).
  { unfold spec_a_raw. case_real_tests; lra. }
  split; [lra|]. split; [exact Hc|]. split; [exact Hs|].
  rewrite Hc, Hs. lra.
Qed.

(** C4 (amended). For all [dt_ms], [tick_ms], [a_stress] and draw [u], the
    source returns [base + jitter_term + noise_term] where the jitter is 0
    if [dt_ms <= 0] or [tick_ms <= 0] and [(dt_ms - tick_ms) / max(tick_ms, 1)]
    otherwise, [jitter_term = -0.15 * jitter], [noise_term = 0.01 * u], and
    [base] is [0.02 + a_stress] reduced by 0.05 exactly when [tick_ms > 0]
    and [dt_ms > 1.5 * tick_ms]; the command-line source is the same with
    no stress. *)
Theorem source_a_raw_formula (now_epoch dt_ms tick_ms a_stress u : R) :
  exists jitter base : R,
    source_a_raw now_epoch dt_ms tick_ms a_stress u
      = base + (- 0.15 * jitter) + 0.01 * u
    /\ (dt_ms <= 0 \/ tick_ms <= 0 -> jitter = 0)
    /\ (~ (dt_ms <= 0 \/ tick_ms <= 0) ->
        jitter = (dt_ms - tick_ms) / Rmax tick_ms 1)
    /\ (tick_ms > 0 /\ dt_ms > 1.5 * tick_ms -> base = 0.02 + a_stress - 0.05)
    /\ (~ (tick_ms > 0 /\ dt_ms > 1.5 * tick_ms) -> base = 0.02 + a_stress)
    /\ source_a_raw_cli now_epoch dt_ms tick_ms u
       = source_a_raw now_epoch dt_ms tick_ms 0 u.
Proof.
  unfold source_a_raw, source_a_raw_cli.
  rewrite py_max_Rmax.
  unfold BASELINE_A, JITTER_GAIN, FREEZE_MULT, FREEZE_PENALTY, NOISE_AMPL.
  exists (if Rle_dec dt_ms 0.0 then 0.0
          else if Rle_dec tick_ms 0.0 then 0.0
          else (dt_ms - tick_ms) / Rmax tick_ms 1.0).
  exists (if Rgt_dec tick_ms 0.0 then
            if Rgt_dec dt_ms (1.5 * tick_ms) then 0.02 + a_stress - 0.05
            else 0.02 + a_stress
          else 0.02 + a_stress).
  split; [lra|].
  replace 1.0 with 1 by lra.
  case_real_tests; repeat split; intros; try lra;
    repeat match goal with H : _ \/ _ |- _ => destruct H end;
    try lra; exfalso; intuition lra.
Qed.

(** ** The band classifier *)

(** C5. [classify_band] is a total function of the real [a_out] into the
    five labels; each label is returned on exactly one of the half-open
    intervals cut at 0.80, 0.40, 0.10 and -0.10, which cover the line without
    overlap, and each cut value belongs to the higher band. *)
Theorem classify_band_partition (a_out : R) :
  In (classify_band a_out) ["A+"; "A"; "B"; "C"; "D"]
  /\ (classify_band a_out = "A+" <-> 0.80 <= a_out)
  /\ (classify_band a_out = "A" <-> 0.40 <= a_out < 0.80)
  /\ (classify_band a_out = "B" <-> 0.10 <= a_out < 0.40)
  /\ (classify_band a_out = "C" <-> -0.10 <= a_out < 0.10)
  /\ (classify_band a_out = "D" <-> a_out < -0.10)
  /\ classify_band 0.80 = "A+"
  /\ classify_band 0.40 = "A"
  /\ classify_band 0.10 = "B"
  /\ classify_band (-0.10) = "C".
Proof.
  unfold classify_band.
  repeat match goal with |- _ /\ _ => split end;
    case_real_tests; simpl; try tauto; try lra;
    split; intros; try discriminate; try lra; try reflexivity.
Qed.

(** ** Hyperbolic tangent and its inverse *)

Lemma tanh_exp (x : R) :
  tanh x * (exp x * exp x + 1) = exp x * exp x - 1.
Proof.
  unfold tanh, sinh, cosh. rewrite exp_Ropp.
  pose proof (exp_pos x). field. split; nra.
Qed.

Lemma tanh_bounds (x : R) : -1 < tanh x < 1.
Proof.
  pose proof (tanh_exp x) as E. pose proof (exp_pos x) as P.
  assert (0 < exp x * exp x) by nra.
  split; nra.
Qed.

Lemma exp_le_mono (x y : R) : x <= y -> exp x <= exp y.
Proof.
  intros [L| ->]; [left; now apply exp_increasing | right; reflexivity].
Qed.

Lemma tanh_le_mono (x y : R) : x <= y -> tanh x <= tanh y.
Proof.
  intros L. apply exp_le_mono in L.
  pose proof (tanh_exp x) as Ex. pose proof (tanh_exp y) as Ey.
  pose proof (exp_pos x) as Px. pose proof (exp_pos y) as Py.
  pose proof (tanh_bounds x) as Bx. pose proof (tanh_bounds y) as By.
  set (s := exp x * exp x) in *. set (t := exp y * exp y) in *.
  assert (Hst : s <= t) by (unfold s, t; nra).
  assert (Hs : 0 < s) by (unfold s; nra).
  assert (Ht : 0 < t) by (unfold t; nra).
  assert (E : (tanh y - tanh x) * ((s + 1) * (t + 1)) = 2 * (t - s)) by nra.
  assert (0 < (s + 1) * (t + 1)) by nra.
  nra.
Qed.

Lemma tanh_atanh_safe (x : R) : -1 < x < 1 -> tanh (atanh_safe x) = x.
Proof.
  intros [Hl Hu].
  set (y := atanh_safe x).
  assert (E : exp y * exp y = (1 + x) / (1 - x)).
  { rewrite <- exp_plus. unfold y, atanh_safe, log1p.
    replace (0.5 * (ln (1 + x) - ln (1 + - x)) + 0.5 * (ln (1 + x) - ln (1 + - x)))
      with (ln (1 + x) + - ln (1 - x)) by (unfold Rminus; lra).
    rewrite exp_plus, exp_Ropp, !exp_ln by lra. reflexivity. }
  pose proof (tanh_exp y) as T. rewrite E in T.
  assert (D : (1 + x) / (1 - x) * (1 - x) = 1 + x) by (field; lra).
  assert (0 < 1 - x) by lra.
  nra.
Qed.

Lemma atanh_safe_odd (x : R) : atanh_safe (- x) = - atanh_safe x.
Proof.
  unfold atanh_safe, log1p. rewrite Ropp_involutive. lra.
Qed.

Lemma ln_le_mono (x y : R) : 0 < x -> x <= y -> ln x <= ln y.
Proof.
  intros P [L| ->]; [left; now apply ln_increasing | right; reflexivity].
Qed.

Lemma atanh_safe_le_mono (x y : R) :
  -1 < x -> x <= y -> y < 1 -> atanh_safe x <= atanh_safe y.
Proof.
  intros Hx L Hy. unfold atanh_safe, log1p.
  assert (ln (1 + x) <= ln (1 + y)) by (apply ln_le_mono; lra).
  assert (ln (1 + - y) <= ln (1 + - x)) by (apply ln_le_mono; lra).
  lra.
Qed.

Lemma atanh_safe_0 : atanh_safe 0 = 0.
Proof.
  unfold atanh_safe, log1p. rewrite Ropp_0, Rplus_0_r, ln_1. lra.
Qed.

Lemma clamp_a_range (a : R) : -1 + EPS_A <= clamp_a a <= 1 - EPS_A.
Proof.
  unfold clamp_a, EPS_A. case_real_tests; lra.
Qed.

Lemma U_MAX_nonneg : 0 <= U_MAX.
Proof.
  unfold U_MAX. rewrite <- atanh_safe_0.
  apply atanh_safe_le_mono; unfold EPS_A; lra.
Qed.

Lemma transformed_input_bound (a : R) :
  - U_MAX <= atanh_safe (clamp_a a) <= U_MAX.
Proof.
  pose proof (clamp_a_range a) as [L H]. unfold U_MAX.
  split.
  - rewrite <- atanh_safe_odd.
    apply atanh_safe_le_mono; unfold EPS_A in *; lra.
  - apply atanh_safe_le_mono; unfold EPS_A in *; lra.
Qed.

(** ** The kernel over a sequence of ticks *)

Lemma kernel_step_eq (decay weight U W a_raw : R) :
  kernel_step decay weight U W a_raw
  = (decay * U + weight * atanh_safe (clamp_a a_raw),
     decay * W + weight,
     tanh ((decay * U + weight * atanh_safe (clamp_a a_raw))
           / (if Rgt_dec (decay * W + weight) EPS_W
              then decay * W + weight else EPS_W))).
Proof. reflexivity. Qed.

Lemma kernel_reachable_bounds (U W : R) :
  kernel_reachable U W ->
  0 <= W < 200 /\ - (U_MAX * W) <= U <= U_MAX * W.
Proof.
  induction 1 as [|U W a_raw _ [HW HU]].
  - lra.
  - pose proof (transformed_input_bound a_raw) as Hu.
    unfold DECAY_W, W_DEFAULT. split; [lra|].
    replace (U_MAX * (0.995 * W + 1.0)) with (0.995 * (U_MAX * W) + U_MAX)
      by nra.
    split; lra.
Qed.

Lemma kernel_reachable_initial : kernel_reachable 0.0 0.0.
Proof.
  replace 0.0 with 0 by lra. exact reach_zero.
Qed.

Lemma record_tick_kernel (g : Engine) (now_epoch : R) (time_utc : string)
    (tick_ms dt_ms a_stress a_raw : R) :
  let g' := record_tick g now_epoch time_utc tick_ms dt_ms a_stress a_raw in
  let a_out := snd (kernel_step DECAY_W W_DEFAULT (U g) (W g) a_raw) in
  U g' = DECAY_W * U g + W_DEFAULT * atanh_safe (clamp_a a_raw)
  /\ W g' = DECAY_W * W g + W_DEFAULT
  /\ exists r, last (rows g') = Some r
       /\ row_tick_idx r = tick_index g
       /\ row_final_align_str r = format_align a_out
       /\ row_band r = classify_band a_out.
Proof.
  unfold record_tick. rewrite kernel_step_eq. cbn [U W rows snd].
  split; [reflexivity|]. split; [reflexivity|].
  eexists. rewrite last_snoc. split; [reflexivity|]. repeat split.
Qed.

Lemma record_tick_kernel_reachable (g : Engine) (now_epoch : R) (time_utc : string)
    (tick_ms dt_ms a_stress a_raw : R) :
  kernel_reachable (U g) (W g) ->
  kernel_reachable (U (record_tick g now_epoch time_utc tick_ms dt_ms a_stress a_raw))
                   (W (record_tick g now_epoch time_utc tick_ms dt_ms a_stress a_raw)).
Proof.
  intros H.
  destruct (record_tick_kernel g now_epoch time_utc tick_ms dt_ms a_stress a_raw)
    as (-> & -> & _).
  now apply reach_step.
Qed.

Lemma tick_kernel_reachable (e : TickEnv) (g : Engine) :
  kernel_reachable (U g) (W g) -> kernel_reachable (U (tick e g)) (W (tick e g)).
Proof.
  intros H. unfold tick.
  destruct (negb (running g)); [exact H|].
  destruct (AUTO_STOP_TICKS <? tick_index g)%Z; [exact H|].
  cbn [U W]. now apply record_tick_kernel_reachable.
Qed.

Lemma on_start_kernel_reachable (e : TickEnv) (g : Engine) :
  kernel_reachable (U g) (W g) ->
  kernel_reachable (U (on_start e g)) (W (on_start e g)).
Proof.
  intros H. unfold on_start. destruct (running g); [exact H|].
  apply tick_kernel_reachable. exact kernel_reachable_initial.
Qed.

Lemma cli_loop_kernel_reachable (tick_ms : R) (max_ticks : Z)
    (envs : list TickEnv) (g : Engine) :
  kernel_reachable (U g) (W g) ->
  kernel_reachable (U (cli_loop tick_ms max_ticks envs g))
                   (W (cli_loop tick_ms max_ticks envs g)).
Proof.
  revert g. induction envs as [|e envs IH]; intros g H; [exact H|].
  cbn [cli_loop].
  match goal with |- context [record_tick g ?n ?t ?m ?d ?s ?a] =>
    pose proof (record_tick_kernel_reachable g n t m d s a H) as H';
    set (g' := record_tick g n t m d s a) in *
  end.
  destruct ((0 <? max_ticks)%Z && (max_ticks <=? tick_index g')%Z); [exact H'|].
  apply IH. exact H'.
Qed.

Lemma desktop_session_kernel_reachable (events : list ui_event) :
  kernel_reachable (U (desktop_session events)) (W (desktop_session events)).
Proof.
  unfold desktop_session.
  assert (H : kernel_reachable (U desktop_initial) (W desktop_initial))
    by exact kernel_reachable_initial.
  revert H. generalize desktop_initial.
  induction events as [|ev events IH]; intros g H; [exact H|].
  cbn [foldl]. apply IH. destruct ev as [e|e|]; cbn [ui_step].
  - now apply on_start_kernel_reachable.
  - now apply tick_kernel_reachable.
  - exact H.
Qed.

Lemma run_clockke_cli_kernel_reachable (tick_sec : R) (max_ticks : Z)
    (envs : list TickEnv) :
  kernel_reachable (U (run_clockke_cli tick_sec max_ticks envs))
                   (W (run_clockke_cli tick_sec max_ticks envs)).
Proof.
  unfold run_clockke_cli. apply cli_loop_kernel_reachable.
  exact kernel_reachable_initial.
Qed.

Lemma kernel_run_no_decay (raws : list R) (U W : R) :
  0 <= W ->
  raws <> [] ->
  let us := map (fun a => atanh_safe (clamp_a a)) raws in
  exists outs,
    kernel_run 1.0 1.0 U W raws = (U + Rsum us, W + INR (length raws), outs)
    /\ last outs = Some (tanh ((U + Rsum us) / (W + INR (length raws)))).
Proof.
  revert U W. induction raws as [|a raws IH]; intros U W HW Hne; [congruence|].
  cbn zeta. cbn [kernel_run]. rewrite kernel_step_eq.
  assert (HD : (if Rgt_dec (1.0 * W + 1.0) EPS_W then 1.0 * W + 1.0 else EPS_W)
               = W + 1).
  { destruct (Rgt_dec (1.0 * W + 1.0) EPS_W) as [_|n]; [lra|].
    exfalso. apply n. unfold EPS_W. lra. }
  rewrite HD. clear HD.
  replace (1.0 * U + 1.0 * atanh_safe (clamp_a a))
    with (U + atanh_safe (clamp_a a)) by lra.
  replace (1.0 * W + 1.0) with (W + 1) by lra.
  destruct raws as [|b raws'].
  - cbn [kernel_run map Rsum fold_right length INR last].
    rewrite Rplus_0_r. eexists. split; reflexivity.
  - destruct (IH (U + atanh_safe (clamp_a a)) (W + 1)) as (outs & E & L);
      [lra|congruence|].
    rewrite E. clear E IH.
    change (length (a :: b :: raws')) with (S (length (b :: raws'))).
    rewrite S_INR.
    change (Rsum (map (fun a0 => atanh_safe (clamp_a a0)) (a :: b :: raws')))
      with (atanh_safe (clamp_a a)
            + Rsum (map (fun a0 => atanh_safe (clamp_a a0)) (b :: raws'))).
    set (s := Rsum (map (fun a0 => atanh_safe (clamp_a a0)) (b :: raws'))) in *.
    set (n := INR (length (b :: raws'))) in *.
    replace (U + (atanh_safe (clamp_a a) + s)) with (U + atanh_safe (clamp_a a) + s)
      by lra.
    replace (W + (n + 1)) with (W + 1 + n) by lra.
    eexists. split; [reflexivity|].
    destruct outs as [|o outs]; [discriminate|]. exact L.
Qed.

Lemma kernel_run_outs_length (decay weight : R) (raws : list R) (U W : R) :
  length (snd (kernel_run decay weight U W raws)) = length raws.
Proof.
  revert U W. induction raws as [|x raws IH]; intros U W; [reflexivity|].
  cbn [kernel_run]. rewrite kernel_step_eq.
  specialize (IH (decay * U + weight * atanh_safe (clamp_a x)) (decay * W + weight)).
  destruct (kernel_run decay weight _ _ raws) as [[Uf Wf] outs].
  cbn [snd length] in *. now rewrite IH.
Qed.

(** C6. With [decay = 1.0] and [weight = 1.0], from the zero state, after
    the [N >= 1] steps of the inputs [a :: rest], whose transformed values
    are [u_i = atanh_safe (clamp_a a_i)], the last [a_out] is the hyperbolic
    tangent of the arithmetic mean of the [u_i]; [U] is their sum and [W]
    their number. *)
Theorem running_mean_without_decay (a : R) (rest : list R) :
  let raws := a :: rest in
  let us := map (fun r => atanh_safe (clamp_a r)) raws in
  let N := INR (length raws) in
  exists outs,
    kernel_run 1.0 1.0 0 0 raws = (Rsum us, N, outs)
    /\ length outs = length raws
    /\ last outs = Some (tanh (Rsum us / N)).
Proof.
  intros raws us N.
  destruct (kernel_run_no_decay raws 0 0) as (outs & E & L);
    [lra|discriminate|].
  exists outs. fold us in E, L. fold N in E, L.
  rewrite !Rplus_0_l in E, L.
  split; [exact E|]. split; [|exact L].
  pose proof (kernel_run_outs_length 1.0 1.0 raws 0 0) as Hlen.
  rewrite E in Hlen. exact Hlen.
Qed.

(** ** The accumulated weight *)

Lemma W_range_upto_sound (k : nat) (w : float) :
  W_range_upto k w = true ->
  forall j, (j < k)%nat ->
    W_in_range_binary64 (Nat.iter (S j) W_step_binary64 w) = true.
Proof.
  revert w. induction k as [|k IH]; intros w H j Hj; [lia|].
  cbn [W_range_upto] in H. apply andb_prop in H as [H1 H2].
  destruct j as [|j].
  - exact H1.
  - rewrite Nat.iter_succ_r. apply IH; [exact H2|lia].
Qed.

Lemma W_binary64_succ (n : nat) :
  W_binary64 (S n) = W_step_binary64 (W_binary64 n).
Proof. reflexivity. Qed.

Lemma W_binary64_settled (m : nat) :
  W_binary64 (W_SETTLED + m) = W_binary64 W_SETTLED.
Proof.
  induction m as [|m IH].
  - now rewrite Nat.add_0_r.
  - rewrite Nat.add_succ_r, W_binary64_succ, IH. vm_compute. reflexivity.
Qed.

Lemma W_binary64_in_range (n : nat) :
  W_in_range_binary64 (W_binary64 (S n)) = true.
Proof.
  assert (C : W_range_upto W_SETTLED 0%float = true) by (vm_compute; reflexivity).
  destruct (Nat.lt_ge_cases n W_SETTLED) as [L|G].
  - exact (W_range_upto_sound _ _ C n L).
  - replace (S n) with (W_SETTLED + (S n - W_SETTLED))%nat by lia.
    rewrite W_binary64_settled.
    destruct W_SETTLED as [|s] eqn:E; [vm_compute in E; discriminate|].
    apply (W_range_upto_sound (S s) _ C s). lia.
Qed.

(** C10. From [W = 0] with [DECAY_W = 0.995] and [W_DEFAULT = 1.0], after
    the kernel step of every tick, the first included, [1.0 <= W < 200];
    hence [W > EPS_W] and the divisor is [W] itself, never [EPS_W].  The
    bound holds on the reals and on the binary64 values of [W]. *)
Theorem weight_stays_above_floor (g : Engine) (now_epoch : R) (time_utc : string)
    (tick_ms dt_ms a_stress a_raw : R) :
  kernel_reachable (U g) (W g) ->
  let g' := record_tick g now_epoch time_utc tick_ms dt_ms a_stress a_raw in
  1.0 <= W g' < 200
  /\ W g' > EPS_W
  /\ kernel_step DECAY_W W_DEFAULT (U g) (W g) a_raw
     = (U g', W g', tanh (U g' / W g'))
  /\ kernel_reachable (U g') (W g')
  /\ forall n, W_in_range_binary64 (W_binary64 (S n)) = true.
Proof.
  intros Hr g'.
  destruct (record_tick_kernel g now_epoch time_utc tick_ms dt_ms a_stress a_raw)
    as (EU & EW & _).
  fold g' in EU, EW. rewrite EU, EW.
  destruct (kernel_reachable_bounds _ _ Hr) as [[HW0 HW1] _].
  assert (HW' : 1.0 <= DECAY_W * W g + W_DEFAULT < 200)
    by (unfold DECAY_W, W_DEFAULT; lra).
  assert (HE : DECAY_W * W g + W_DEFAULT > EPS_W) by (unfold EPS_W; lra).
  split; [exact HW'|]. split; [exact HE|].
  split.
  - rewrite kernel_step_eq.
    destruct (Rgt_dec (DECAY_W * W g + W_DEFAULT) EPS_W) as [_|n];
      [reflexivity|contradiction].
  - split; [now apply reach_step|]. exact W_binary64_in_range.
Qed.

Lemma weight_stays_above_floor_first_tick :
  let g := mkEngine 0.0 0.0 "" 1 true [] None in
  let g' := record_tick g 0 "2025-01-01T00:00:00Z" 1000 1000 0 0.02 in
  kernel_reachable (U g) (W g)
  /\ 1.0 <= W g' < 200
  /\ W g' > EPS_W.
Proof.
  intros g g'. split; [exact kernel_reachable_initial|].
  pose proof (weight_stays_above_floor g 0 "2025-01-01T00:00:00Z" 1000 1000 0 0.02
                kernel_reachable_initial) as H.
  cbv zeta in H. destruct H as (H1 & H2 & _). split; assumption.
Defined.

(** ** The recorded alignment text *)

Lemma digit_value_decimal_digit (n : Z) :
  digit_value (decimal_digit n) = Some (n mod 10)%Z.
Proof.
  unfold digit_value, decimal_digit.
  pose proof (Z.mod_pos_bound n 10 eq_refl) as B.
  rewrite nat_ascii_embedding by lia.
  destruct (Nat.leb_spec 48 (48 + Z.to_nat (n mod 10))); [|lia].
  destruct (Nat.leb_spec (48 + Z.to_nat (n mod 10)) 57); [|lia].
  cbn [andb]. f_equal. lia.
Qed.

Lemma fixed_digits_value (k : nat) (n acc : Z) (tail : string) :
  digits_value (fixed_digits k n tail) acc
  = digits_value tail (acc * 10 ^ Z.of_nat k + n mod 10 ^ Z.of_nat k)%Z.
Proof.
  revert n acc tail. induction k as [|k IH]; intros n acc tail.
  - cbn [fixed_digits]. f_equal. change (10 ^ Z.of_nat 0)%Z with 1%Z.
    rewrite Z.mod_1_r. lia.
  - cbn [fixed_digits]. rewrite IH. cbn [digits_value].
    rewrite digit_value_decimal_digit. f_equal.
    rewrite Nat2Z.inj_succ, Z.pow_succ_r by lia.
    assert (P : (0 < 10 ^ Z.of_nat k)%Z) by (apply Z.pow_pos_nonneg; lia).
    rewrite (Z.rem_mul_r n 10 (10 ^ Z.of_nat k)) by lia. lia.
Qed.

Lemma fixed_digits_length (k : nat) (n : Z) (tail : string) :
  String.length (fixed_digits k n tail) = (k + String.length tail)%nat.
Proof.
  revert n tail. induction k as [|k IH]; intros n tail; [reflexivity|].
  cbn [fixed_digits]. rewrite IH. cbn [String.length]. lia.
Qed.

Lemma fixed_digits_app (k : nat) (n : Z) (tail : string) :
  fixed_digits k n tail = fixed_digits k n EmptyString +:+ tail.
Proof.
  revert n tail. induction k as [|k IH]; intros n tail; [reflexivity|].
  cbn [fixed_digits]. rewrite IH.
  rewrite (IH (n / 10)%Z (String (decimal_digit n) EmptyString)).
  rewrite string_app_assoc. reflexivity.
Qed.

Lemma decimal_digit_not_point (n : Z) : Ascii.eqb (decimal_digit n) "." = false.
Proof.
  unfold decimal_digit. pose proof (Z.mod_pos_bound n 10 eq_refl) as B.
  apply Ascii.eqb_neq. intros E. apply (f_equal nat_of_ascii) in E.
  rewrite nat_ascii_embedding in E by lia.
  change (nat_of_ascii ".") with 46%nat in E. lia.
Qed.

Lemma fixed_digits_no_point (k : nat) (n : Z) (tail : string) :
  split_point (fixed_digits k n EmptyString +:+ tail)
  = (fixed_digits k n EmptyString +:+ fst (split_point tail),
     snd (split_point tail)).
Proof.
  revert n tail. induction k as [|k IH]; intros n tail.
  - cbn [fixed_digits]. rewrite !string_app_nil. now destruct (split_point tail).
  - cbn [fixed_digits].
    rewrite (fixed_digits_app k (n / 10)%Z (String (decimal_digit n) EmptyString)).
    rewrite !string_app_assoc, string_app_cons, string_app_nil.
    rewrite IH. cbn [split_point]. rewrite decimal_digit_not_point.
    destruct (split_point tail) as [a b]. cbn [fst snd].
    now rewrite string_app_cons, string_app_nil.
Qed.

Lemma round_half_even_bounds (y : R) (K : Z) :
  0 <= y <= IZR K -> (0 <= round_half_even y <= K)%Z.
Proof.
  intros [H0 HK]. unfold round_half_even.
  pose proof (Zfloor_bound y) as [Fl Fu].
  set (n := Zfloor y) in *.
  assert (N0 : (0 <= n)%Z).
  { apply Z.lt_succ_r. apply lt_IZR. rewrite succ_IZR. lra. }
  assert (NK : (n <= K)%Z) by (apply le_IZR; lra).
  assert (NK' : 0.5 <= y - IZR n -> (n + 1 <= K)%Z).
  { intros Hh. apply Z.lt_succ_r. rewrite <- Z.add_1_r.
    apply Z.add_lt_mono_r. apply lt_IZR. lra. }
  destruct (Rlt_dec (y - IZR n) 0.5); [lia|].
  destruct (Rgt_dec (y - IZR n) 0.5); [split; [lia|apply NK'; lra]|].
  destruct (Z.even n); [lia|]. split; [lia|apply NK'; lra].
Qed.

Lemma round_half_even_close (y : R) :
  Rabs (IZR (round_half_even y) - y) <= 0.5.
Proof.
  unfold round_half_even.
  pose proof (Zfloor_bound y) as [Fl Fu].
  set (n := Zfloor y) in *.
  destruct (Rlt_dec (y - IZR n) 0.5).
  - apply Rabs_le. lra.
  - assert (E : IZR (n + 1) = IZR n + 1) by (rewrite plus_IZR; reflexivity).
    destruct (Rgt_dec (y - IZR n) 0.5); [rewrite E; apply Rabs_le; lra|].
    destruct (Z.even n); [|rewrite E]; apply Rabs_le; lra.
Qed.

Lemma Rabs_le_both (x a : R) : Rabs x <= a -> - a <= x <= a.
Proof.
  unfold Rabs. destruct (Rcase_abs x); lra.
Qed.

Lemma format_align_below_one (x : R) :
  Rabs x <= 1 - EPS_A ->
  let n := nano_units x in
  let sign := if Rlt_dec x 0 then "-" else "+" in
  (0 <= n <= 999999000)%Z
  /\ format_align x = sign +:+ "0." +:+ fixed_digits 9 n ""
  /\ decimal_value (format_align x)
     = Some ((if Rlt_dec x 0 then -1 else 1) * (IZR n / 1e9)).
Proof.
  intros Hx n sign.
  assert (Hn : (0 <= n <= 999999000)%Z).
  { apply round_half_even_bounds. pose proof (Rabs_pos x).
    unfold EPS_A in Hx. split; lra. }
  assert (E : format_align x = sign +:+ "0." +:+ fixed_digits 9 n "").
  { unfold format_align. fold n. fold sign.
    rewrite Z.div_small, Z.mod_small by lia. reflexivity. }
  split; [exact Hn|]. split; [exact E|].
  rewrite E. unfold decimal_value, sign.
  assert (S : split_point ("0." +:+ fixed_digits 9 n "") = ("0", fixed_digits 9 n "")).
  { reflexivity. }
  assert (D : digits_value (fixed_digits 9 n "") 0 = Some n).
  { rewrite fixed_digits_value. cbn [digits_value]. f_equal.
    rewrite Z.mod_small by lia. lia. }
  assert (V : IZR 0 + IZR n / 10 ^ String.length (fixed_digits 9 n "") = IZR n / 1e9).
  { rewrite fixed_digits_length. cbn [String.length Nat.add pow]. lra. }
  assert (D0 : digits_value "0" 0 = Some 0%Z) by reflexivity.
  destruct (Rlt_dec x 0).
  - rewrite string_app_cons, string_app_nil, S. cbv beta iota.
    rewrite D0, D. cbv beta iota zeta.
    change (Ascii.eqb "-" "-") with true. cbv iota. rewrite V. f_equal. lra.
  - rewrite string_app_cons, string_app_nil, S. cbv beta iota.
    rewrite D0, D. cbv beta iota zeta.
    change (Ascii.eqb "+" "-") with false. change (Ascii.eqb "+" "+") with true.
    cbv iota. rewrite V. f_equal. lra.
Qed.

Lemma kernel_output_bound (U W a_raw : R) :
  kernel_reachable U W ->
  Rabs (snd (kernel_step DECAY_W W_DEFAULT U W a_raw)) <= 1 - EPS_A.
Proof.
  intros Hr.
  destruct (kernel_reachable_bounds _ _ (reach_step U W a_raw Hr)) as [[HW _] HU].
  rewrite kernel_step_eq. cbn [snd].
  set (U' := DECAY_W * U + W_DEFAULT * atanh_safe (clamp_a a_raw)) in *.
  set (W' := DECAY_W * W + W_DEFAULT) in *.
  assert (HW1 : 1 <= W').
  { destruct (kernel_reachable_bounds _ _ Hr) as [[H0 _] _].
    unfold W', DECAY_W, W_DEFAULT. lra. }
  destruct (Rgt_dec W' EPS_W) as [_|n]; [|exfalso; apply n; unfold EPS_W; lra].
  set (q := U' / W').
  assert (Q : q * W' = U') by (unfold q; field; lra).
  pose proof U_MAX_nonneg as M0.
  assert (Hq : - U_MAX <= q <= U_MAX) by (split; nra).
  assert (T1 : tanh U_MAX = 1 - EPS_A).
  { unfold U_MAX. apply tanh_atanh_safe. unfold EPS_A. lra. }
  assert (T2 : tanh (- U_MAX) = - (1 - EPS_A)).
  { unfold U_MAX. rewrite <- atanh_safe_odd. apply tanh_atanh_safe.
    unfold EPS_A. lra. }
  pose proof (tanh_le_mono q U_MAX (proj2 Hq)) as L1.
  pose proof (tanh_le_mono (- U_MAX) q (proj1 Hq)) as L2.
  apply Rabs_le. lra.
Qed.

(** X26. For every source value that is a finite number and every
    reachable kernel state, the output [a_out = tanh (U' / denom)] of a tick
    is strictly between -1 and +1, and the [final_align] text of the row the
    tick records is a signed decimal whose value is strictly between -1 and
    +1, within half a unit of the ninth decimal of [a_out]; the state the
    tick leaves is reachable again. *)
Theorem a_out_strictly_inside (g : Engine) (now_epoch : R) (time_utc : string)
    (tick_ms dt_ms a_stress a_raw : R) :
  kernel_reachable (U g) (W g) ->
  let a_out := snd (kernel_step DECAY_W W_DEFAULT (U g) (W g) a_raw) in
  let g' := record_tick g now_epoch time_utc tick_ms dt_ms a_stress a_raw in
  -1 < a_out < 1
  /\ kernel_reachable (U g') (W g')
  /\ exists (r : Row) (v : R),
       last (rows g') = Some r
       /\ row_final_align_str r = format_align a_out
       /\ decimal_value (row_final_align_str r) = Some v
       /\ -1 < v < 1
       /\ Rabs (v - a_out) <= 0.5 / 1e9.
Proof.
  intros Hr a_out g'.
  split.
  { unfold a_out. rewrite kernel_step_eq. cbn [snd]. apply tanh_bounds. }
  split; [now apply record_tick_kernel_reachable|].
  destruct (record_tick_kernel g now_epoch time_utc tick_ms dt_ms a_stress a_raw)
    as (_ & _ & r & Hl & _ & Hf & _).
  fold g' in Hl. fold a_out in Hf.
  exists r. rewrite Hf.
  pose proof (kernel_output_bound (U g) (W g) a_raw Hr) as B. fold a_out in B.
  destruct (format_align_below_one a_out B) as (Hn & _ & V).
  eexists. split; [exact Hl|]. split; [reflexivity|]. split; [exact V|].
  pose proof (round_half_even_close (Rabs a_out * 1e9)) as C.
  fold (nano_units a_out) in C.
  set (n := nano_units a_out) in *.
  assert (In1 : 0 <= IZR n <= 999999000).
  { split; [apply (IZR_le 0)|apply (IZR_le n 999999000)]; lia. }
  apply Rabs_le_both in C.
  destruct (Rlt_dec a_out 0) as [Hneg|Hpos].
  - rewrite (Rabs_left a_out Hneg) in C.
    split; [lra|]. apply Rabs_le. lra.
  - rewrite (Rabs_right a_out) in C by lra.
    split; [lra|]. apply Rabs_le. lra.
Qed.

Lemma a_out_strictly_inside_first_tick :
  let g := mkEngine 0.0 0.0 "" 1 true [] None in
  kernel_reachable (U g) (W g)
  /\ -1 < snd (kernel_step DECAY_W W_DEFAULT (U g) (W g) 0.02) < 1.
Proof.
  intros g. split; [exact kernel_reachable_initial|].
  exact (proj1 (a_out_strictly_inside g 0 "2025-01-01T00:00:00Z" 1000 1000 0 0.02
                  kernel_reachable_initial)).
Defined.

(** ** Replaying a chain *)

Section ReplayFacts.
Context {A : Type} {stamped : Stamped A}.

Lemma stored_before_cons (prev : string) (x : A) (l : list A) (i : nat) :
  stored_before prev (x :: l) (S i) = stored_before (stamp_of x) l i.
Proof. reflexivity. Qed.

Lemma matches_at_cons (prev : string) (x : A) (l : list A) (i : nat) :
  matches_at (stamp_of x) l i -> matches_at prev (x :: l) (S i).
Proof.
  intros H y Hy. rewrite stored_before_cons. now apply H.
Qed.

Lemma matches_at_tail (prev : string) (x : A) (l : list A) (i : nat) :
  matches_at prev (x :: l) (S i) -> matches_at (stamp_of x) l i.
Proof.
  intros H y Hy. rewrite <- (stored_before_cons prev). now apply H.
Qed.

Lemma first_mismatch_None (prev : string) (l : list A) :
  first_mismatch prev l = None <-> forall i, matches_at prev l i.
Proof.
  revert prev. induction l as [|x l IH]; intros prev.
  - split; [|reflexivity]. intros _ i y Hy. destruct i; discriminate.
  - cbn [first_mismatch].
    destruct (String.eqb_spec (expected_of prev x) (stamp_of x)) as [E|N].
    + specialize (IH (stamp_of x)).
      destruct (first_mismatch (stamp_of x) l) as [[[k y] e]|].
      * split; [discriminate|]. intros H.
        assert (Some (k, y, e) = None) by
          (apply IH; intros i; apply (matches_at_tail prev), H).
        discriminate.
      * split; [|reflexivity]. intros _ [|i].
        -- intros y Hy. injection Hy as <-. symmetry. exact E.
        -- apply (matches_at_cons prev). now apply IH.
    + split; [discriminate|]. intros H. exfalso. apply N.
      symmetry. exact (H O x eq_refl).
Qed.

Lemma first_mismatch_Some (prev : string) (l : list A) (k : nat) (x : A) (e : string) :
  first_mismatch prev l = Some (k, x, e) <->
  l !! k = Some x
  /\ (forall i, (i < k)%nat -> matches_at prev l i)
  /\ e = expected_of (stored_before prev l k) x
  /\ stamp_of x <> e.
Proof.
  revert prev k. induction l as [|y l IH]; intros prev k.
  - split; [discriminate|]. intros [H _]. destruct k; discriminate.
  - cbn [first_mismatch].
    destruct (String.eqb_spec (expected_of prev y) (stamp_of y)) as [E|N].
    + destruct k as [|k].
      * split.
        -- destruct (first_mismatch (stamp_of y) l) as [[[k' z] e']|]; discriminate.
        -- intros (Hx & _ & -> & Hne). injection Hx as <-.
           exfalso. apply Hne. symmetry. exact E.
      * specialize (IH (stamp_of y) k). rewrite stored_before_cons.
        cbn [lookup list_lookup].
        destruct (first_mismatch (stamp_of y) l) as [[[k' z] e']|].
        -- split.
           ++ intros H. injection H as -> -> ->.
              destruct (proj1 IH eq_refl) as (H1 & H2 & H3 & H4).
              repeat split; try assumption.
              intros [|i] Hi.
              ** intros z0 Hz. injection Hz as <-. symmetry. exact E.
              ** apply (matches_at_cons prev). apply H2. lia.
           ++ intros (H1 & H2 & H3 & H4).
              assert (Some (k', z, e') = Some (k, x, e)) as Q;
                [|injection Q as -> -> ->; reflexivity].
              apply IH. repeat split; try assumption.
              intros i Hi. apply (matches_at_tail prev). apply H2. lia.
        -- split; [discriminate|].
           intros (H1 & H2 & H3 & H4).
           assert (None = Some (k, x, e)); [|discriminate].
           apply IH. repeat split; try assumption.
           intros i Hi. apply (matches_at_tail prev). apply H2. lia.
    + split.
      * intros H. injection H as <- <- <-.
        split; [reflexivity|]. split; [intros i Hi; lia|].
        split; [reflexivity|]. intros F. apply N. symmetry. exact F.
      * intros (H1 & H2 & H3 & H4). destruct k as [|k].
        -- injection H1 as <-. subst e. reflexivity.
        -- exfalso. apply N. symmetry. apply (H2 O); [lia|reflexivity].
Qed.

(** The mismatch found depends on the records up to it only. *)
Lemma first_mismatch_prefix (prev : string) (l l' : list A) (k : nat)
    (x : A) (e : string) :
  first_mismatch prev l = Some (k, x, e) ->
  take (S k) l' = take (S k) l ->
  first_mismatch prev l' = Some (k, x, e).
Proof.
  intros H T. apply first_mismatch_Some in H as (H1 & H2 & H3 & H4).
  assert (L : forall i, (i <= k)%nat -> l' !! i = l !! i).
  { intros i Hi. rewrite <- (lookup_take_lt l' (S k) i) by lia.
    rewrite T. apply lookup_take_lt. lia. }
  assert (P : forall i, (i <= k)%nat -> stored_before prev l' i = stored_before prev l i).
  { intros i Hi. unfold stored_before.
    replace i with (min i (S k)) by lia.
    rewrite <- !take_take. now rewrite T. }
  apply first_mismatch_Some. repeat split.
  - rewrite L by lia. exact H1.
  - intros i Hi y Hy. rewrite L in Hy by lia. rewrite P by lia. now apply H2.
  - rewrite P by lia. exact H3.
  - exact H4.
Qed.

End ReplayFacts.

(** ** Verification of recorded rows *)

Ltac read_columns :=
  cbn [time_of align_of band_of stamp_of Row_Stamped csv_row_Stamped] in *.

Lemma verify_rows_loop_first_mismatch (prev : string) (rs : list Row) :
  verify_rows_loop prev rs
  = match first_mismatch prev rs with
    | Some (_, r, e) => Some (row_tick_idx r, row_stamp r, e)
    | None => None
    end.
Proof.
  revert prev. induction rs as [|r rs IH]; intros prev; [reflexivity|].
  cbn [verify_rows_loop first_mismatch]. unfold expected_of at 1 2.
  cbn [time_of align_of band_of stamp_of Row_Stamped].
  destruct (String.eqb _ (row_stamp r)); cbn [negb]; [|reflexivity].
  rewrite IH.
  destruct (first_mismatch (row_stamp r) rs) as [[[k y] e]|]; reflexivity.
Qed.

Lemma verify_rows_result (g : Engine) :
  fst (verify_rows g)
  = match first_mismatch "" (rows g) with
    | Some (_, r, e) => (false, row_tick_idx r, row_stamp r, e)
    | None => (true, Z.of_nat (length (rows g)), "", "")
    end.
Proof.
  unfold verify_rows. destruct (rows g) as [|r rs] eqn:E; [reflexivity|].
  rewrite verify_rows_loop_first_mismatch.
  destruct (first_mismatch "" (r :: rs)) as [[[k y] e]|]; reflexivity.
Qed.

Lemma verify_rows_pure (g : Engine) : snd (verify_rows g) = g.
Proof.
  unfold verify_rows. destruct (rows g); [reflexivity|].
  destruct (verify_rows_loop _ _) as [[[i s] e]|]; reflexivity.
Qed.

(** ** Verification of a file *)

Lemma exposes_readable (row : csv_row) : exposes row -> readable row.
Proof.
  intros ((a & Ha) & Ht & (b & Hb) & (c & Hc) & Hs).
  repeat split; try assumption; eexists; eassumption.
Qed.

Lemma verify_file_loop_readable (prev : string) (n : nat) (row : csv_row)
    (reader : list csv_row) :
  readable row ->
  verify_file_loop prev n (row :: reader)
  = if String.eqb (csv_expected prev row) (field "stamp" row)
    then verify_file_loop (field "stamp" row) (S n) reader
    else VerificationFailed (field "tick_index" row) (field "stamp" row)
                            (csv_expected prev row).
Proof.
  intros ((ti & Hti) & (t & Ht) & (a & Ha) & (b & Hb) & (s & Hs)).
  cbn [verify_file_loop]. unfold csv_expected, expected_of.
  cbn [time_of align_of band_of stamp_of csv_row_Stamped].
  unfold getitem, field.
  rewrite Hti, Ht, Ha, Hb, Hs. cbn [make_stamp_cell stamp_differs py_format].
  destruct (String.eqb _ s); reflexivity.
Qed.

Lemma verify_file_loop_first_mismatch (prev : string) (n : nat) (reader : list csv_row) :
  Forall readable reader ->
  verify_file_loop prev n reader
  = match first_mismatch prev reader with
    | Some (_, row, e) =>
        VerificationFailed (field "tick_index" row) (field "stamp" row) e
    | None => AllChecksPassed (n + length reader)
    end.
Proof.
  intros H. revert prev n. induction H as [|row reader Hr _ IH]; intros prev n.
  - cbn. f_equal. lia.
  - rewrite verify_file_loop_readable by exact Hr. cbn [first_mismatch].
    fold (csv_expected prev row). read_columns.
    destruct (String.eqb (csv_expected prev row) (field "stamp" row)); [|reflexivity].
    rewrite IH.
    destruct (first_mismatch (field "stamp" row) reader) as [[[k y] e]|];
      [reflexivity|].
    f_equal. cbn [length]. lia.
Qed.

(** Once the verification has stopped on a row, the rows after it are
    not read. *)
Lemma verify_file_loop_stops (prev : string) (n : nat) (pre post : list csv_row) :
  (forall m, verify_file_loop prev n pre <> AllChecksPassed m) ->
  verify_file_loop prev n (pre ++ post) = verify_file_loop prev n pre.
Proof.
  revert prev n. induction pre as [|row pre IH]; intros prev n H.
  - exfalso. exact (H n eq_refl).
  - cbn [app verify_file_loop] in *.
    destruct (getitem row "tick_index"); [reflexivity|].
    destruct (getitem row "time_utc") as [|t]; [reflexivity|].
    destruct (getitem row "final_align"); [reflexivity|].
    destruct (getitem row "band"); [reflexivity|].
    destruct (getitem row "stamp") as [|s]; [reflexivity|].
    destruct (make_stamp_cell _ _ t) as [|e]; [reflexivity|].
    destruct (stamp_differs e s); [reflexivity|].
    now apply IH.
Qed.

Lemma verify_file_loop_passed (prev : string) (n m : nat) (reader : list csv_row) :
  verify_file_loop prev n reader = AllChecksPassed m ->
  Forall readable reader /\ m = (n + length reader)%nat.
Proof.
  revert prev n. induction reader as [|row reader IH]; intros prev n H.
  - cbn in H. injection H as <-. split; [constructor|cbn; lia].
  - cbn [verify_file_loop] in H. unfold getitem in H.
    destruct (row !! "tick_index") as [ti|] eqn:Hti; [|discriminate].
    destruct (row !! "time_utc") as [[t|]|] eqn:Ht; [| |discriminate].
    2:{ destruct (row !! "final_align"); [|discriminate].
        destruct (row !! "band"); [|discriminate].
        destruct (row !! "stamp"); discriminate. }
    destruct (row !! "final_align") as [a|] eqn:Ha; [|discriminate].
    destruct (row !! "band") as [b|] eqn:Hb; [|discriminate].
    destruct (row !! "stamp") as [[s|]|] eqn:Hs; [| |discriminate].
    2:{ cbn in H. discriminate. }
    cbn [make_stamp_cell stamp_differs] in H.
    destruct (negb _); [discriminate|].
    apply IH in H as [HF ->]. split; [|cbn [length]; lia].
    constructor; [|exact HF].
    repeat split; try (eexists; eassumption).
Qed.

(** C2. Verification replays the chain from the empty previous stamp,
    each record against the stored stamp of the one before it.  When every
    record carries its expected stamp the result is success with the number
    of records; otherwise it is the first failing record's [tick_index] with
    its stored and its expected stamp, whatever the later records are.  The
    state read is left as it was, and no record at all is success with
    count 0.  This holds for [verify_rows] on the rows in memory and for
    [verify_file] on rows exposing the columns read. *)
Theorem verification_replays_chain :
  (forall g : Engine,
     let rs := rows g in
     snd (verify_rows g) = g
     /\ (rs = [] -> fst (verify_rows g) = (true, 0%Z, "", ""))
     /\ ((forall i, row_matches rs i) ->
         fst (verify_rows g) = (true, Z.of_nat (length rs), "", ""))
     /\ (forall k r,
           rs !! k = Some r ->
           (forall i, (i < k)%nat -> row_matches rs i) ->
           row_stamp r <> row_expected (row_stored_before rs k) r ->
           fst (verify_rows g)
           = (false, row_tick_idx r, row_stamp r,
              row_expected (row_stored_before rs k) r)
           /\ forall g',
                take (S k) (rows g') = take (S k) rs ->
                fst (verify_rows g') = fst (verify_rows g)))
  /\ verify_file [] = AllChecksPassed 0
  /\ (forall reader : list csv_row,
        Forall exposes reader ->
        ((forall i, csv_matches reader i) ->
         verify_file reader = AllChecksPassed (length reader))
        /\ (forall k row,
              reader !! k = Some row ->
              (forall i, (i < k)%nat -> csv_matches reader i) ->
              field "stamp" row <> csv_expected (csv_stored_before reader k) row ->
              verify_file reader
              = VerificationFailed (field "tick_index" row) (field "stamp" row)
                  (csv_expected (csv_stored_before reader k) row)
              /\ forall later,
                   verify_file (take (S k) reader ++ later) = verify_file reader)).
Proof.
  split; [|split; [reflexivity|]].
  - intros g rs. split; [apply verify_rows_pure|].
    split; [|split].
    + intros E. unfold verify_rows. fold rs. now rewrite E.
    + intros H. rewrite verify_rows_result. fold rs.
      apply first_mismatch_None in H. now rewrite H.
    + intros k r Hk Hlt Hne.
      assert (M : first_mismatch "" rs
                  = Some (k, r, row_expected (row_stored_before rs k) r)).
      { apply first_mismatch_Some. repeat split; assumption. }
      split.
      * rewrite verify_rows_result. fold rs. now rewrite M.
      * intros g' T. rewrite !verify_rows_result. fold rs.
        rewrite (first_mismatch_prefix _ _ _ _ _ _ M T). now rewrite M.
  - intros reader Hx.
    assert (Hr : Forall readable reader).
    { eapply Forall_impl; [exact Hx|]. exact exposes_readable. }
    split.
    + intros H. unfold verify_file.
      rewrite verify_file_loop_first_mismatch by exact Hr.
      apply first_mismatch_None in H. now rewrite H.
    + intros k row Hk Hlt Hne.
      assert (M : first_mismatch "" reader
                  = Some (k, row, csv_expected (csv_stored_before reader k) row)).
      { apply first_mismatch_Some. repeat split; assumption. }
      assert (R : verify_file reader
                  = VerificationFailed (field "tick_index" row) (field "stamp" row)
                      (csv_expected (csv_stored_before reader k) row)).
      { unfold verify_file. rewrite verify_file_loop_first_mismatch by exact Hr.
        now rewrite M. }
      split; [exact R|]. intros later. rewrite R.
      assert (P : verify_file (take (S k) reader)
                  = VerificationFailed (field "tick_index" row) (field "stamp" row)
                      (csv_expected (csv_stored_before reader k) row)).
      { unfold verify_file.
        rewrite verify_file_loop_first_mismatch by (now apply Forall_take).
        rewrite (first_mismatch_prefix _ _ (take (S k) reader) _ _ _ M);
          [reflexivity|].
        rewrite take_take. f_equal. lia. }
      unfold verify_file in *. rewrite verify_file_loop_stops; [exact P|].
      intros m. rewrite P. discriminate.
Qed.

(** ** Stamps of a session *)

Lemma last_cons_default {A : Type} (x : A) (l : list A) :
  last (x :: l) = Some (default x (last l)).
Proof.
  revert x. induction l as [|y l IH]; intros x; [reflexivity|].
  rewrite last_cons_cons, IH. reflexivity.
Qed.

Lemma chain_stamps_snoc (prev : string) (l : list (string * string * string))
    (t a b : string) :
  chain_stamps prev (l ++ [(t, a, b)])
  = (chain_stamps prev l
     ++ [make_stamp (default prev (last (chain_stamps prev l))) (payload_of t a b) t])%list.
Proof.
  revert prev. induction l as [|[[t' a'] b'] l IH]; intros prev; [reflexivity|].
  cbn [app chain_stamps]. rewrite IH. cbn [app].
  now rewrite last_cons_default.
Qed.

Lemma row_triple_mkRow (i : Z) (t a b s : string) (m d x : R) :
  row_triple (mkRow i t a b s m d x) = (t, a, b).
Proof. reflexivity. Qed.

Lemma record_tick_chained (g : Engine) (now_epoch : R) (time_utc : string)
    (tick_ms dt_ms a_stress a_raw : R) :
  chained g -> chained (record_tick g now_epoch time_utc tick_ms dt_ms a_stress a_raw).
Proof.
  intros [Hc Hp]. unfold record_tick. rewrite kernel_step_eq.
  unfold chained. cbn [rows prev_stamp].
  rewrite !map_app. cbn [map row_stamp]. rewrite row_triple_mkRow.
  rewrite chain_stamps_snoc, last_snoc, <- Hc, <- Hp. split; reflexivity.
Qed.

Lemma tick_chained (e : TickEnv) (g : Engine) : chained g -> chained (tick e g).
Proof.
  intros H. unfold tick.
  destruct (negb (running g)); [exact H|].
  destruct (AUTO_STOP_TICKS <? tick_index g)%Z; [exact H|].
  match goal with |- chained (mkEngine _ _ _ _ _ (rows ?g') _) =>
    assert (H' : chained g') by (now apply record_tick_chained);
    destruct H' as [Hc Hp]; split; [exact Hc|exact Hp]
  end.
Qed.

Lemma reset_engine_chained (g : Engine) : chained (reset_engine g).
Proof. split; reflexivity. Qed.

Lemma on_start_chained (e : TickEnv) (g : Engine) : chained g -> chained (on_start e g).
Proof.
  intros H. unfold on_start. destruct (running g); [exact H|].
  apply tick_chained. split; reflexivity.
Qed.

Lemma cli_loop_chained (tick_ms : R) (max_ticks : Z) (envs : list TickEnv) (g : Engine) :
  chained g -> chained (cli_loop tick_ms max_ticks envs g).
Proof.
  revert g. induction envs as [|e envs IH]; intros g H; [exact H|].
  cbn [cli_loop].
  match goal with |- context [record_tick g ?n ?t ?m ?d ?s ?a] =>
    pose proof (record_tick_chained g n t m d s a H) as H';
    set (g' := record_tick g n t m d s a) in *
  end.
  destruct ((0 <? max_ticks)%Z && (max_ticks <=? tick_index g')%Z); [exact H'|].
  apply IH. destruct H' as [Hc Hp]. split; [exact Hc|exact Hp].
Qed.

Lemma desktop_session_chained (events : list ui_event) :
  chained (desktop_session events).
Proof.
  unfold desktop_session.
  assert (H : chained desktop_initial) by (split; reflexivity).
  revert H. generalize desktop_initial.
  induction events as [|ev events IH]; intros g H; [exact H|].
  cbn [foldl]. apply IH. destruct ev as [e|e|]; cbn [ui_step].
  - now apply on_start_chained.
  - now apply tick_chained.
  - exact H.
Qed.

Lemma run_clockke_cli_chained (tick_sec : R) (max_ticks : Z) (envs : list TickEnv) :
  chained (run_clockke_cli tick_sec max_ticks envs).
Proof.
  unfold run_clockke_cli. apply cli_loop_chained. split; reflexivity.
Qed.

Lemma chained_stamps_determined (g1 g2 : Engine) :
  chained g1 -> chained g2 ->
  map row_triple (rows g1) = map row_triple (rows g2) ->
  map row_stamp (rows g1) = map row_stamp (rows g2)
  /\ prev_stamp g1 = prev_stamp g2.
Proof.
  intros [C1 P1] [C2 P2] E.
  assert (S : map row_stamp (rows g1) = map row_stamp (rows g2))
    by (now rewrite C1, C2, E).
  split; [exact S|]. now rewrite P1, P2, S.
Qed.

Lemma chain_stamps_no_mismatch (prev : string) (rs : list Row) :
  map row_stamp rs = chain_stamps prev (map row_triple rs) ->
  first_mismatch prev rs = None.
Proof.
  revert prev. induction rs as [|r rs IH]; intros prev E; [reflexivity|].
  cbn [map chain_stamps] in E. unfold row_triple at 1 in E.
  injection E as E1 E2. rewrite <- E1 in E2.
  cbn [first_mismatch]. unfold expected_of. read_columns.
  rewrite <- E1, String.eqb_refl, (IH _ E2). reflexivity.
Qed.

(** The rows a session has recorded verify. *)
Lemma chained_rows_verify (g : Engine) :
  chained g ->
  fst (verify_rows g) = (true, Z.of_nat (length (rows g)), "", "").
Proof.
  intros [Hc _]. rewrite verify_rows_result.
  now rewrite (chain_stamps_no_mismatch _ _ Hc).
Qed.

(** C9. Stamp generation is deterministic: two independent runs, each
    from the empty previous stamp, whose recorded
    [(time_utc, final_align, band)] triples are the same sequence have the
    same sequence of stamps, character for character, whatever their
    cadences, timings and draws were; for two command-line runs and for two
    desktop sessions. *)
Theorem stamps_determined_by_triples
    (tick_sec1 tick_sec2 : R) (max_ticks1 max_ticks2 : Z)
    (envs1 envs2 : list TickEnv) (events1 events2 : list ui_event) :
  let c1 := run_clockke_cli tick_sec1 max_ticks1 envs1 in
  let c2 := run_clockke_cli tick_sec2 max_ticks2 envs2 in
  let d1 := desktop_session events1 in
  let d2 := desktop_session events2 in
  (map row_triple (rows c1) = map row_triple (rows c2) ->
   map row_stamp (rows c1) = map row_stamp (rows c2))
  /\ (map row_triple (rows d1) = map row_triple (rows d2) ->
      map row_stamp (rows d1) = map row_stamp (rows d2))
  /\ (map row_triple (rows c1) = map row_triple (rows d1) ->
      map row_stamp (rows c1) = map row_stamp (rows d1)).
Proof.
  intros c1 c2 d1 d2.
  pose proof (run_clockke_cli_chained tick_sec1 max_ticks1 envs1) as H1.
  pose proof (run_clockke_cli_chained tick_sec2 max_ticks2 envs2) as H2.
  pose proof (desktop_session_chained events1) as H3.
  pose proof (desktop_session_chained events2) as H4.
  split; [|split]; intros E;
    eapply chained_stamps_determined; eassumption.
Qed.

Lemma source_a_raw_cli_on_time (now_epoch tick_ms u : R) :
  0 < tick_ms ->
  source_a_raw_cli now_epoch tick_ms tick_ms u = BASELINE_A + NOISE_AMPL * u.
Proof.
  intros H. unfold source_a_raw_cli, FREEZE_MULT.
  destruct (Rle_dec tick_ms 0.0); [lra|].
  destruct (Rgt_dec tick_ms 0.0); [|lra].
  destruct (Rgt_dec tick_ms (1.5 * tick_ms)); [lra|].
  unfold Rdiv, Rminus. rewrite Rplus_opp_r, Rmult_0_l. lra.
Qed.

(** The first row of a command-line run. *)
Lemma run_clockke_cli_first_row (tick_sec : R) (max_ticks : Z) (e : TickEnv) :
  0 < tick_sec ->
  let a_out :=
    snd (kernel_step DECAY_W W_DEFAULT 0.0 0.0
           (BASELINE_A + NOISE_AMPL * env_noise_unit e)) in
  let final_align_str := format_align a_out in
  let band := classify_band a_out in
  rows (run_clockke_cli tick_sec max_ticks [e])
  = [mkRow 1 (env_time_utc e) final_align_str band
       (make_stamp "" (payload_of (env_time_utc e) final_align_str band)
                   (env_time_utc e))
       (tick_sec * 1000.0) (tick_sec * 1000.0) 0.0].
Proof.
  intros H a_out final_align_str band.
  unfold run_clockke_cli. cbn [cli_loop last_tick_epoch].
  rewrite source_a_raw_cli_on_time by lra.
  unfold record_tick. rewrite kernel_step_eq. cbn [U W prev_stamp rows tick_index app].
  unfold final_align_str, band, a_out. rewrite kernel_step_eq. cbn [snd].
  destruct ((0 <? max_ticks)%Z && (max_ticks <=? 1)%Z); reflexivity.
Qed.

Lemma stamps_determined_two_cadences :
  let e := mkTickEnv 0 100 "2025-01-01T00:00:00Z" 0 0 in
  map row_triple (rows (run_clockke_cli 1 1 [e]))
  = map row_triple (rows (run_clockke_cli 2 1 [e]))
  /\ map row_stamp (rows (run_clockke_cli 1 1 [e]))
     = map row_stamp (rows (run_clockke_cli 2 1 [e])).
Proof.
  intros e.
  assert (T : map row_triple (rows (run_clockke_cli 1 1 [e]))
              = map row_triple (rows (run_clockke_cli 2 1 [e]))).
  { rewrite !run_clockke_cli_first_row by lra. reflexivity. }
  split; [exact T|].
  exact (proj1 (stamps_determined_by_triples 1 2 1 1 [e] [e] [] []) T).
Defined.

(** ** Tampering with a recorded field *)

Lemma csv_expected_stamp_input (prev : string) (row : csv_row) :
  csv_expected prev row = SHA256.hexdigest (stamp_input prev row).
Proof.
  unfold csv_expected, expected_of, make_stamp. now rewrite or_empty_id.
Qed.

Lemma field_insert_eq (key : string) (cell : option string) (row : csv_row) :
  field key (<[key := cell]> row) = py_format cell.
Proof. unfold field. now rewrite lookup_insert_eq. Qed.

Lemma field_insert_ne (key key' : string) (cell : option string) (row : csv_row) :
  key <> key' -> field key' (<[key := cell]> row) = field key' row.
Proof. intros H. unfold field. now rewrite lookup_insert_ne. Qed.

Lemma field_text (key s : string) (row : csv_row) :
  row !! key = Some (Some s) -> field key row = s.
Proof. intros H. unfold field. now rewrite H. Qed.

Lemma payload_of_inj (t a b t' a' b' : string) :
  (t = t' /\ a = a' \/ t = t' /\ b = b' \/ a = a' /\ b = b') ->
  payload_of t a b = payload_of t' a' b' ->
  t = t' /\ a = a' /\ b = b'.
Proof.
  unfold payload_of. intros [[-> ->]|[[-> ->]|[-> ->]]] E.
  - do 4 apply string_app_inv_head in E. auto.
  - do 2 apply string_app_inv_head in E.
    assert (a = a'); [|auto].
    apply (string_app_inv_tail a a' ("|" +:+ b')). exact E.
  - assert (t = t'); [|auto].
    apply (string_app_inv_tail t t' ("|" +:+ a' +:+ "|" +:+ b')). exact E.
Qed.

Lemma stamp_input_inj (prev : string) (row row' : csv_row) :
  stamp_input prev row' = stamp_input prev row ->
  SHA256.hexdigest (encode_utf8 (csv_payload row'))
  = SHA256.hexdigest (encode_utf8 (csv_payload row)).
Proof.
  unfold stamp_input. intros E. apply app_inv_head in E.
  apply app_inj_1 in E as [E _].
  - now apply encode_utf8_inj.
  - now rewrite !encode_utf8_length, !hexdigest_length.
Qed.

Lemma readable_insert_text (row : csv_row) (key new : string) :
  readable row -> readable (<[key := Some new]> row).
Proof.
  intros (H1 & H2 & H3 & H4 & H5). unfold readable, has_text.
  repeat split;
    match goal with
    | |- context [<[key := _]> row !! ?k] =>
        destruct (decide (key = k)) as [->|N];
        [rewrite lookup_insert_eq; eauto
        |rewrite lookup_insert_ne by exact N; assumption]
    end.
Qed.

Lemma verify_file_passed_matches (reader : list csv_row) (m : nat) :
  verify_file reader = AllChecksPassed m ->
  Forall readable reader /\ forall i, csv_matches reader i.
Proof.
  intros H. destruct (verify_file_loop_passed _ _ _ _ H) as [Hr _].
  split; [exact Hr|]. apply first_mismatch_None.
  unfold verify_file in H. rewrite verify_file_loop_first_mismatch in H by exact Hr.
  destruct (first_mismatch "" reader) as [[[k y] e]|];
    [discriminate|reflexivity].
Qed.

(** X25. Tampering with a payload field is detected as far as SHA-256
    separates the texts involved: in a chain that verifies, replacing the
    [final_align], [band] or [time_utc] text of record [k] by any other
    text (one changed character included) makes the verification fail at
    record [k], provided SHA-256 does not collide on the original and the
    new payload nor on the two hashed inputs of that record.  The report
    carries the [tick_index] and the stored stamp of that record and an
    expected stamp that differs from it; no earlier record is reported. *)
Theorem payload_tampering_detected
    (reader : list csv_row) (k : nat) (row : csv_row) (key old new : string) :
  verify_file reader = AllChecksPassed (length reader) ->
  reader !! k = Some row ->
  In key ["final_align"; "band"; "time_utc"] ->
  row !! key = Some (Some old) ->
  new <> old ->
  let row' := <[key := Some new]> row in
  let prev := csv_stored_before reader k in
  no_collision (encode_utf8 (csv_payload row')) (encode_utf8 (csv_payload row)) ->
  no_collision (stamp_input prev row') (stamp_input prev row) ->
  verify_file (<[k := row']> reader)
  = VerificationFailed (field "tick_index" row) (field "stamp" row)
      (csv_expected prev row')
  /\ csv_expected prev row' <> field "stamp" row
  /\ forall i, (i < k)%nat -> csv_matches (<[k := row']> reader) i.
Proof.
  intros Hv Hk Hkey Hold Hch row' prev Hc1 Hc2.
  destruct (verify_file_passed_matches _ _ Hv) as [Hr Hm].
  assert (Hch' : old <> new) by congruence. clear Hch. rename Hch' into Hch.
  assert (Hlen : (k < length reader)%nat) by (apply lookup_lt_is_Some; eauto).
  assert (Hrow : readable row) by (eapply Forall_lookup_1; eassumption).
  (* the tampered record keeps its index and stamp, and its payload moves *)
  assert (Hti : field "tick_index" row' = field "tick_index" row).
  { apply field_insert_ne. cbn in Hkey. intuition (subst; discriminate). }
  assert (Hst : field "stamp" row' = field "stamp" row).
  { apply field_insert_ne. cbn in Hkey. intuition (subst; discriminate). }
  assert (Hpay : csv_payload row' <> csv_payload row).
  { unfold csv_payload. intros E.
    apply field_text in Hold.
    cbn in Hkey. destruct Hkey as [<-|[<-|[<-|[]]]].
    - apply payload_of_inj in E as (_ & E & _).
      + unfold row' in E. rewrite field_insert_eq in E. cbn in E. congruence.
      + right. left. unfold row'. split; apply field_insert_ne; discriminate.
    - apply payload_of_inj in E as (_ & _ & E).
      + unfold row' in E. rewrite field_insert_eq in E. cbn in E. congruence.
      + left. unfold row'. split; apply field_insert_ne; discriminate.
    - apply payload_of_inj in E as (E & _ & _).
      + unfold row' in E. rewrite field_insert_eq in E. cbn in E. congruence.
      + right. right. unfold row'. split; apply field_insert_ne; discriminate. }
  assert (Hexp : csv_expected prev row' <> field "stamp" row).
  { assert (Hmk : field "stamp" row = csv_expected prev row)
      by exact (Hm k row Hk).
    rewrite Hmk, !csv_expected_stamp_input.
    apply Hc2. intros E. apply stamp_input_inj in E.
    revert E. apply Hc1. intros E. apply encode_utf8_inj in E. contradiction. }
  (* replay on the tampered chain *)
  set (reader' := <[k := row']> reader).
  assert (Hk' : reader' !! k = Some row') by (now apply list_lookup_insert_eq).
  assert (Hsb : forall i, (i <= k)%nat ->
                  csv_stored_before reader' i = csv_stored_before reader i).
  { intros i Hi. unfold csv_stored_before, stored_before, reader'.
    now rewrite take_insert_ge. }
  assert (Hlow : forall i, (i < k)%nat -> csv_matches reader' i).
  { intros i Hi y Hy. unfold reader' in Hy.
    rewrite list_lookup_insert_ne in Hy by lia.
    fold (csv_stored_before reader' i). rewrite Hsb by lia. now apply Hm. }
  assert (M : first_mismatch "" reader'
              = Some (k, row', csv_expected prev row')).
  { apply first_mismatch_Some. split; [exact Hk'|]. split; [exact Hlow|].
    split.
    - fold (csv_stored_before reader' k). rewrite Hsb by lia. reflexivity.
    - change (field "stamp" row' <> csv_expected prev row').
      rewrite Hst. intros E. apply Hexp. now rewrite E. }
  split; [|split; [exact Hexp|exact Hlow]].
  rewrite <- Hti, <- Hst.
  rewrite <- (take_drop (S k) reader').
  unfold verify_file.
  assert (P : verify_file_loop "" 0 (take (S k) reader')
              = VerificationFailed (field "tick_index" row') (field "stamp" row')
                  (csv_expected prev row')).
  { rewrite verify_file_loop_first_mismatch.
    - rewrite (first_mismatch_prefix _ _ (take (S k) reader') _ _ _ M);
        [reflexivity|].
      rewrite take_take. f_equal. lia.
    - unfold reader'. rewrite take_insert_lt by lia.
      apply Forall_insert; [now apply Forall_take|].
      now apply readable_insert_text. }
  rewrite verify_file_loop_stops; [exact P|].
  intros m. rewrite P. discriminate.
Qed.

(** ** A recorded chain of two ticks *)

Example sample_chain_verifies :
  verify_file [sample_row1; sample_row2] = AllChecksPassed 2.
Proof. vm_compute. reflexivity. Qed.

Lemma payload_tampering_detected_sample :
  let tampered := <["final_align" := Some "+0.118771532"]> sample_row2 in
  verify_file [sample_row1; sample_row2] = AllChecksPassed 2
  /\ verify_file [sample_row1; tampered]
     = VerificationFailed "2"
         "ccc869f2b53f7ab4a588f183bb69c61aa07d124c23b25fb272ace4872d166e09"
         "7afe8c879676a2784fdcfd8f7b3c2d372ab2344ba5dd41c917ba39c11d8a61e7".
Proof.
  intros tampered.
  assert (V : verify_file [sample_row1; sample_row2] = AllChecksPassed 2)
    by (vm_compute; reflexivity).
  split; [exact V|].
  assert (L : sample_row2 !! "final_align" = Some (Some "+0.018771532"))
    by (vm_compute; reflexivity).
  assert (C : "+0.118771532" <> "+0.018771532") by discriminate.
  destruct (payload_tampering_detected [sample_row1; sample_row2] 1 sample_row2
              "final_align" "+0.018771532" "+0.118771532" V eq_refl
              (or_introl eq_refl) L C) as (T & _ & _).
  - intros _ E. vm_compute in E. discriminate E.
  - intros _ E. vm_compute in E. discriminate E.
  - change (<[1%nat := <["final_align" := Some "+0.118771532"]> sample_row2]>
              [sample_row1; sample_row2])
      with [sample_row1; tampered] in T.
    rewrite T. vm_compute. reflexivity.
Defined.

(** ** Malformed rows *)

Lemma verify_file_loop_app_passed (prev : string) (n m : nat)
    (pre rest : list csv_row) :
  verify_file_loop prev n pre = AllChecksPassed m ->
  verify_file_loop prev n (pre ++ rest)
  = verify_file_loop (stored_before prev pre (length pre)) m rest.
Proof.
  revert prev n. induction pre as [|row pre IH]; intros prev n H.
  - cbn in H. injection H as <-. reflexivity.
  - destruct (verify_file_loop_passed _ _ _ _ H) as [Hr _].
    apply Forall_cons in Hr as [Hrow _].
    cbn [app length]. rewrite stored_before_cons.
    rewrite verify_file_loop_readable in H |- * by exact Hrow.
    destruct (String.eqb _ _); [|discriminate]. now apply IH.
Qed.

(** C8, as stated, fails: a row whose stamp is missing gets the report
    of a chain mismatch, the same [VERIFICATION FAILED] as a tampered row,
    and a row whose [final_align] cannot be parsed as a number verifies. *)
Lemma malformed_rows_not_told_apart :
  row_without_stamp !! "stamp" = Some None
  /\ verify_file [row_without_stamp]
     = VerificationFailed "1" "None"
         "34df698a15c65124d9210e3040051a0716e1f6066cee5c3c1e4e89e6cf36193b"
  /\ decimal_value (field "final_align" row_not_a_number) = None
  /\ verify_file [row_not_a_number] = AllChecksPassed 1.
Proof.
  split; [vm_compute; reflexivity|].
  split; [vm_compute; reflexivity|].
  split; [|vm_compute; reflexivity].
  reflexivity.
Qed.

(** C8 (amended). Verification has no error of its own for a malformed
    row and never parses a field; what it does with a row reached after a
    verified prefix depends on the five columns it reads.  A row lacking
    one of these columns ends it with [KeyError] naming the first such
    column in reading order.  Otherwise a row whose [time_utc] cell is
    missing ends it with [AttributeError].  Otherwise a row whose stamp
    cell is missing is reported as a chain mismatch, with that row's
    [tick_index], the stored stamp [None] and the expected stamp.  In
    these three cases the rows after it are not read.  Otherwise the row
    is judged on its stamp alone, a missing [final_align] or [band] cell
    entering the payload as the text [None]: with the expected stamp
    verification goes on to the next row, with another it is reported as
    a mismatch.  Every row falls under one of these four cases. *)
Theorem malformed_row_outcome (pre post : list csv_row) (row : csv_row) :
  verify_file pre = AllChecksPassed (length pre) ->
  let prev := csv_stored_before pre (length pre) in
  (forall key, first_absent row = Some key ->
     verify_file (pre ++ row :: post) = Raised (KeyError key))
  /\ (first_absent row = None -> row !! "time_utc" = Some None ->
      verify_file (pre ++ row :: post) = Raised (AttributeError "encode"))
  /\ (first_absent row = None -> has_text row "time_utc" ->
      row !! "stamp" = Some None ->
      verify_file (pre ++ row :: post)
      = VerificationFailed (field "tick_index" row) "None" (csv_expected prev row))
  /\ (first_absent row = None -> has_text row "time_utc" ->
      has_text row "stamp" ->
      verify_file (pre ++ row :: post)
      = if String.eqb (csv_expected prev row) (field "stamp" row)
        then verify_file_loop (field "stamp" row) (S (length pre)) post
        else VerificationFailed (field "tick_index" row) (field "stamp" row)
                                (csv_expected prev row))
  /\ ((exists key, first_absent row = Some key)
      \/ (first_absent row = None
          /\ (row !! "time_utc" = Some None
              \/ (has_text row "time_utc"
                  /\ (row !! "stamp" = Some None \/ has_text row "stamp"))))).
Proof.
  intros Hp prev.
  assert (S : verify_file (pre ++ row :: post)
              = verify_file_loop prev (length pre) (row :: post)).
  { unfold verify_file. rewrite (verify_file_loop_app_passed _ _ _ _ _ Hp).
    reflexivity. }
  rewrite S. clear S.
  assert (A : forall key, In key columns_read ->
                first_absent row = None -> is_Some (row !! key)).
  { intros key Hin Hn. unfold first_absent in Hn.
    pose proof (find_none _ _ Hn key Hin) as F. cbn beta in F.
    apply bool_decide_eq_false in F.
    destruct (row !! key); [eauto | contradiction]. }
  assert (R : first_absent row = None -> has_text row "time_utc" ->
              has_text row "stamp" -> readable row).
  { intros Hn Ht Hs. unfold readable.
    split; [apply A; [cbn; tauto | exact Hn]|]. split; [exact Ht|].
    split; [apply A; [cbn; tauto | exact Hn]|].
    split; [apply A; [cbn; tauto | exact Hn] | exact Hs]. }
  assert (Old :
    (forall key, first_absent row = Some key ->
       verify_file_loop prev (length pre) (row :: post) = Raised (KeyError key))
    /\ (first_absent row = None -> row !! "time_utc" = Some None ->
        verify_file_loop prev (length pre) (row :: post)
        = Raised (AttributeError "encode"))
    /\ (first_absent row = None -> has_text row "time_utc" ->
        row !! "stamp" = Some None ->
        verify_file_loop prev (length pre) (row :: post)
        = VerificationFailed (field "tick_index" row) "None" (csv_expected prev row))).
  { clear A R.
    unfold first_absent, columns_read. cbn [List.find verify_file_loop].
    unfold csv_expected, expected_of. read_columns.
    unfold getitem, field, has_text.
    destruct (row !! "tick_index") as [ti|] eqn:E1;
      [rewrite bool_decide_eq_false_2 by discriminate|
       rewrite bool_decide_eq_true_2 by reflexivity].
    2:{ repeat split; intros; try discriminate. congruence. }
    destruct (row !! "time_utc") as [t|] eqn:E2;
      [rewrite bool_decide_eq_false_2 by discriminate|
       rewrite bool_decide_eq_true_2 by reflexivity].
    2:{ repeat split; intros; try discriminate. congruence. }
    destruct (row !! "final_align") as [a|] eqn:E3;
      [rewrite bool_decide_eq_false_2 by discriminate|
       rewrite bool_decide_eq_true_2 by reflexivity].
    2:{ repeat split; intros; try discriminate. congruence. }
    destruct (row !! "band") as [b|] eqn:E4;
      [rewrite bool_decide_eq_false_2 by discriminate|
       rewrite bool_decide_eq_true_2 by reflexivity].
    2:{ repeat split; intros; try discriminate. congruence. }
    destruct (row !! "stamp") as [s|] eqn:E5;
      [rewrite bool_decide_eq_false_2 by discriminate|
       rewrite bool_decide_eq_true_2 by reflexivity].
    2:{ repeat split; intros; try discriminate. congruence. }
    split; [intros key H; discriminate|]. split.
    - intros _ H. injection H as ->. reflexivity.
    - intros _ (t' & H) Hs. injection H as ->. injection Hs as ->. reflexivity. }
  destruct Old as (O1 & O2 & O3).
  split; [exact O1|]. split; [exact O2|]. split; [exact O3|]. split.
  - intros Hn Ht Hs. apply verify_file_loop_readable. now apply R.
  - destruct (first_absent row) as [key|] eqn:Hf; [left; eauto|].
    right. split; [reflexivity|].
    destruct (A "time_utc" ltac:(cbn; tauto) eq_refl) as [[t|] Ht];
      [|left; exact Ht].
    right. split; [exists t; exact Ht|].
    destruct (A "stamp" ltac:(cbn; tauto) eq_refl) as [[s|] Hs];
      [right; exists s; exact Hs | left; exact Hs].
Qed.

Lemma malformed_row_outcome_sample :
  verify_csv [CSV_HEADER; sample_line1] = AllChecksPassed 1
  /\ verify_csv [CSV_HEADER; sample_line1; short_line2; sample_line2]
     = VerificationFailed "2" "None"
         "ccc869f2b53f7ab4a588f183bb69c61aa07d124c23b25fb272ace4872d166e09"
  /\ verify_csv [header_without_band; short_line2] = Raised (KeyError "band").
Proof.
  assert (V : verify_file [dict_of_line CSV_HEADER sample_line1] = AllChecksPassed 1)
    by (vm_compute; reflexivity).
  split; [exact V|]. split.
  - destruct (malformed_row_outcome
                [dict_of_line CSV_HEADER sample_line1]
                [dict_of_line CSV_HEADER sample_line2]
                (dict_of_line CSV_HEADER short_line2) V) as (_ & _ & T & _).
    etransitivity; [apply T|].
    + vm_compute. reflexivity.
    + exists "2025-01-01T00:00:01Z". vm_compute. reflexivity.
    + vm_compute. reflexivity.
    + vm_compute. reflexivity.
  - destruct (malformed_row_outcome [] []
                (dict_of_line header_without_band short_line2) eq_refl)
      as (K & _).
    apply (K "band"). vm_compute. reflexivity.
Defined.

(** ** Clamping and the transform of the kernel *)


Lemma atanh_safe_tanh (y : R) : atanh_safe (tanh y) = y.
Proof.
  pose proof (tanh_exp y) as T. pose proof (tanh_bounds y) as B.
  pose proof (exp_pos y) as P.
  assert (E : 1 + tanh y = exp (y + y) * (1 - tanh y)) by (rewrite exp_plus; nra).
  unfold atanh_safe, log1p.
  replace (1 + - tanh y) with (1 - tanh y) by lra.
  rewrite E, ln_mult, ln_exp by (try apply exp_pos; lra). lra.
Qed.

(** X2. [atanh_safe] and [math.tanh] undo each other: on every real in
    one direction, on (-1, 1) in the other, hence on every clamped
    input; so the first tick from the zero state puts out the clamped
    source value itself. *)
Theorem atanh_safe_tanh_inverse (a : R) :
  atanh_safe (tanh a) = a
  /\ (-1 < a < 1 -> tanh (atanh_safe a) = a)
  /\ tanh (atanh_safe (clamp_a a)) = clamp_a a
  /\ kernel_step DECAY_W W_DEFAULT 0.0 0.0 a
     = (atanh_safe (clamp_a a), 1, clamp_a a).
Proof.
  assert (C : tanh (atanh_safe (clamp_a a)) = clamp_a a).
  { apply tanh_atanh_safe. pose proof (clamp_a_range a). unfold EPS_A in *. lra. }
  split; [apply atanh_safe_tanh|].
  split; [apply tanh_atanh_safe|].
  split; [exact C|].
  rewrite kernel_step_eq. unfold DECAY_W, W_DEFAULT, EPS_W.
  destruct (Rgt_dec (0.995 * 0.0 + 1.0) 1e-9) as [_|N]; [|exfalso; apply N; lra].
  replace (0.995 * 0.0 + 1.0 * atanh_safe (clamp_a a)) with (atanh_safe (clamp_a a)) by lra.
  replace (0.995 * 0.0 + 1.0) with 1 by lra.
  replace (atanh_safe (clamp_a a) / 1) with (atanh_safe (clamp_a a)) by lra.
  rewrite C. reflexivity.
Qed.

(** One step keeps the kernel below a level its inputs stay below. *)
Lemma kernel_step_upper (hi U W a_raw : R) :
  -1 < hi < 1 -> clamp_a a_raw <= hi -> 0 <= W -> U <= atanh_safe hi * W ->
  let '(U', W', a_out) := kernel_step DECAY_W W_DEFAULT U W a_raw in
  1 <= W' /\ U' <= atanh_safe hi * W' /\ a_out <= hi.
Proof.
  intros Hhi Ha HW HU. rewrite kernel_step_eq.
  unfold DECAY_W, W_DEFAULT, EPS_W.
  pose proof (clamp_a_range a_raw) as R. unfold EPS_A in R.
  assert (M : atanh_safe (clamp_a a_raw) <= atanh_safe hi)
    by (apply atanh_safe_le_mono; lra).
  set (u := atanh_safe (clamp_a a_raw)) in *. set (h := atanh_safe hi) in *.
  destruct (Rgt_dec (0.995 * W + 1.0) 1e-9) as [_|N]; [|exfalso; apply N; lra].
  assert (HU' : 0.995 * U + 1.0 * u <= h * (0.995 * W + 1.0)) by nra.
  split; [lra|]. split; [exact HU'|].
  rewrite <- (tanh_atanh_safe hi) by lra. fold h. apply tanh_le_mono.
  apply (Rmult_le_reg_r (0.995 * W + 1.0)); [lra|].
  replace ((0.995 * U + 1.0 * u) / (0.995 * W + 1.0) * (0.995 * W + 1.0))
    with (0.995 * U + 1.0 * u) by (field; lra).
  exact HU'.
Qed.

(** One step keeps the kernel above a level its inputs stay above. *)
Lemma kernel_step_lower (lo U W a_raw : R) :
  -1 < lo < 1 -> lo <= clamp_a a_raw -> 0 <= W -> atanh_safe lo * W <= U ->
  let '(U', W', a_out) := kernel_step DECAY_W W_DEFAULT U W a_raw in
  1 <= W' /\ atanh_safe lo * W' <= U' /\ lo <= a_out.
Proof.
  intros Hlo Ha HW HU. rewrite kernel_step_eq.
  unfold DECAY_W, W_DEFAULT, EPS_W.
  pose proof (clamp_a_range a_raw) as R. unfold EPS_A in R.
  assert (M : atanh_safe lo <= atanh_safe (clamp_a a_raw))
    by (apply atanh_safe_le_mono; lra).
  set (u := atanh_safe (clamp_a a_raw)) in *. set (l := atanh_safe lo) in *.
  destruct (Rgt_dec (0.995 * W + 1.0) 1e-9) as [_|N]; [|exfalso; apply N; lra].
  assert (HU' : l * (0.995 * W + 1.0) <= 0.995 * U + 1.0 * u) by nra.
  split; [lra|]. split; [exact HU'|].
  rewrite <- (tanh_atanh_safe lo) by lra. fold l. apply tanh_le_mono.
  apply (Rmult_le_reg_r (0.995 * W + 1.0)); [lra|].
  replace ((0.995 * U + 1.0 * u) / (0.995 * W + 1.0) * (0.995 * W + 1.0))
    with (0.995 * U + 1.0 * u) by (field; lra).
  exact HU'.
Qed.

(** X3. The kernel averages: when every clamped input of a run lies in
    [[lo, hi]], with [-1 < lo] and [hi < 1], and the run starts from a
    state in that range (the zero state is in every range), then every
    [a_out] of the run lies in [[lo, hi]]. *)
Theorem kernel_run_between (lo hi U W : R) (raws : list R) :
  -1 < lo -> lo <= hi -> hi < 1 ->
  Forall (fun a_raw => lo <= clamp_a a_raw <= hi) raws ->
  0 <= W -> atanh_safe lo * W <= U <= atanh_safe hi * W ->
  Forall (fun a_out => lo <= a_out <= hi)
         (snd (kernel_run DECAY_W W_DEFAULT U W raws)).
Proof.
  intros Hlo Hle Hhi HF. revert U W.
  induction HF as [|a_raw raws Ha HF IH]; intros U W HW HU; [constructor|].
  cbn [kernel_run].
  pose proof (kernel_step_upper hi U W a_raw ltac:(lra) ltac:(lra) HW ltac:(lra)) as Up.
  pose proof (kernel_step_lower lo U W a_raw ltac:(lra) ltac:(lra) HW ltac:(lra)) as Lo.
  destruct (kernel_step DECAY_W W_DEFAULT U W a_raw) as [[U' W'] a_out].
  destruct Up as (W1 & U1 & O1). destruct Lo as (_ & U2 & O2).
  specialize (IH U' W' ltac:(lra) ltac:(lra)).
  destruct (kernel_run DECAY_W W_DEFAULT U' W' raws) as [[Uf Wf] outs].
  cbn [snd] in *. constructor; [lra | exact IH].
Qed.

Lemma kernel_run_between_witness :
  Forall (fun a_out => 0 <= a_out <= 0.5)
         (snd (kernel_run DECAY_W W_DEFAULT 0 0 [0.02; 0.3; 0.5])).
Proof.
  apply (kernel_run_between 0 0.5 0 0 [0.02; 0.3; 0.5]); try lra.
  repeat constructor; unfold clamp_a, EPS_A; case_real_tests; lra.
Defined.

(** ** The alignment source and lateness *)

(** The jitter of a tick that comes at a positive [dt_ms] is above -1. *)
Lemma jitter_above (dt_ms tick_ms : R) :
  0 < dt_ms -> 0 < tick_ms -> -1 < (dt_ms - tick_ms) / py_max tick_ms 1.0.
Proof.
  intros Hd Ht. rewrite py_max_Rmax.
  pose proof (Rmax_l tick_ms 1.0) as L. pose proof (Rmax_r tick_ms 1.0) as R.
  set (m := Rmax tick_ms 1.0) in *.
  apply (Rmult_lt_reg_r m); [lra|].
  replace ((dt_ms - tick_ms) / m * m) with (dt_ms - tick_ms) by (field; lra).
  lra.
Qed.

Lemma source_a_raw_upper (now_epoch dt_ms tick_ms a_stress u : R) :
  u <= 1 -> source_a_raw now_epoch dt_ms tick_ms a_stress u < 0.18 + a_stress.
Proof.
  intros Hu. unfold source_a_raw, BASELINE_A, JITTER_GAIN, FREEZE_MULT,
    FREEZE_PENALTY, NOISE_AMPL.
  destruct (Rle_dec dt_ms 0.0) as [D|D]; [case_real_tests; lra|].
  destruct (Rle_dec tick_ms 0.0) as [T|T]; [case_real_tests; lra|].
  pose proof (jitter_above dt_ms tick_ms ltac:(lra) ltac:(lra)) as J.
  case_real_tests; lra.
Qed.

Lemma source_a_raw_cli_desktop (now_epoch dt_ms tick_ms u : R) :
  source_a_raw_cli now_epoch dt_ms tick_ms u
  = source_a_raw now_epoch dt_ms tick_ms 0 u.
Proof.
  unfold source_a_raw_cli, source_a_raw. case_real_tests; lra.
Qed.

(** X4. Lateness lowers the alignment source: for a positive cadence and
    two positive intervals [dt1 <= dt2], the value for [dt2] is at most
    the value for [dt1], whatever the clock reading; and no interval
    lifts the source to [0.18 + a_stress] when the noise draw is at
    most 1. *)
Theorem source_a_raw_late_ticks_lower
    (now1 now2 dt1 dt2 tick_ms a_stress u : R) :
  0 < tick_ms -> 0 < dt1 -> dt1 <= dt2 -> u <= 1 ->
  source_a_raw now2 dt2 tick_ms a_stress u <= source_a_raw now1 dt1 tick_ms a_stress u
  /\ source_a_raw now1 dt1 tick_ms a_stress u < 0.18 + a_stress.
Proof.
  intros Ht Hd Hle Hu. split; [|now apply source_a_raw_upper].
  unfold source_a_raw, BASELINE_A, JITTER_GAIN, FREEZE_MULT, FREEZE_PENALTY, NOISE_AMPL.
  destruct (Rle_dec dt2 0.0) as [D2|_]; [lra|].
  destruct (Rle_dec dt1 0.0) as [D1|_]; [lra|].
  destruct (Rle_dec tick_ms 0.0) as [T|_]; [lra|].
  destruct (Rgt_dec tick_ms 0.0) as [_|T]; [|lra].
  rewrite py_max_Rmax.
  pose proof (Rmax_r tick_ms 1.0) as M. set (m := Rmax tick_ms 1.0) in *.
  assert (J : (dt1 - tick_ms) / m <= (dt2 - tick_ms) / m).
  { apply (Rmult_le_reg_r m); [lra|].
    replace ((dt1 - tick_ms) / m * m) with (dt1 - tick_ms) by (field; lra).
    replace ((dt2 - tick_ms) / m * m) with (dt2 - tick_ms) by (field; lra).
    lra. }
  case_real_tests; lra.
Qed.

Lemma source_a_raw_late_ticks_lower_witness :
  source_a_raw 0 2000 1000 0 0 <= source_a_raw 0 1000 1000 0 0
  /\ source_a_raw 0 1000 1000 0 0 < 0.18 + 0.
Proof.
  apply (source_a_raw_late_ticks_lower 0 0 1000 2000 1000 0 0); lra.
Defined.

(** ** Invariants of a session *)

Section SessionInvariant.
(** [A] holds of every source value the session feeds to the kernel, and
    [P] is kept by a tick fed such a value; [P] does not depend on the
    tick counter or on the running flag. *)
Variable A : R -> Prop.
Variable P : Engine -> Prop.
Hypothesis P_flags : forall g i b,
  P g -> P (mkEngine (U g) (W g) (prev_stamp g) i b (rows g) (last_tick_epoch g)).
Hypothesis P_zero : P (mkEngine 0.0 0.0 "" 1 false [] None).
Hypothesis P_step : forall g now_epoch time_utc tick_ms dt_ms a_stress a_raw,
  P g -> A a_raw ->
  P (record_tick g now_epoch time_utc tick_ms dt_ms a_stress a_raw).

Lemma tick_invariant (e : TickEnv) (g : Engine) :
  desktop_source_ok A e -> P g -> P (tick e g).
Proof.
  intros He H. unfold tick.
  destruct (negb (running g)); [exact H|].
  destruct (AUTO_STOP_TICKS <? tick_index g)%Z; [now apply P_flags|].
  match goal with |- context [record_tick g ?n ?t ?m ?d ?s ?a] =>
    pose proof (P_step g n t m d s a H (He _ _ _)) as H';
    set (g' := record_tick g n t m d s a) in *
  end.
  now apply P_flags.
Qed.

Lemma on_start_invariant (e : TickEnv) (g : Engine) :
  desktop_source_ok A e -> P g -> P (on_start e g).
Proof.
  intros He H. unfold on_start. destruct (running g); [exact H|].
  apply tick_invariant; [exact He|].
  exact (P_flags _ 1%Z true P_zero).
Qed.

Lemma desktop_session_invariant (events : list ui_event) :
  Forall (desktop_source_ok A) (envs_of events) -> P (desktop_session events).
Proof.
  unfold desktop_session.
  assert (H : P desktop_initial) by exact P_zero.
  revert H. generalize desktop_initial.
  induction events as [|ev events IH]; intros g H HF; [exact H|].
  cbn [foldl]. destruct ev as [e|e|]; cbn [envs_of omap event_env] in HF.
  - apply Forall_cons in HF as [He HF]. apply IH; [|exact HF].
    cbn [ui_step]. now apply on_start_invariant.
  - apply Forall_cons in HF as [He HF]. apply IH; [|exact HF].
    cbn [ui_step]. now apply tick_invariant.
  - apply IH; [|exact HF]. cbn [ui_step]. now apply P_flags.
Qed.

Lemma cli_loop_invariant (tick_ms : R) (max_ticks : Z) (envs : list TickEnv)
    (g : Engine) :
  Forall (cli_source_ok A) envs -> P g -> P (cli_loop tick_ms max_ticks envs g).
Proof.
  intros HF. revert g. induction HF as [|e envs He HF IH]; intros g H; [exact H|].
  cbn [cli_loop].
  match goal with |- context [record_tick g ?n ?t ?m ?d ?s ?a] =>
    pose proof (P_step g n t m d s a H (He _ _ _)) as H';
    set (g' := record_tick g n t m d s a) in *
  end.
  destruct ((0 <? max_ticks)%Z && (max_ticks <=? tick_index g')%Z); [exact H'|].
  apply IH. now apply P_flags.
Qed.

Lemma run_clockke_cli_invariant (tick_sec : R) (max_ticks : Z) (envs : list TickEnv) :
  Forall (cli_source_ok A) envs -> P (run_clockke_cli tick_sec max_ticks envs).
Proof.
  intros HF. unfold run_clockke_cli. apply cli_loop_invariant; [exact HF|].
  exact P_zero.
Qed.

End SessionInvariant.

(** ** Bands a session can reach *)

Lemma clamp_a_below (a hi : R) : a < hi -> -1 + EPS_A <= hi -> clamp_a a <= hi.
Proof.
  intros H L. unfold clamp_a, EPS_A in *. case_real_tests; lra.
Qed.

Lemma classify_band_below_A (a_out : R) :
  a_out < 0.40 -> In (classify_band a_out) ["B"; "C"; "D"].
Proof.
  intros H. unfold classify_band. case_real_tests; cbn; try tauto; lra.
Qed.

(** A tick fed a source value under [hi] keeps the kernel under [hi] and
    records a band under A. *)
Lemma record_tick_below (hi : R) (g : Engine) (now_epoch : R) (time_utc : string)
    (tick_ms dt_ms a_stress a_raw : R) :
  -1 < hi < 0.40 -> clamp_a a_raw <= hi ->
  0 <= W g /\ U g <= atanh_safe hi * W g
    /\ Forall (fun r => In (row_band r) ["B"; "C"; "D"]) (rows g) ->
  let g' := record_tick g now_epoch time_utc tick_ms dt_ms a_stress a_raw in
  0 <= W g' /\ U g' <= atanh_safe hi * W g'
    /\ Forall (fun r => In (row_band r) ["B"; "C"; "D"]) (rows g').
Proof.
  intros Hhi Ha (HW & HU & HF). unfold record_tick.
  pose proof (kernel_step_upper hi (U g) (W g) a_raw ltac:(lra) Ha HW HU) as S.
  destruct (kernel_step DECAY_W W_DEFAULT (U g) (W g) a_raw) as [[U' W'] a_out].
  destruct S as (W1 & U1 & O1). cbn [U W rows].
  split; [lra|]. split; [exact U1|].
  apply Forall_app. split; [exact HF|].
  constructor; [|constructor]. cbn [row_band].
  apply classify_band_below_A. lra.
Qed.

(** X5. A desktop session never reaches the bands A and A+: when the
    stress offsets come from the slider range and the noise draws from
    [[-1, 1]], every recorded band is B, C or D. *)
Theorem desktop_session_bands_below_A (events : list ui_event) :
  Forall (fun e => stress_in_range e /\ noise_in_range e) (envs_of events) ->
  Forall (fun r => In (row_band r) ["B"; "C"; "D"]) (rows (desktop_session events)).
Proof.
  intros HF.
  apply (desktop_session_invariant (fun a_raw => clamp_a a_raw <= 0.23)
           (fun g => 0 <= W g /\ U g <= atanh_safe 0.23 * W g
                     /\ Forall (fun r => In (row_band r) ["B"; "C"; "D"]) (rows g))).
  - intros g i b H. exact H.
  - cbn [U W rows]. split; [lra|]. split; [lra|]. constructor.
  - intros g n t m d s a H Ha. apply record_tick_below; [lra | exact Ha | exact H].
  - eapply Forall_impl; [exact HF|]. intros e [[_ Hs] [_ Hn]] n d m.
    cbn beta. unfold STRESS_MAX in Hs.
    pose proof (source_a_raw_upper n d m (env_a_stress e) (env_noise_unit e) Hn).
    apply clamp_a_below; unfold EPS_A; lra.
Qed.

Lemma desktop_session_bands_below_A_witness :
  Forall (fun r => In (row_band r) ["B"; "C"; "D"])
    (rows (desktop_session
             [Start (mkTickEnv 1000 0 "2025-01-01T00:00:00Z" 0.05 1);
              Timer (mkTickEnv 1000 0.5 "2025-01-01T00:00:01Z" 0.05 1)])).
Proof.
  apply desktop_session_bands_below_A.
  cbn [envs_of omap event_env].
  repeat constructor; cbn; unfold STRESS_MIN, STRESS_MAX; lra.
Defined.

(** X6. A run of the command-line script never reaches the bands A and
    A+: when the noise draws are in [[-1, 1]], every recorded band is
    B, C or D, whatever the cadence and the timing of the ticks. *)
Theorem run_clockke_cli_bands_below_A (tick_sec : R) (max_ticks : Z)
    (envs : list TickEnv) :
  Forall noise_in_range envs ->
  Forall (fun r => In (row_band r) ["B"; "C"; "D"])
         (rows (run_clockke_cli tick_sec max_ticks envs)).
Proof.
  intros HF.
  apply (run_clockke_cli_invariant (fun a_raw => clamp_a a_raw <= 0.18)
           (fun g => 0 <= W g /\ U g <= atanh_safe 0.18 * W g
                     /\ Forall (fun r => In (row_band r) ["B"; "C"; "D"]) (rows g))).
  - intros g i b H. exact H.
  - cbn [U W rows]. split; [lra|]. split; [lra|]. constructor.
  - intros g n t m d s a H Ha. apply record_tick_below; [lra | exact Ha | exact H].
  - eapply Forall_impl; [exact HF|]. intros e [_ Hn] n d m.
    cbn beta. rewrite source_a_raw_cli_desktop.
    pose proof (source_a_raw_upper n d m 0 (env_noise_unit e) Hn).
    apply clamp_a_below; unfold EPS_A; lra.
Qed.

Lemma run_clockke_cli_bands_below_A_witness :
  Forall (fun r => In (row_band r) ["B"; "C"; "D"])
    (rows (run_clockke_cli 1 0
             [mkTickEnv 0 0 "2025-01-01T00:00:00Z" 0 1;
              mkTickEnv 0 0.2 "2025-01-01T00:00:01Z" 0 (-1)])).
Proof.
  apply run_clockke_cli_bands_below_A.
  repeat constructor; cbn; lra.
Defined.

(** ** The accumulated weight of a session *)

Lemma record_tick_weight (g : Engine) (now_epoch : R) (time_utc : string)
    (tick_ms dt_ms a_stress a_raw : R) :
  W g = 200 * (1 - 0.995 ^ length (rows g)) ->
  let g' := record_tick g now_epoch time_utc tick_ms dt_ms a_stress a_raw in
  W g' = 200 * (1 - 0.995 ^ length (rows g')).
Proof.
  intros H. unfold record_tick. rewrite kernel_step_eq. cbn [W rows].
  rewrite length_app, Nat.add_comm. cbn [length Nat.add pow].
  rewrite H. unfold DECAY_W, W_DEFAULT. lra.
Qed.

(** X7. The accumulated weight depends on the number of recorded rows
    alone: after [n] rows of a desktop session or of a command-line run,
    [W = 200 * (1 - 0.995 ^ n)] over the reals. *)
Theorem session_weight_closed_form :
  (forall events : list ui_event,
     let g := desktop_session events in
     W g = 200 * (1 - 0.995 ^ length (rows g)))
  /\ (forall (tick_sec : R) (max_ticks : Z) (envs : list TickEnv),
        let g := run_clockke_cli tick_sec max_ticks envs in
        W g = 200 * (1 - 0.995 ^ length (rows g))).
Proof.
  split.
  - intros events.
    apply (desktop_session_invariant (fun _ => True)
             (fun g => W g = 200 * (1 - 0.995 ^ length (rows g)))).
    + intros g i b H. exact H.
    + cbn [W rows length pow]. lra.
    + intros g n t m d s a H _. now apply record_tick_weight.
    + apply Forall_forall. intros e _ n d m. exact I.
  - intros tick_sec max_ticks envs.
    apply (run_clockke_cli_invariant (fun _ => True)
             (fun g => W g = 200 * (1 - 0.995 ^ length (rows g)))).
    + intros g i b H. exact H.
    + cbn [W rows length pow]. lra.
    + intros g n t m d s a H _. now apply record_tick_weight.
    + apply Forall_forall. intros e _ n d m. exact I.
Qed.

(** ** The rows a session records *)


(** ** Tick numbers *)

(** A tick appends one row, numbered by the tick counter. *)
Lemma record_tick_numbered (g : Engine) (now_epoch : R) (time_utc : string)
    (tick_ms dt_ms a_stress a_raw : R) :
  tick_index g = (Z.of_nat (length (rows g)) + 1)%Z ->
  map row_tick_idx (rows g) = map Z.of_nat (seq 1 (length (rows g))) ->
  let g' := record_tick g now_epoch time_utc tick_ms dt_ms a_stress a_raw in
  tick_index g' = tick_index g
  /\ length (rows g') = S (length (rows g))
  /\ map row_tick_idx (rows g') = map Z.of_nat (seq 1 (length (rows g')))
  /\ exists r, rows g' = (rows g ++ [r])%list
       /\ row_time_utc r = time_utc /\ row_tick_ms r = tick_ms
       /\ row_dt_ms r = dt_ms /\ row_a_stress r = a_stress.
Proof.
  intros Hi Hm. unfold record_tick.
  destruct (kernel_step DECAY_W W_DEFAULT (U g) (W g) a_raw) as [[U' W'] a_out].
  cbn [tick_index rows prev_stamp].
  split; [reflexivity|].
  split; [rewrite length_app; cbn [length]; lia|].
  split.
  - rewrite length_app, Nat.add_comm. cbn [length Nat.add].
    rewrite seq_S, !map_app, Hm. cbn [map row_tick_idx]. do 2 f_equal. lia.
  - eexists. split; [reflexivity|]. cbn. repeat split.
Qed.

Lemma tick_numbered (e : TickEnv) (g : Engine) :
  tick_index g = (Z.of_nat (length (rows g)) + 1)%Z
  /\ map row_tick_idx (rows g) = map Z.of_nat (seq 1 (length (rows g)))
  /\ (Z.of_nat (length (rows g)) <= AUTO_STOP_TICKS)%Z ->
  tick_index (tick e g) = (Z.of_nat (length (rows (tick e g))) + 1)%Z
  /\ map row_tick_idx (rows (tick e g))
     = map Z.of_nat (seq 1 (length (rows (tick e g))))
  /\ (Z.of_nat (length (rows (tick e g))) <= AUTO_STOP_TICKS)%Z.
Proof.
  intros (Hi & Hm & Hn). unfold tick.
  destruct (negb (running g)); [auto|].
  destruct (AUTO_STOP_TICKS <? tick_index g)%Z eqn:E; [auto|].
  apply Z.ltb_ge in E.
  match goal with |- context [record_tick g ?n ?t ?m ?d ?s ?a] =>
    destruct (record_tick_numbered g n t m d s a Hi Hm) as (Ti & Tl & Tm & _);
    set (g' := record_tick g n t m d s a) in *
  end.
  cbn [tick_index rows]. rewrite Tl in *. split; [lia|]. split; [exact Tm|]. lia.
Qed.

(** X9. The rows of a desktop session are numbered 1, 2, 3, ... without
    gaps, the tick counter is one more than their number, and there are
    at most [AUTO_STOP_TICKS] of them: with that many rows the next call
    of [tick] records nothing and leaves the session stopped. *)
Theorem desktop_session_tick_numbers (events : list ui_event) :
  let g := desktop_session events in
  let n := length (rows g) in
  map row_tick_idx (rows g) = map Z.of_nat (seq 1 n)
  /\ tick_index g = (Z.of_nat n + 1)%Z
  /\ (Z.of_nat n <= AUTO_STOP_TICKS)%Z
  /\ (Z.of_nat n = AUTO_STOP_TICKS ->
      forall e, rows (tick e g) = rows g /\ running (tick e g) = false).
Proof.
  cbv zeta.
  assert (H : tick_index (desktop_session events)
              = (Z.of_nat (length (rows (desktop_session events))) + 1)%Z
              /\ map row_tick_idx (rows (desktop_session events))
                 = map Z.of_nat (seq 1 (length (rows (desktop_session events))))
              /\ (Z.of_nat (length (rows (desktop_session events)))
                  <= AUTO_STOP_TICKS)%Z).
  { unfold desktop_session.
    assert (H : tick_index desktop_initial
                = (Z.of_nat (length (rows desktop_initial)) + 1)%Z
                /\ map row_tick_idx (rows desktop_initial)
                   = map Z.of_nat (seq 1 (length (rows desktop_initial)))
                /\ (Z.of_nat (length (rows desktop_initial)) <= AUTO_STOP_TICKS)%Z)
      by (cbn; unfold AUTO_STOP_TICKS; repeat split; lia).
    revert H. generalize desktop_initial.
    induction events as [|ev events IH]; intros g H; [exact H|].
    cbn [foldl]. apply IH. destruct ev as [e|e|]; cbn [ui_step].
    - unfold on_start. destruct (running g); [exact H|].
      apply tick_numbered. cbn. unfold AUTO_STOP_TICKS. repeat split; lia.
    - now apply tick_numbered.
    - exact H. }
  destruct H as (Hi & Hm & Hn).
  split; [exact Hm|]. split; [exact Hi|]. split; [exact Hn|].
  intros E e. unfold tick.
  destruct (running (desktop_session events)) eqn:R; cbn [negb].
  - assert (L : (AUTO_STOP_TICKS <? tick_index (desktop_session events))%Z = true)
      by (apply Z.ltb_lt; lia).
    rewrite L. cbn [rows running]. split; reflexivity.
  - split; [reflexivity | exact R].
Qed.

(** ** The console history *)

Lemma cli_loop_history_state (tick_ms : R) (max_ticks : Z) (envs : list TickEnv)
    (g : Engine) (history : list R) :
  fst (cli_loop_history tick_ms max_ticks envs g history)
  = cli_loop tick_ms max_ticks envs g.
Proof.
  revert g history. induction envs as [|e envs IH]; intros g history; [reflexivity|].
  cbn [cli_loop_history cli_loop].
  destruct (kernel_step _ _ _ _ _) as [[U' W'] a_out].
  match goal with |- context [record_tick g ?n ?t ?m ?d ?s ?a] =>
    set (g' := record_tick g n t m d s a) in *
  end.
  destruct ((0 <? max_ticks)%Z && (max_ticks <=? tick_index g')%Z); [reflexivity|].
  apply IH.
Qed.

(** Appending to a window of the last [HISTORY_LEN] values gives the
    window of the longer sequence. *)
Lemma push_history_window {B : Type} (f : R -> B) (history : list R) (a : R)
    (shown : list B) :
  length history = Nat.min HISTORY_LEN (length shown) ->
  map f history = drop (length shown - HISTORY_LEN) shown ->
  length (push_history history a) = Nat.min HISTORY_LEN (S (length shown))
  /\ map f (push_history history a)
     = drop (S (length shown) - HISTORY_LEN) (shown ++ [f a])%list.
Proof.
  unfold push_history, HISTORY_LEN. intros Hl Hm.
  rewrite length_app. cbn [length].
  destruct (24 <? length history + 1)%nat eqn:E.
  - apply Nat.ltb_lt in E.
    destruct history as [|x history]; [cbn in E; lia|].
    cbn [length] in *. cbn [app tail map] in *.
    split; [rewrite length_app; cbn [length]; lia|].
    replace (S (length shown) - 24)%nat with ((length shown - 24) + 1)%nat by lia.
    rewrite <- drop_drop, drop_app_le by lia.
    rewrite <- Hm, map_app. reflexivity.
  - apply Nat.ltb_ge in E.
    split; [rewrite length_app; cbn [length]; lia|].
    replace (S (length shown) - 24)%nat with 0%nat by lia.
    replace (length shown - 24)%nat with 0%nat in Hm by lia.
    rewrite drop_0 in *. rewrite map_app, Hm. reflexivity.
Qed.

Lemma spark_char_single (a : R) : exists c, spark_char a = String c "".
Proof.
  unfold spark_char. case_real_tests; eexists; reflexivity.
Qed.

Lemma concat_single (c : ascii) (l : list string) :
  String.concat "" (String c "" :: l) = String c (String.concat "" l).
Proof.
  destruct l as [|x l]; [reflexivity|].
  cbn [String.concat]. rewrite string_app_cons, !string_app_nil. reflexivity.
Qed.

Lemma sparkline_length (history : list R) :
  String.length (sparkline history) = length history.
Proof.
  unfold sparkline. induction history as [|a history IH]; [reflexivity|].
  cbn [map]. destruct (spark_char_single a) as [c ->].
  rewrite concat_single. cbn [String.length length]. now rewrite IH.
Qed.

Lemma cli_loop_history_window (tick_ms : R) (max_ticks : Z) (envs : list TickEnv)
    (g : Engine) (history : list R) :
  let f := fun a => (format_align a, classify_band a) in
  let shown := fun r => (row_final_align_str r, row_band r) in
  length history = Nat.min HISTORY_LEN (length (rows g)) ->
  map f history = drop (length (rows g) - HISTORY_LEN) (map shown (rows g)) ->
  let g' := fst (cli_loop_history tick_ms max_ticks envs g history) in
  let history' := snd (cli_loop_history tick_ms max_ticks envs g history) in
  length history' = Nat.min HISTORY_LEN (length (rows g'))
  /\ map f history' = drop (length (rows g') - HISTORY_LEN) (map shown (rows g')).
Proof.
  intros f shown. revert g history.
  induction envs as [|e envs IH]; intros g history Hl Hm; cbv zeta.
  { cbn [cli_loop_history fst snd]. split; assumption. }
  cbn [cli_loop_history]. unfold record_tick.
  destruct (kernel_step _ _ _ _ _) as [[U' W'] a_out].
  cbn [U W prev_stamp tick_index running rows last_tick_epoch].
  match goal with |- context [(rows g ++ [?r])%list] => set (row := r) end.
  destruct (push_history_window f history a_out (map shown (rows g))) as [Pl Pm].
  { now rewrite length_map. }
  { now rewrite length_map. }
  rewrite length_map in Pl, Pm.
  assert (Hl' : length (push_history history a_out)
                = Nat.min HISTORY_LEN (length (rows g ++ [row])%list))
    by (rewrite length_app, Nat.add_comm; exact Pl).
  assert (Hm' : map f (push_history history a_out)
                = drop (length (rows g ++ [row])%list - HISTORY_LEN)
                       (map shown (rows g ++ [row])%list))
    by (rewrite length_app, Nat.add_comm, map_app; exact Pm).
  destruct ((0 <? max_ticks)%Z && (max_ticks <=? tick_index g)%Z).
  - cbn [fst snd rows]. split; assumption.
  - specialize (IH (mkEngine U' W' (row_stamp row) (tick_index g + 1) (running g)
                             (rows g ++ [row])%list (Some (env_now_epoch e)))
                   (push_history history a_out) Hl' Hm').
    exact IH.
Qed.

(** X11. The console history of the command-line loop is a window on the
    recorded rows: the loop with its history reaches the state of the
    loop without it, and after any run the history holds the values of
    the last [HISTORY_LEN] rows (of all rows when there are fewer), in
    order, each formatted and classified as in its row; the sparkline has
    one character for each. *)
Theorem cli_history_shows_last_rows (tick_sec : R) (max_ticks : Z)
    (envs : list TickEnv) :
  let run := cli_loop_history (tick_sec * 1000.0) max_ticks envs
               (mkEngine 0.0 0.0 "" 1 false [] None) [] in
  let g := fst run in
  let history := snd run in
  g = run_clockke_cli tick_sec max_ticks envs
  /\ length history = Nat.min HISTORY_LEN (length (rows g))
  /\ map (fun a => (format_align a, classify_band a)) history
     = map (fun r => (row_final_align_str r, row_band r))
           (drop (length (rows g) - HISTORY_LEN) (rows g))
  /\ String.length (sparkline history) = length history.
Proof.
  cbv zeta.
  split; [apply cli_loop_history_state|].
  destruct (cli_loop_history_window (tick_sec * 1000.0) max_ticks envs
              (mkEngine 0.0 0.0 "" 1 false [] None) []) as [Hl Hm];
    [reflexivity | reflexivity |].
  split; [exact Hl|]. split; [|apply sparkline_length].
  rewrite Hm. apply skipn_map.
Qed.

(** X12. The sparkline symbol and the band read the same value with
    different cuts: the five symbols partition the line at -0.40, -0.10,
    0.10 and 0.40; band D is shown as [v] or [/] and only band D is;
    band C is always shown as [_]; and the symbol and the band disagree
    about the boundary values 0.10 and 0.40, which are shown as [_] and
    [-] while their bands are B and A. *)
Theorem spark_char_and_band (a : R) :
  (spark_char a = "v" <-> a <= -0.40)
  /\ (spark_char a = "/" <-> -0.40 < a < -0.10)
  /\ (spark_char a = "_" <-> -0.10 <= a <= 0.10)
  /\ (spark_char a = "-" <-> 0.10 < a <= 0.40)
  /\ (spark_char a = "^" <-> 0.40 < a)
  /\ (classify_band a = "D" <-> spark_char a = "v" \/ spark_char a = "/")
  /\ (classify_band a = "C" -> spark_char a = "_")
  /\ (spark_char a = "_" -> classify_band a = "C" \/ a = 0.10 /\ classify_band a = "B")
  /\ (spark_char a = "-" -> classify_band a = "B" \/ a = 0.40 /\ classify_band a = "A")
  /\ (spark_char a = "^" -> classify_band a = "A" \/ classify_band a = "A+").
Proof.
  unfold spark_char, classify_band.
  repeat match goal with |- _ /\ _ => split end;
    case_real_tests;
    try (split; intros H; try discriminate H; try reflexivity; try lra;
         try (destruct H as [H|H]; discriminate H);
         try (left; reflexivity); try (right; reflexivity));
    try (intros H; try discriminate H; try reflexivity; try lra;
         try (left; reflexivity);
         try (right; split; [lra | reflexivity]);
         try (right; reflexivity)).
Qed.

(** ** The displays of the desktop script *)

Lemma ratio_lt (x t c : R) : 0 < t -> (x / t < c <-> x < c * t).
Proof.
  intros Ht. split; intros H.
  - apply (Rmult_lt_reg_r (/ t)); [now apply Rinv_0_lt_compat|].
    replace (c * t * / t) with c by (field; lra). exact H.
  - apply (Rmult_lt_reg_r t); [exact Ht|].
    replace (x / t * t) with x by (field; lra). exact H.
Qed.

(** X13. The colour of the interval label: black without a positive
    cadence; otherwise green, orange or red as the interval is off the
    cadence by less than 10%, less than 50%, or more.  Whenever the
    alignment source applies its freeze penalty the label is red. *)
Theorem dt_color_thresholds (dt_ms tick_ms : R) :
  (tick_ms <= 0 -> dt_color dt_ms tick_ms = "#000000")
  /\ (0 < tick_ms ->
      (dt_color dt_ms tick_ms = "#008000" <-> Rabs (dt_ms - tick_ms) < 0.10 * tick_ms)
      /\ (dt_color dt_ms tick_ms = "#FF7F00"
          <-> 0.10 * tick_ms <= Rabs (dt_ms - tick_ms) < 0.50 * tick_ms)
      /\ (dt_color dt_ms tick_ms = "#CC0000"
          <-> 0.50 * tick_ms <= Rabs (dt_ms - tick_ms))
      /\ (dt_ms > FREEZE_MULT * tick_ms -> dt_color dt_ms tick_ms = "#CC0000")).
Proof.
  unfold dt_color. split.
  - intros H. destruct (Rle_dec tick_ms 0) as [_|N]; [reflexivity | lra].
  - intros Ht. destruct (Rle_dec tick_ms 0) as [N|_]; [lra|].
    pose proof (ratio_lt (Rabs (dt_ms - tick_ms)) tick_ms 0.10 Ht) as R1.
    pose proof (ratio_lt (Rabs (dt_ms - tick_ms)) tick_ms 0.50 Ht) as R2.
    cbv zeta.
    destruct (Rlt_dec (Rabs (dt_ms - tick_ms) / tick_ms) 0.10) as [L1|L1];
      [|destruct (Rlt_dec (Rabs (dt_ms - tick_ms) / tick_ms) 0.50) as [L2|L2]].
    + apply R1 in L1.
      split; [split; [intros _; exact L1 | reflexivity]|].
      split; [split; [discriminate | lra]|].
      split; [split; [discriminate | lra]|].
      unfold FREEZE_MULT. intros F. rewrite Rabs_right in L1 by lra. lra.
    + assert (~ Rabs (dt_ms - tick_ms) < 0.10 * tick_ms) by tauto.
      apply R2 in L2.
      split; [split; [discriminate | lra]|].
      split; [split; [intros _; lra | reflexivity]|].
      split; [split; [discriminate | lra]|].
      unfold FREEZE_MULT. intros F. rewrite Rabs_right in L2 by lra. lra.
    + assert (~ Rabs (dt_ms - tick_ms) < 0.10 * tick_ms) by tauto.
      assert (~ Rabs (dt_ms - tick_ms) < 0.50 * tick_ms) by tauto.
      split; [split; [discriminate | lra]|].
      split; [split; [discriminate | lra]|].
      split; [split; [intros _; lra | reflexivity]|].
      reflexivity.
Qed.

Lemma py_int_bounds (x : R) (K : Z) :
  (0 <= K)%Z -> - IZR K <= x <= IZR K ->
  (- K <= py_int x <= K)%Z
  /\ (0 <= x -> (0 <= py_int x)%Z /\ IZR (py_int x) <= x)
  /\ (x <= 0 -> (py_int x <= 0)%Z /\ x <= IZR (py_int x))
  /\ (py_int x = 0%Z -> Rabs x < 1).
Proof.
  intros HK [Hl Hu]. unfold py_int, Zceil.
  pose proof (Zfloor_bound x) as Fx. pose proof (Zfloor_bound (- x)) as Fn.
  destruct (Rle_dec 0 x) as [P|N].
  - assert (0 <= Zfloor x)%Z by (apply (Zfloor_lub 0); exact P).
    assert (Zfloor x <= K)%Z by (apply le_IZR; lra).
    split; [lia|]. split; [intros _; split; [assumption | lra]|].
    split.
    + intros Hx. assert (x = 0) as -> by lra.
      change 0 with (IZR 0). rewrite ZfloorZ. split; [lia | cbn; lra].
    + intros E. rewrite E in Fx. rewrite Rabs_right by lra. lra.
  - assert (0 <= Zfloor (- x))%Z by (apply (Zfloor_lub 0); lra).
    assert (Zfloor (- x) <= K)%Z by (apply le_IZR; lra).
    split; [lia|]. split; [intros Hx; lra|].
    split.
    + intros _. split; [lia|]. rewrite opp_IZR. lra.
    + intros E. assert (E' : Zfloor (- x) = 0%Z) by lia.
      rewrite E' in Fn. rewrite Rabs_left by lra. lra.
Qed.

Lemma band_color_of_band (a_out : R) :
  band_color (classify_band a_out)
  = if Rge_dec a_out 0.40 then "#008000"
    else if Rge_dec a_out 0.10 then "#CCCC00"
    else if Rge_dec a_out (-0.10) then "#FF7F00"
    else "#CC0000".
Proof.
  unfold classify_band. case_real_tests; try reflexivity; lra.
Qed.

(** X14. The stability bar stays on its canvas: whatever the value, a
    drawn rectangle lies between x = 4 and x = 216 and between y = 3 and
    y = 15, starts at the centre x = 110, extends to the right for a
    positive value and to the left for a negative one, is no longer than
    106 times the magnitude, and has the colour the colour map gives the
    band; nothing is drawn exactly when the truncated length is zero,
    which needs a magnitude under 1/106.  For the band of the value
    itself that colour is never the black default. *)
Theorem draw_stability_bar_geometry (a_out : R) (band : string) :
  match draw_stability_bar a_out band with
  | None => Rabs a_out * 106 < 1
  | Some (x0, y0, x1, y1, color) =>
      (4 <= x0 < x1)%Z /\ (x1 <= 216)%Z /\ y0 = 3%Z /\ y1 = 15%Z
      /\ (0 <= a_out -> x0 = 110%Z) /\ (a_out <= 0 -> x1 = 110%Z)
      /\ a_out <> 0
      /\ IZR (x1 - x0) <= Rabs a_out * 106
      /\ color = band_color band
  end
  /\ band_color (classify_band a_out) <> "#000000".
Proof.
  split.
  2:{ rewrite band_color_of_band. case_real_tests; discriminate. }
  unfold draw_stability_bar.
  change (canvas_width / 2)%Z with 110%Z.
  change (110 - 4)%Z with 106%Z. change (canvas_height - 3)%Z with 15%Z.
  set (a_vis := py_max (-1.0) (py_min 1.0 a_out)).
  assert (V : -1 <= a_vis <= 1
              /\ (0 <= a_out -> 0 <= a_vis) /\ (a_out <= 0 -> a_vis <= 0)
              /\ Rabs a_vis <= Rabs a_out
              /\ (Rabs a_vis < 1 -> a_vis = a_out)).
  { unfold a_vis, py_max, py_min.
    split; [case_real_tests; lra|].
    split; [intros; case_real_tests; lra|].
    split; [intros; case_real_tests; lra|].
    split; unfold Rabs; intros; repeat destruct (Rcase_abs _); case_real_tests; lra. }
  destruct V as (Vr & Vp & Vn & Va & Ve).
  destruct (py_int_bounds (a_vis * 106) 106 ltac:(lia) ltac:(lra))
    as (Lb & Lp & Ln & Lz).
  set (len := py_int (a_vis * 106)) in *.
  destruct (len =? 0)%Z eqn:E0.
  - apply Z.eqb_eq in E0. specialize (Lz E0).
    assert (Rabs a_vis * 106 < 1).
    { revert Lz. unfold Rabs. repeat destruct (Rcase_abs _); lra. }
    rewrite <- (Ve ltac:(lra)). assumption.
  - apply Z.eqb_neq in E0.
    assert (Hne : a_out <> 0).
    { intros ->. destruct (Lp ltac:(specialize (Vp ltac:(lra)); lra)) as [? ?].
      destruct (Ln ltac:(specialize (Vn ltac:(lra)); lra)) as [? ?]. lia. }
    destruct (0 <? len)%Z eqn:E1.
    + apply Z.ltb_lt in E1.
      split; [lia|]. split; [lia|]. split; [reflexivity|]. split; [reflexivity|].
      split; [reflexivity|].
      split.
      { intros Ha. exfalso. destruct (Ln ltac:(specialize (Vn Ha); lra)). lia. }
      split; [exact Hne|]. split; [|reflexivity].
      replace (110 + len - 110)%Z with len by lia.
      assert (0 <= a_vis * 106).
      { destruct (Rle_dec 0 (a_vis * 106)) as [P|N]; [exact P|].
        destruct (Ln ltac:(lra)). lia. }
      destruct (Lp ltac:(lra)) as [_ Hle].
      rewrite (Rabs_right a_vis) in Va by lra. lra.
    + apply Z.ltb_ge in E1.
      split; [lia|]. split; [lia|]. split; [reflexivity|]. split; [reflexivity|].
      split.
      { intros Ha. exfalso. destruct (Lp ltac:(specialize (Vp Ha); lra)). lia. }
      split; [reflexivity|].
      split; [exact Hne|]. split; [|reflexivity].
      replace (110 - (110 + len))%Z with (- len)%Z by lia. rewrite opp_IZR.
      assert (a_vis * 106 <= 0).
      { destruct (Rle_dec (a_vis * 106) 0) as [P|N]; [exact P|].
        destruct (Lp ltac:(lra)). lia. }
      destruct (Ln ltac:(lra)) as [_ Hle].
      rewrite (Rabs_left1 a_vis) in Va by lra. lra.
Qed.

(** ** Reading back what was exported *)

(** Under the exported header, a line gives each column the cell at its
    position, or [None] when the line is too short. *)
Lemma dict_of_line_header (cells : list string) :
  let d := dict_of_line CSV_HEADER cells in
  d !! "tick_index" = Some (cells !! 0%nat)
  /\ d !! "time_utc" = Some (cells !! 1%nat)
  /\ d !! "final_align" = Some (cells !! 2%nat)
  /\ d !! "band" = Some (cells !! 3%nat)
  /\ d !! "stamp" = Some (cells !! 4%nat).
Proof.
  destruct cells as [|c0 [|c1 [|c2 [|c3 [|c4 [|c5 [|c6 [|c7 rest]]]]]]]];
    cbv zeta; unfold dict_of_line;
    try (rewrite (drop_ge CSV_HEADER) by (cbn [length CSV_HEADER]; lia));
    repeat split; reflexivity.
Qed.

Section SameRead.
Context {A B : Type} {stamped_A : Stamped A} {stamped_B : Stamped B}.

(** Replaying two chains that read the same gives the same outcome. *)
Lemma first_mismatch_same_read (prev : string) (l : list A) (l' : list B) :
  Forall2 same_read l l' ->
  match first_mismatch prev l, first_mismatch prev l' with
  | None, None => True
  | Some (k, x, e), Some (k', y, e') => k' = k /\ e' = e /\ same_read x y
  | _, _ => False
  end.
Proof.
  intros H. revert prev. induction H as [|x y l l' Hxy _ IH]; intros prev.
  { exact I. }
  cbn [first_mismatch]. unfold expected_of.
  pose proof Hxy as (Ht & Ha & Hb & Hs). rewrite Ht, Ha, Hb, Hs.
  destruct (String.eqb _ (stamp_of x)).
  - specialize (IH (stamp_of x)).
    destruct (first_mismatch (stamp_of x) l) as [[[k x'] e]|],
             (first_mismatch (stamp_of x) l') as [[[k' y'] e']|];
      try exact IH.
    destruct IH as (-> & -> & S). repeat split; apply S.
  - split; [reflexivity|]. split; [reflexivity | exact Hxy].
Qed.

End SameRead.

Lemma filter_nonempty_lines {X : Type} (f : X -> list string) (l : list X) :
  (forall x, f x <> []) ->
  filter (fun cells : list string => cells <> []) (map f l) = map f l.
Proof.
  intros H. induction l as [|x l IH]; [reflexivity|].
  cbn [map]. rewrite filter_cons_True by apply H. now rewrite IH.
Qed.

Section ExportFacts.
Variable cadence_str : R -> string.
Variable float_str : R -> string.

Lemma exported_row_readable (r : Row) :
  let d := dict_of_line CSV_HEADER (export_line cadence_str float_str r) in
  readable d /\ same_read r d /\ field "tick_index" d = pretty (row_tick_idx r).
Proof.
  cbv zeta.
  destruct (dict_of_line_header (export_line cadence_str float_str r))
    as (H0 & H1 & H2 & H3 & H4).
  cbn [export_line lookup list_lookup] in H0, H1, H2, H3, H4.
  split.
  { unfold readable, has_text. rewrite H0, H1, H2, H3, H4. eauto 10. }
  split.
  { unfold same_read. read_columns. unfold field.
    rewrite H1, H2, H3, H4. repeat split. }
  unfold field. now rewrite H0.
Qed.

(** Verifying the exported file replays the rows in memory. *)
Lemma verify_csv_exported (rs : list Row) :
  verify_csv (CSV_HEADER :: map (export_line cadence_str float_str) rs)
  = match first_mismatch "" rs with
    | Some (_, r, e) => VerificationFailed (pretty (row_tick_idx r)) (row_stamp r) e
    | None => AllChecksPassed (length rs)
    end.
Proof.
  unfold verify_csv, DictReader.
  rewrite filter_nonempty_lines by (intros r; discriminate).
  rewrite <- list_fmap_compose.
  set (f := dict_of_line CSV_HEADER ∘ export_line cadence_str float_str).
  assert (HR : Forall readable (f <$> rs)).
  { apply Forall_fmap, Forall_forall. intros r _. apply exported_row_readable. }
  assert (HS : Forall2 same_read rs (f <$> rs)).
  { apply Forall2_fmap_r, Forall_Forall2_diag, Forall_forall.
    intros r _. apply exported_row_readable. }
  unfold verify_file. rewrite verify_file_loop_first_mismatch by exact HR.
  pose proof (first_mismatch_same_read "" rs (f <$> rs) HS) as M.
  destruct (first_mismatch "" rs) as [[[k r] e]|] eqn:E1,
           (first_mismatch "" (f <$> rs)) as [[[k' d] e']|] eqn:E2;
    try contradiction.
  - destruct M as (-> & -> & S).
    apply first_mismatch_Some in E1 as (Hr & _). apply first_mismatch_Some in E2 as (Hd & _).
    rewrite list_lookup_fmap, Hr in Hd. injection Hd as <-.
    destruct (exported_row_readable r) as (_ & (_ & _ & _ & Hs) & Hi).
    read_columns. fold f in Hs, Hi. unfold f at 1 2. cbn [compose].
    now rewrite Hi, Hs.
  - rewrite length_fmap. reflexivity.
Qed.

End ExportFacts.

(** X15. What a session records, it verifies: after any desktop session
    and any command-line run the in-memory check reports success with
    the number of rows, and the verifier script, reading back the file
    the export writes, reports success with the same number. *)
Theorem session_rows_verify (cadence_str float_str : R -> string) :
  (forall (events : list ui_event) (table : csv_table),
     let g := desktop_session events in
     fst (verify_rows g) = (true, Z.of_nat (length (rows g)), "", "")
     /\ (on_export cadence_str float_str g = Some table ->
         verify_csv table = AllChecksPassed (length (rows g))))
  /\ (forall (tick_sec : R) (max_ticks : Z) (envs : list TickEnv) (table : csv_table),
        let g := run_clockke_cli tick_sec max_ticks envs in
        fst (verify_rows g) = (true, Z.of_nat (length (rows g)), "", "")
        /\ (on_export cadence_str float_str g = Some table ->
            verify_csv table = AllChecksPassed (length (rows g)))).
Proof.
  assert (K : forall g table, chained g ->
            fst (verify_rows g) = (true, Z.of_nat (length (rows g)), "", "")
            /\ (on_export cadence_str float_str g = Some table ->
                verify_csv table = AllChecksPassed (length (rows g)))).
  { intros g table Hc. split; [now apply chained_rows_verify|].
    unfold on_export. destruct (rows g) as [|r rs] eqn:E; [discriminate|].
    intros [= <-].
    etransitivity; [exact (verify_csv_exported cadence_str float_str (r :: rs))|].
    destruct Hc as [Hc _]. rewrite E in Hc.
    now rewrite (chain_stamps_no_mismatch "" (r :: rs) Hc). }
  split.
  - intros events table. apply K, desktop_session_chained.
  - intros tick_sec max_ticks envs table. apply K, run_clockke_cli_chained.
Qed.

(** X16. The two verifiers agree on any rows, tampered or not: reading
    back the export of a state, the verifier script passes with the same
    count when the in-memory check passes, and otherwise fails with the
    same tick number, stored stamp and expected stamp. *)
Theorem export_then_verify_agrees (cadence_str float_str : R -> string)
    (g : Engine) (table : csv_table) :
  on_export cadence_str float_str g = Some table ->
  verify_csv table
  = match fst (verify_rows g) with
    | (true, count, _, _) => AllChecksPassed (Z.to_nat count)
    | (false, tick_idx, stored, expected) =>
        VerificationFailed (pretty tick_idx) stored expected
    end.
Proof.
  unfold on_export. destruct (rows g) as [|r rs] eqn:E; [discriminate|].
  intros [= <-].
  etransitivity; [exact (verify_csv_exported cadence_str float_str (r :: rs))|].
  rewrite verify_rows_result, E.
  destruct (first_mismatch "" (r :: rs)) as [[[k x] e]|]; [reflexivity|].
  now rewrite Nat2Z.id.
Qed.

Lemma export_then_verify_agrees_witness :
  let r := mkRow 1 "2025-01-01T00:00:00Z" "+0.019996001" "C"
             "34df698a15c65124d9210e3040051a0716e1f6066cee5c3c1e4e89e6cf36193b" 1000 1000 0 in
  let g := mkEngine 0 0 "" 2 false [r] None in
  verify_csv [CSV_HEADER; export_line (fun _ => "1000") (fun _ => "0.0") r]
  = match fst (verify_rows g) with
    | (true, count, _, _) => AllChecksPassed (Z.to_nat count)
    | (false, tick_idx, stored, expected) =>
        VerificationFailed (pretty tick_idx) stored expected
    end.
Proof.
  cbv zeta.
  apply (export_then_verify_agrees (fun _ => "1000") (fun _ => "0.0")
           (mkEngine 0 0 "" 2 false
              [mkRow 1 "2025-01-01T00:00:00Z" "+0.019996001" "C"
             "34df698a15c65124d9210e3040051a0716e1f6066cee5c3c1e4e89e6cf36193b" 1000 1000 0] None)).
  reflexivity.
Defined.

(** ** What file verification detects and what it does not *)

Lemma stored_before_insert (prev : string) (reader : list csv_row) (i k : nat)
    (row : csv_row) :
  (i <= k)%nat ->
  stored_before prev (<[k := row]> reader) i = stored_before prev reader i.
Proof.
  intros H. unfold stored_before. now rewrite take_insert_ge by exact H.
Qed.

(** X17. A replaced stamp is always caught, with no assumption on the
    hash: in a file that verifies, putting any other text in the stamp
    cell of record [k] makes the verification fail at that record,
    reporting its tick number, the text put there, and the original
    stamp as the expected one. *)
Theorem stored_stamp_tampering_detected (reader : list csv_row) (m k : nat)
    (row : csv_row) (new : string) :
  verify_file reader = AllChecksPassed m ->
  reader !! k = Some row ->
  new <> field "stamp" row ->
  verify_file (<[k := <["stamp" := Some new]> row]> reader)
  = VerificationFailed (field "tick_index" row) new (field "stamp" row).
Proof.
  intros Hv Hk Hne.
  destruct (verify_file_passed_matches _ _ Hv) as [Hr Hm].
  set (row' := <["stamp" := Some new]> row).
  assert (Hr' : Forall readable (<[k := row']> reader)).
  { apply Forall_insert; [exact Hr|]. apply readable_insert_text.
    exact (proj1 (Forall_lookup _ _) Hr k row Hk). }
  assert (Hs : field "stamp" row = csv_expected (csv_stored_before reader k) row).
  { exact (Hm k row Hk). }
  assert (He : csv_expected (csv_stored_before reader k) row'
               = csv_expected (csv_stored_before reader k) row).
  { unfold csv_expected, expected_of. read_columns. unfold row'.
    now rewrite !field_insert_ne by discriminate. }
  assert (F : first_mismatch "" (<[k := row']> reader)
              = Some (k, row', field "stamp" row)).
  { apply first_mismatch_Some.
    split; [apply list_lookup_insert_eq; now apply lookup_lt_Some with row|].
    split.
    { intros i Hi x Hx. rewrite list_lookup_insert_ne in Hx by lia.
      rewrite stored_before_insert by lia. exact (Hm i x Hx). }
    split.
    { rewrite stored_before_insert by lia. rewrite Hs at 1. symmetry. exact He. }
    read_columns. unfold row' at 1. rewrite field_insert_eq. exact Hne. }
  unfold verify_file. rewrite verify_file_loop_first_mismatch by exact Hr'.
  rewrite F. unfold row'.
  now rewrite field_insert_ne, field_insert_eq by discriminate.
Qed.

Lemma stored_stamp_tampering_detected_witness :
  verify_file (<[1%nat := <["stamp" := Some "00"]> sample_row2]> [sample_row1; sample_row2])
  = VerificationFailed (field "tick_index" sample_row2) "00" (field "stamp" sample_row2).
Proof.
  apply (stored_stamp_tampering_detected [sample_row1; sample_row2] 2 1 sample_row2 "00").
  - vm_compute. reflexivity.
  - reflexivity.
  - vm_compute. discriminate.
Defined.

(** X18. Cutting records off the end is not detected: every prefix of a
    file that verifies verifies too, with the number of records kept. *)
Theorem truncated_file_verifies (reader : list csv_row) (m n : nat) :
  verify_file reader = AllChecksPassed m ->
  verify_file (take n reader) = AllChecksPassed (Nat.min n m).
Proof.
  intros Hv.
  destruct (verify_file_passed_matches _ _ Hv) as [Hr Hm].
  destruct (verify_file_loop_passed _ _ _ _ Hv) as [_ ->].
  unfold verify_file.
  rewrite verify_file_loop_first_mismatch by (now apply Forall_take).
  assert (F : first_mismatch "" (take n reader) = None).
  { apply first_mismatch_None. intros i x Hx.
    apply lookup_take_Some in Hx as [Hx Hi].
    unfold stored_before. rewrite take_take, Nat.min_l by lia.
    exact (Hm i x Hx). }
  rewrite F, length_take. reflexivity.
Qed.

Lemma truncated_file_verifies_witness :
  verify_file (take 1 [sample_row1; sample_row2]) = AllChecksPassed (Nat.min 1 2).
Proof.
  apply (truncated_file_verifies [sample_row1; sample_row2] 2 1).
  vm_compute. reflexivity.
Defined.

(** X19. File verification depends on five columns only: two files whose
    records agree, one by one, on [tick_index], [time_utc],
    [final_align], [band] and [stamp] get the same report, whatever
    their other columns hold. *)
Theorem verification_reads_five_columns (reader reader' : list csv_row) :
  Forall2 (fun row row' => forall key, In key columns_read -> row !! key = row' !! key)
          reader reader' ->
  verify_file reader = verify_file reader'.
Proof.
  intros H. unfold verify_file. generalize "" at 1 2. generalize 0%nat.
  induction H as [|row row' reader reader' Hk _ IH]; intros count prev; [reflexivity|].
  cbn [verify_file_loop]. unfold getitem.
  rewrite <- (Hk "tick_index"), <- (Hk "time_utc"), <- (Hk "final_align"),
    <- (Hk "band"), <- (Hk "stamp") by (cbn; tauto).
  destruct (row !! "tick_index") as [v0|]; [|reflexivity].
  destruct (row !! "time_utc") as [v1|]; [|reflexivity].
  destruct (row !! "final_align") as [v2|]; [|reflexivity].
  destruct (row !! "band") as [v3|]; [|reflexivity].
  destruct (row !! "stamp") as [v4|]; [|reflexivity].
  destruct (make_stamp_cell _ _ v1) as [x|expected]; [reflexivity|].
  destruct (stamp_differs expected v4); [reflexivity | apply IH].
Qed.

Lemma verification_reads_five_columns_witness :
  verify_file [sample_row1]
  = verify_file [<["dt_ms" := Some "250.0"]> (delete "a_stress" sample_row1)].
Proof.
  apply verification_reads_five_columns.
  constructor; [|constructor].
  intros key Hin. cbn in Hin.
  destruct Hin as [<-|[<-|[<-|[<-|[<-|[]]]]]]; reflexivity.
Defined.

(** X20. The tick number is not protected by the chain: in a file that
    verifies, any text may replace the [tick_index] cell of any record
    and the file still verifies with the same count. *)
Theorem tick_index_not_protected (reader : list csv_row) (m k : nat)
    (row : csv_row) (new : string) :
  verify_file reader = AllChecksPassed m ->
  reader !! k = Some row ->
  verify_file (<[k := <["tick_index" := Some new]> row]> reader) = AllChecksPassed m.
Proof.
  intros Hv Hk.
  destruct (verify_file_passed_matches _ _ Hv) as [Hr _].
  destruct (verify_file_loop_passed _ _ _ _ Hv) as [_ ->].
  set (row' := <["tick_index" := Some new]> row).
  assert (Hr' : Forall readable (<[k := row']> reader)).
  { apply Forall_insert; [exact Hr|]. apply readable_insert_text.
    exact (proj1 (Forall_lookup _ _) Hr k row Hk). }
  assert (HS : Forall2 same_read reader (<[k := row']> reader)).
  { rewrite <- (list_insert_id reader k row Hk) at 1.
    apply Forall2_insert.
    - apply Forall_Forall2_diag, Forall_forall. intros x _. repeat split.
    - unfold same_read, row'. read_columns.
      now rewrite !field_insert_ne by discriminate. }
  pose proof (first_mismatch_same_read "" _ _ HS) as M.
  unfold verify_file in *.
  rewrite verify_file_loop_first_mismatch in Hv by exact Hr.
  rewrite verify_file_loop_first_mismatch by exact Hr'.
  destruct (first_mismatch "" reader) as [[[i x] e]|]; [discriminate|].
  destruct (first_mismatch "" (<[k := row']> reader)) as [[[i y] e]|];
    [contradiction|].
  now rewrite length_insert.
Qed.

Lemma tick_index_not_protected_witness :
  verify_file (<[0%nat := <["tick_index" := Some "7"]> sample_row1]>
                 [sample_row1; sample_row2])
  = AllChecksPassed 2.
Proof.
  apply (tick_index_not_protected [sample_row1; sample_row2] 2 0 sample_row1 "7").
  - vm_compute. reflexivity.
  - reflexivity.
Defined.

(** ** Lines of a file with the exported header *)

Lemma verify_file_loop_no_KeyError (prev : string) (count : nat)
    (reader : list csv_row) (key : string) :
  Forall has_columns reader ->
  verify_file_loop prev count reader <> Raised (KeyError key).
Proof.
  intros H. revert prev count.
  induction H as [|row reader Hc _ IH]; intros prev count; [discriminate|].
  unfold has_columns, columns_read in Hc.
  apply Forall_cons in Hc as [[v0 H0] Hc]. apply Forall_cons in Hc as [[v1 H1] Hc].
  apply Forall_cons in Hc as [[v2 H2] Hc]. apply Forall_cons in Hc as [[v3 H3] Hc].
  apply Forall_cons in Hc as [[v4 H4] _].
  cbn [verify_file_loop]. unfold getitem. rewrite H0, H1, H2, H3, H4.
  destruct v1 as [t|]; cbn [make_stamp_cell]; [|discriminate].
  destruct (stamp_differs _ v4); [discriminate | apply IH].
Qed.

Lemma dict_of_line_has_columns (cells : list string) :
  has_columns (dict_of_line CSV_HEADER cells).
Proof.
  destruct (dict_of_line_header cells) as (H0 & H1 & H2 & H3 & H4).
  unfold has_columns, columns_read.
  repeat constructor; eauto.
Qed.

(** X21. A file with the exported header never ends in [KeyError],
    whatever its lines hold.  A blank line is skipped; a line of one
    cell ends the verification with the [AttributeError] of encoding
    [None]; a line of two to four cells, coming first, is reported as a
    failed record whose stored stamp reads [None], the expected stamp
    being computed with [None] for each missing text. *)
Theorem exported_header_lines (cells : list string) (rest lines : csv_table)
    (key : string) :
  verify_csv (CSV_HEADER :: lines) <> Raised (KeyError key)
  /\ verify_csv (CSV_HEADER :: [] :: rest) = verify_csv (CSV_HEADER :: rest)
  /\ (length cells = 1%nat ->
      verify_csv (CSV_HEADER :: cells :: rest) = Raised (AttributeError "encode"))
  /\ ((2 <= length cells <= 4)%nat ->
      let time_utc := default "" (cells !! 1%nat) in
      verify_csv (CSV_HEADER :: cells :: rest)
      = VerificationFailed (default "" (cells !! 0%nat)) "None"
          (make_stamp ""
             (payload_of time_utc (py_format (cells !! 2%nat))
                         (py_format (cells !! 3%nat)))
             time_utc)).
Proof.
  split.
  { unfold verify_csv, verify_file, DictReader.
    apply verify_file_loop_no_KeyError.
    apply Forall_fmap, Forall_forall. intros c _.
    apply dict_of_line_has_columns. }
  split.
  { unfold verify_csv, DictReader.
    now rewrite filter_cons_False by (intros N; now apply N). }
  assert (S : cells <> [] ->
              verify_csv (CSV_HEADER :: cells :: rest)
              = verify_file_loop "" 0
                  (dict_of_line CSV_HEADER cells
                   :: map (dict_of_line CSV_HEADER)
                        (filter (fun c : list string => c <> []) rest))).
  { intros N. unfold verify_csv, verify_file, DictReader.
    now rewrite filter_cons_True by exact N. }
  destruct (dict_of_line_header cells) as (H0 & H1 & H2 & H3 & H4).
  split.
  - intros L. rewrite S by (intros ->; discriminate L).
    cbn [verify_file_loop]. unfold getitem. rewrite H0, H1, H2, H3, H4.
    destruct cells as [|c0 [|c1 tl]]; try discriminate L. reflexivity.
  - intros L. cbv zeta. rewrite S by (intros ->; cbn in L; lia).
    cbn [verify_file_loop]. unfold getitem. rewrite H0, H1, H2, H3, H4.
    destruct cells as [|c0 [|c1 [|c2 [|c3 [|c4 tl]]]]]; cbn [length] in L; try lia;
      reflexivity.
Qed.

(** ** Starting a session *)

Lemma kernel_step_zero_state (a : R) :
  kernel_step DECAY_W W_DEFAULT 0.0 0.0 a = (atanh_safe (clamp_a a), 1, clamp_a a).
Proof.
  rewrite kernel_step_eq. unfold DECAY_W, W_DEFAULT, EPS_W.
  destruct (Rgt_dec (0.995 * 0.0 + 1.0) 1e-9) as [_|N]; [|exfalso; apply N; lra].
  replace (0.995 * 0.0 + 1.0 * atanh_safe (clamp_a a)) with (atanh_safe (clamp_a a)) by lra.
  replace (0.995 * 0.0 + 1.0) with 1 by lra.
  replace (atanh_safe (clamp_a a) / 1) with (atanh_safe (clamp_a a)) by lra.
  rewrite tanh_atanh_safe; [reflexivity|].
  pose proof (clamp_a_range a). unfold EPS_A in *. lra.
Qed.

(** X22. Start on a stopped session begins afresh: whatever was recorded
    before is discarded, and the session holds exactly one row, numbered
    1, chained from the empty stamp, whose interval is the cadence itself
    and whose alignment is the clamped source value. *)
Theorem on_start_fresh_session (e : TickEnv) (g : Engine) :
  running g = false ->
  let a_raw := source_a_raw (env_now_epoch e) (env_tick_ms e) (env_tick_ms e)
                 (env_a_stress e) (env_noise_unit e) in
  let final_align_str := format_align (clamp_a a_raw) in
  let band := classify_band (clamp_a a_raw) in
  let stamp := make_stamp "" (payload_of (env_time_utc e) final_align_str band)
                 (env_time_utc e) in
  on_start e g
  = mkEngine (atanh_safe (clamp_a a_raw)) 1 stamp 2 true
      [mkRow 1 (env_time_utc e) final_align_str band stamp
         (env_tick_ms e) (env_tick_ms e) (env_a_stress e)]
      (Some (env_now_epoch e)).
Proof.
  intros Hr. cbv zeta. unfold on_start. rewrite Hr.
  unfold reset_engine, tick.
  cbn [running negb tick_index U W prev_stamp rows last_tick_epoch].
  change (AUTO_STOP_TICKS <? 1)%Z with false. cbv iota.
  unfold record_tick. cbn [U W prev_stamp rows tick_index running last_tick_epoch].
  rewrite kernel_step_zero_state. reflexivity.
Qed.

Lemma on_start_fresh_session_witness :
  let e := mkTickEnv 1000 0 "2025-01-01T00:00:00Z" 0 0 in
  length (rows (on_start e (desktop_session [Start e; Timer e; Stop]))) = 1%nat.
Proof.
  cbv zeta.
  rewrite (on_start_fresh_session (mkTickEnv 1000 0 "2025-01-01T00:00:00Z" 0 0)
             (desktop_session [Start (mkTickEnv 1000 0 "2025-01-01T00:00:00Z" 0 0);
                               Timer (mkTickEnv 1000 0 "2025-01-01T00:00:00Z" 0 0);
                               Stop])).
  - reflexivity.
  - reflexivity.
Defined.

(** X23. A stopped session stays as it is: timer calls and further
    presses of Stop change nothing, row or kernel state, until the next
    Start. *)
Theorem stopped_session_frozen (g : Engine) (events : list ui_event) :
  running g = false ->
  Forall (fun ev => forall e, ev <> Start e) events ->
  foldl ui_step g events = g.
Proof.
  intros Hr HF. induction HF as [|ev events Hev _ IH]; [reflexivity|].
  cbn [foldl].
  assert (E : ui_step g ev = g).
  { destruct ev as [e|e|]; cbn [ui_step].
    - now specialize (Hev e).
    - unfold tick. now rewrite Hr.
    - destruct g. cbn in Hr. now subst. }
  rewrite E. exact IH.
Qed.

Lemma stopped_session_frozen_witness :
  let e := mkTickEnv 1000 0 "2025-01-01T00:00:00Z" 0 0 in
  foldl ui_step desktop_initial [Timer e; Stop; Timer e] = desktop_initial.
Proof.
  cbv zeta. apply stopped_session_frozen; [reflexivity|].
  repeat constructor; discriminate.
Defined.

(** ** The kernel as a decayed mean *)

Lemma kernel_run_state (raws : list R) (U W : R) :
  let us := map (fun a => atanh_safe (clamp_a a)) raws in
  fst (kernel_run DECAY_W W_DEFAULT U W raws)
  = (DECAY_W ^ length raws * U + decayed_sum us,
     DECAY_W ^ length raws * W + decayed_sum (map (fun _ => 1) us)).
Proof.
  cbv zeta. revert U W. induction raws as [|a raws IH]; intros U W.
  { cbn. f_equal; lra. }
  cbn [kernel_run]. rewrite kernel_step_eq.
  specialize (IH (DECAY_W * U + W_DEFAULT * atanh_safe (clamp_a a))
                 (DECAY_W * W + W_DEFAULT)).
  destruct (kernel_run DECAY_W W_DEFAULT _ _ raws) as [[Uf Wf] outs].
  cbn [fst] in *. injection IH as -> ->.
  cbn [length pow map decayed_sum]. rewrite !length_map.
  set (p := DECAY_W ^ length raws). unfold W_DEFAULT.
  f_equal; lra.
Qed.

Lemma kernel_run_last (raws : list R) (U W : R) :
  0 <= W -> raws <> [] ->
  last (snd (kernel_run DECAY_W W_DEFAULT U W raws))
  = Some (tanh (fst (fst (kernel_run DECAY_W W_DEFAULT U W raws))
                / snd (fst (kernel_run DECAY_W W_DEFAULT U W raws)))).
Proof.
  revert U W. induction raws as [|a raws IH]; intros U W HW Hne; [congruence|].
  cbn [kernel_run]. rewrite kernel_step_eq.
  assert (HD : (if Rgt_dec (DECAY_W * W + W_DEFAULT) EPS_W
                then DECAY_W * W + W_DEFAULT else EPS_W)
               = DECAY_W * W + W_DEFAULT).
  { unfold DECAY_W, W_DEFAULT, EPS_W.
    destruct (Rgt_dec (0.995 * W + 1.0) 1e-9) as [_|n]; [reflexivity|].
    exfalso. apply n. lra. }
  rewrite HD. clear HD.
  destruct raws as [|b raws'].
  - cbn [kernel_run snd fst last]. reflexivity.
  - specialize (IH (DECAY_W * U + W_DEFAULT * atanh_safe (clamp_a a))
                   (DECAY_W * W + W_DEFAULT)
                   ltac:(unfold DECAY_W, W_DEFAULT; lra) ltac:(congruence)).
    destruct (kernel_run DECAY_W W_DEFAULT _ _ (b :: raws')) as [[Uf Wf] outs].
    cbn [fst snd] in *.
    destruct outs as [|o outs]; [discriminate|]. exact IH.
Qed.

(** X24. With the manifest decay the kernel puts out a decayed mean:
    after the ticks of a session that started from the zero state, [U]
    is the sum of the transformed clamped inputs, each counted 0.995
    times less for every later tick, [W] is the same sum of ones, and the
    last [a_out] is [tanh (U / W)]. *)
Theorem kernel_run_decayed_mean (a : R) (rest : list R) :
  let raws := a :: rest in
  let us := map (fun r => atanh_safe (clamp_a r)) raws in
  let Uf := decayed_sum us in
  let Wf := decayed_sum (map (fun _ => 1) us) in
  exists outs,
    kernel_run DECAY_W W_DEFAULT 0 0 raws = (Uf, Wf, outs)
    /\ length outs = length raws
    /\ last outs = Some (tanh (Uf / Wf)).
Proof.
  cbv zeta.
  pose proof (kernel_run_state (a :: rest) 0 0) as S.
  pose proof (kernel_run_last (a :: rest) 0 0 ltac:(lra) ltac:(congruence)) as L.
  pose proof (kernel_run_outs_length DECAY_W W_DEFAULT (a :: rest) 0 0) as N.
  destruct (kernel_run DECAY_W W_DEFAULT 0 0 (a :: rest)) as [[Uf Wf] outs].
  cbn [fst snd] in *. cbv zeta in S. rewrite !Rmult_0_r, !Rplus_0_l in S.
  injection S as -> ->.
  exists outs. split; [reflexivity|]. split; [exact N | exact L].
Qed.

(** ** The command-line script on special floats *)

Lemma OVERFLOW_large : 256 <= Special.OVERFLOW.
Proof.
  unfold Special.OVERFLOW.
  assert (P : 1 <= 2 ^ 53) by (apply pow_R1_Rle; lra).
  assert (A : / 2 ^ 53 <= 1).
  { rewrite <- Rinv_1. apply Rinv_le_contravar; lra. }
  assert (B : 2 ^ 8 <= 2 ^ 1023) by (apply Rle_pow; [lra | lia]).
  assert (C : 2 ^ 8 = 256) by (simpl; lra).
  rewrite C in B. clear C P. nra.
Qed.

Lemma of_real_finite (r : R) :
  - 256 < r < 256 -> Special.of_real r = Special.Finite r.
Proof.
  intros H. pose proof OVERFLOW_large. unfold Special.of_real.
  destruct (Rle_dec Special.OVERFLOW r); [lra|].
  destruct (Rle_dec r (- Special.OVERFLOW)); [lra | reflexivity].
Qed.

(** The divisor of the jitter is never zero. *)
Lemma py_max_one_nonzero (t : Special.py_float) :
  Special.is_zero (Special.py_max t (Special.Finite 1.0)) = false.
Proof.
  unfold Special.py_max, Special.py_gt.
  destruct t as [x| | |]; cbn [Special.py_lt Special.is_zero]; try reflexivity.
  - destruct (Rlt_dec x 1.0); cbn [Special.is_zero];
      destruct (Req_dec_T _ 0); try reflexivity; lra.
  - destruct (Req_dec_T 1.0 0); [lra | reflexivity].
Qed.

Lemma py_div_total (x y : Special.py_float) :
  Special.is_zero y = false ->
  exists q, Special.py_div x y = inr q /\ (x = Special.NaN -> q = Special.NaN).
Proof.
  intros H. unfold Special.py_div. rewrite H.
  eexists. split; [reflexivity|]. intros ->. reflexivity.
Qed.

Lemma source_a_raw_total (now_epoch dt_ms tick_ms : Special.py_float) (u : R) :
  exists a, Special.source_a_raw now_epoch dt_ms tick_ms u = inr a.
Proof.
  unfold Special.source_a_raw.
  destruct (Special.py_le dt_ms _ || Special.py_le tick_ms _);
    [eexists; reflexivity|].
  destruct (py_div_total (Special.py_sub dt_ms tick_ms)
              (Special.py_max tick_ms (Special.Finite 1.0))
              (py_max_one_nonzero tick_ms)) as (q & -> & _).
  eexists. reflexivity.
Qed.

(** A clamped value is not a number or lies in the clamp interval. *)
Lemma clamp_a_cases (a : Special.py_float) :
  (a = Special.NaN /\ Special.clamp_a a = Special.NaN)
  \/ exists c, Special.clamp_a a = Special.Finite c
               /\ -1 + EPS_A <= c <= 1 - EPS_A.
Proof.
  unfold Special.clamp_a, Special.py_gt, EPS_A.
  destruct a as [x| | |]; cbn [Special.py_lt].
  - right. destruct (Rlt_dec x (-1.0 + 1e-6)); [eexists; split; [reflexivity | lra]|].
    destruct (Rlt_dec (1.0 - 1e-6) x); eexists; (split; [reflexivity | lra]).
  - right. eexists. split; [reflexivity | lra].
  - right. eexists. split; [reflexivity | lra].
  - left. split; reflexivity.
Qed.

Lemma atanh_safe_total (a : Special.py_float) :
  exists u, Special.atanh_safe (Special.clamp_a a) = inr u
            /\ (a = Special.NaN -> u = Special.NaN).
Proof.
  destruct (clamp_a_cases a) as [[Ha Hc]|(c & Hc & Hr)]; rewrite Hc.
  - eexists. split; [reflexivity|]. intros _. reflexivity.
  - unfold EPS_A in Hr. unfold Special.atanh_safe.
    cbn [Special.log1p Special.py_neg].
    destruct (Rgt_dec c (-1)) as [_|N]; [|lra].
    destruct (Rgt_dec (- c) (-1)) as [_|N]; [|lra].
    eexists. split; [reflexivity|]. intros ->. discriminate Hc.
Qed.

Lemma py_add_nan_r (x : Special.py_float) : Special.py_add x Special.NaN = Special.NaN.
Proof. destruct x; reflexivity. Qed.

(** On the first tick the interval is the cadence itself: a cadence that
    is not a number or is infinite makes the source not a number. *)
Lemma source_a_raw_nan (now_epoch : Special.py_float) (u : R) :
  Special.source_a_raw now_epoch Special.NaN Special.NaN u = inr Special.NaN
  /\ Special.source_a_raw now_epoch Special.PosInf Special.PosInf u = inr Special.NaN.
Proof.
  split; [reflexivity|].
  unfold Special.source_a_raw. cbn [Special.py_le orb].
  unfold Special.py_max, Special.py_gt, Special.py_sub.
  cbn [Special.py_lt Special.py_neg Special.py_add Special.py_div Special.is_zero].
  cbn [Special.py_mul]. now rewrite py_add_nan_r.
Qed.

(** One iteration never raises; it appends one row, and once [U] is not
    a number it stays so and the row reads [+nan]. *)
Lemma cli_tick_total (tick_ms : Special.py_float) (e : TickEnv) (g : Special.Engine)
    (w : R) :
  Special.W g = Special.Finite w -> 0 <= w < 200 ->
  exists g',
    Special.cli_tick tick_ms e g = inr g'
    /\ (exists w', Special.W g' = Special.Finite w' /\ 1 <= w' < 200)
    /\ Special.tick_index g' = Special.tick_index g
    /\ exists r,
         Special.rows g' = (Special.rows g ++ [r])%list
         /\ Special.row_tick_idx r = Special.tick_index g
         /\ Special.row_tick_ms r = tick_ms
         /\ Special.row_a_stress r = Special.Finite 0.0
         /\ ((Special.U g = Special.NaN
              \/ (Special.last_tick_epoch g = None
                  /\ (tick_ms = Special.NaN \/ tick_ms = Special.PosInf)))
             -> Special.U g' = Special.NaN
                /\ Special.row_final_align_str r = "+nan"
                /\ Special.row_band r = "D").
Proof.
  intros HW Hw. unfold Special.cli_tick.
  match goal with |- context [Special.source_a_raw ?n ?d ?t ?u] =>
    destruct (source_a_raw_total n d t u) as [a_raw Ea];
    pose proof (source_a_raw_nan n u) as [N1 N2]
  end.
  rewrite Ea.
  destruct (atanh_safe_total a_raw) as (u & Eu & Hu). rewrite Eu.
  cbv beta iota zeta.
  set (U' := Special.py_add (Special.py_mul (Special.Finite DECAY_W) (Special.U g))
               (Special.py_mul (Special.Finite W_DEFAULT) u)).
  rewrite HW. cbn [Special.py_mul Special.py_add].
  rewrite (of_real_finite (DECAY_W * w)) by (unfold DECAY_W; lra).
  cbn [Special.py_add].
  rewrite (of_real_finite (DECAY_W * w + W_DEFAULT)) by (unfold DECAY_W, W_DEFAULT; lra).
  unfold Special.py_gt. cbn [Special.py_lt].
  destruct (Rlt_dec EPS_W (DECAY_W * w + W_DEFAULT)) as [_|N];
    [|exfalso; apply N; unfold EPS_W, DECAY_W, W_DEFAULT; lra].
  match goal with |- context [Special.py_div ?x ?y] =>
    destruct (py_div_total x y) as (q & Eq & Hq)
  end.
  { cbn [Special.is_zero]. destruct (Req_dec_T _ 0) as [Z|_]; [|reflexivity].
    exfalso. unfold DECAY_W, W_DEFAULT in Z. lra. }
  rewrite Eq.
  eexists. split; [reflexivity|]. cbn [Special.W Special.tick_index Special.rows].
  split; [eexists; split; [reflexivity | unfold DECAY_W, W_DEFAULT; lra]|].
  split; [reflexivity|].
  eexists. split; [reflexivity|].
  cbn [Special.row_tick_idx Special.row_tick_ms Special.row_a_stress
       Special.row_final_align_str Special.row_band Special.U].
  split; [reflexivity|]. split; [reflexivity|]. split; [reflexivity|].
  intros H.
  assert (HU : U' = Special.NaN).
  { unfold U'. destruct H as [-> | (Hl & Ht)]; [reflexivity|].
    assert (a_raw = Special.NaN) as Ha.
    { rewrite Hl in Ea. destruct Ht as [-> | ->]; congruence. }
    rewrite (Hu Ha). cbn [Special.py_mul]. apply py_add_nan_r. }
  rewrite HU in Hq |- *. rewrite (Hq eq_refl).
  split; [reflexivity|]. split; reflexivity.
Qed.

(** The loop never raises: it records one row per iteration until the
    count asked for, numbered from the tick counter; and from a state
    whose next row is not a number every further row reads [+nan]. *)
Lemma special_cli_loop (tick_ms : Special.py_float) (max_ticks : Z)
    (envs : list TickEnv) (g : Special.Engine) (w : R) :
  Special.W g = Special.Finite w -> 0 <= w < 200 ->
  Special.tick_index g = (Z.of_nat (length (Special.rows g)) + 1)%Z ->
  map Special.row_tick_idx (Special.rows g)
  = map Z.of_nat (seq 1 (length (Special.rows g))) ->
  (max_ticks <= 0 \/ Z.of_nat (length (Special.rows g)) < max_ticks)%Z ->
  Forall (fun r => Special.row_tick_ms r = tick_ms
                   /\ Special.row_a_stress r = Special.Finite 0.0) (Special.rows g) ->
  exists g',
    Special.cli_loop tick_ms max_ticks envs g = inr g'
    /\ length (Special.rows g')
       = (if (0 <? max_ticks)%Z
          then Nat.min (length (Special.rows g) + length envs) (Z.to_nat max_ticks)
          else (length (Special.rows g) + length envs)%nat)
    /\ map Special.row_tick_idx (Special.rows g')
       = map Z.of_nat (seq 1 (length (Special.rows g')))
    /\ Forall (fun r => Special.row_tick_ms r = tick_ms
                        /\ Special.row_a_stress r = Special.Finite 0.0) (Special.rows g')
    /\ ((Special.U g = Special.NaN
         \/ (Special.last_tick_epoch g = None
             /\ (tick_ms = Special.NaN \/ tick_ms = Special.PosInf))) ->
        Forall (fun r => Special.row_final_align_str r = "+nan"
                         /\ Special.row_band r = "D") (Special.rows g) ->
        Forall (fun r => Special.row_final_align_str r = "+nan"
                         /\ Special.row_band r = "D") (Special.rows g')).
Proof.
  revert g w. induction envs as [|e envs IH]; intros g w HW Hw Hi Hm Hx HF.
  { exists g. cbn [Special.cli_loop length].
    split; [reflexivity|]. split.
    - destruct (0 <? max_ticks)%Z eqn:E0; [apply Z.ltb_lt in E0|]; lia.
    - split; [exact Hm|]. split; [exact HF|]. intros _ H. exact H. }
  cbn [Special.cli_loop].
  destruct (cli_tick_total tick_ms e g w HW Hw)
    as (g1 & E1 & (w1 & HW1 & Hw1) & Ti & r & Er & Ri & Rm & Rs & Rn).
  rewrite E1.
  assert (Tl : length (Special.rows g1) = S (length (Special.rows g)))
    by (rewrite Er, length_app; cbn [length]; lia).
  assert (Tm : map Special.row_tick_idx (Special.rows g1)
               = map Z.of_nat (seq 1 (length (Special.rows g1)))).
  { rewrite Tl, Er, seq_S, !map_app, Hm. cbn [map]. do 2 f_equal. lia. }
  assert (HF1 : Forall (fun r => Special.row_tick_ms r = tick_ms
                                 /\ Special.row_a_stress r = Special.Finite 0.0)
                       (Special.rows g1)).
  { rewrite Er. apply Forall_app. split; [exact HF|]. repeat constructor; assumption. }
  assert (HN1 : Special.U g = Special.NaN
                \/ (Special.last_tick_epoch g = None
                    /\ (tick_ms = Special.NaN \/ tick_ms = Special.PosInf)) ->
                Forall (fun r => Special.row_final_align_str r = "+nan"
                                 /\ Special.row_band r = "D") (Special.rows g) ->
                Special.U g1 = Special.NaN
                /\ Forall (fun r => Special.row_final_align_str r = "+nan"
                                    /\ Special.row_band r = "D") (Special.rows g1)).
  { intros Q P. destruct (Rn Q) as (HU & Ra & Rb). split; [exact HU|].
    rewrite Er. apply Forall_app. split; [exact P|]. repeat constructor; assumption. }
  destruct ((0 <? max_ticks)%Z && (max_ticks <=? Special.tick_index g1)%Z) eqn:B.
  - apply andb_prop in B as [B0 B1]. rewrite B0.
    apply Z.ltb_lt in B0. apply Z.leb_le in B1.
    exists g1. split; [reflexivity|]. split; [rewrite Tl; cbn [length]; lia|].
    split; [exact Tm|]. split; [exact HF1|].
    intros Q P. now apply HN1.
  - destruct (IH (Special.mkEngine (Special.U g1) (Special.W g1) (Special.prev_stamp g1)
                    (Special.tick_index g1 + 1) (Special.rows g1)
                    (Special.last_tick_epoch g1)) w1)
      as (g' & E' & L' & M' & F' & N').
    + exact HW1.
    + lra.
    + cbn [Special.tick_index Special.rows]. lia.
    + exact Tm.
    + cbn [Special.rows].
      destruct (0 <? max_ticks)%Z eqn:B0; cbn [andb] in B; [|apply Z.ltb_ge in B0; lia].
      apply Z.leb_gt in B. lia.
    + exact HF1.
    + exists g'. split; [exact E'|].
      cbn [Special.rows Special.U Special.last_tick_epoch] in L', M', F', N'.
      split.
      { rewrite L', Tl. cbn [length].
        destruct (0 <? max_ticks)%Z; lia. }
      split; [exact M'|]. split; [exact F'|].
      intros Q P. destruct (HN1 Q P) as [HU P1]. apply N'; [now left | exact P1].
Qed.

Lemma cadence_of_argument (arg_tick_sec : Special.py_float) :
  let tick_ms := Special.py_mul (Special.py_max arg_tick_sec (Special.Finite 0.001))
                   (Special.Finite 1000.0) in
  (arg_tick_sec = Special.NaN -> tick_ms = Special.NaN)
  /\ (arg_tick_sec = Special.PosInf -> tick_ms = Special.PosInf)
  /\ (arg_tick_sec <> Special.NaN ->
      tick_ms = Special.PosInf \/ exists t, tick_ms = Special.Finite t /\ 1 <= t).
Proof.
  cbv zeta.
  assert (P : Special.py_mul Special.PosInf (Special.Finite 1000.0) = Special.PosInf).
  { cbn [Special.py_mul]. unfold Special.scale_inf, Special.negative.
    destruct (Req_dec_T 1000.0 0); [lra|].
    destruct (Rlt_dec 1000.0 0); [lra | reflexivity]. }
  assert (F : forall a, 0.001 <= a ->
            Special.of_real (a * 1000.0) = Special.PosInf
            \/ exists t, Special.of_real (a * 1000.0) = Special.Finite t /\ 1 <= t).
  { intros a Ha. pose proof OVERFLOW_large. unfold Special.of_real.
    destruct (Rle_dec Special.OVERFLOW (a * 1000.0)); [now left|].
    destruct (Rle_dec (a * 1000.0) (- Special.OVERFLOW)); [lra|].
    right. eexists. split; [reflexivity | lra]. }
  split; [intros ->; reflexivity|].
  split; [intros ->; exact P|].
  intros Hn. unfold Special.py_max, Special.py_gt.
  destruct arg_tick_sec as [a| | |]; cbn [Special.py_lt].
  - destruct (Rlt_dec a 0.001); cbn [Special.py_mul]; apply F; lra.
  - left. exact P.
  - cbn [Special.py_mul]. apply F. lra.
  - contradiction.
Qed.

Lemma special_initial_run (tick_ms : Special.py_float) (max_ticks : Z)
    (envs : list TickEnv) :
  (max_ticks <= 0 \/ 0 < max_ticks)%Z ->
  exists g,
    Special.cli_loop tick_ms max_ticks envs
      (Special.mkEngine (Special.Finite 0.0) (Special.Finite 0.0) "" 1 [] None) = inr g
    /\ length (Special.rows g)
       = (if (0 <? max_ticks)%Z then Nat.min (length envs) (Z.to_nat max_ticks)
          else length envs)
    /\ map Special.row_tick_idx (Special.rows g)
       = map Z.of_nat (seq 1 (length (Special.rows g)))
    /\ Forall (fun r => Special.row_tick_ms r = tick_ms
                        /\ Special.row_a_stress r = Special.Finite 0.0) (Special.rows g)
    /\ (tick_ms = Special.NaN \/ tick_ms = Special.PosInf ->
        Forall (fun r => Special.row_final_align_str r = "+nan"
                         /\ Special.row_band r = "D") (Special.rows g)).
Proof.
  intros Hx.
  destruct (special_cli_loop tick_ms max_ticks envs
              (Special.mkEngine (Special.Finite 0.0) (Special.Finite 0.0) "" 1 [] None)
              0.0) as (g & E & L & M & F & N).
  - reflexivity.
  - lra.
  - reflexivity.
  - reflexivity.
  - cbn [Special.rows length]. lia.
  - constructor.
  - exists g. split; [exact E|]. cbn [Special.rows length Nat.add] in L.
    split; [exact L|]. split; [exact M|]. split; [exact F|].
    intros Ht. apply N; [|constructor]. right. split; [reflexivity | exact Ht].
Qed.

(** C7. The bound fails on a cadence the command line accepts: run with
    [--tick-sec nan] or [--tick-sec inf], every iteration the loop gets
    through records a row whose alignment text is [+nan], which is no
    decimal, and whose band is D; a finite [--tick-sec] of [10^306]
    gives the same infinite cadence in milliseconds. *)
Theorem nan_cadence_records_nan (arg_ticks : Z) (e : TickEnv) (envs : list TickEnv) :
  (forall arg_tick_sec,
     arg_tick_sec = Special.NaN \/ arg_tick_sec = Special.PosInf ->
     exists g,
       Special.cli_main arg_tick_sec arg_ticks (e :: envs) = inr g
       /\ Special.rows g <> []
       /\ Forall (fun r => Special.row_final_align_str r = "+nan"
                           /\ Special.row_band r = "D") (Special.rows g))
  /\ decimal_value "+nan" = None
  /\ Special.py_mul (Special.py_max (Special.Finite (10 ^ 306)) (Special.Finite 0.001))
       (Special.Finite 1000.0) = Special.PosInf.
Proof.
  split; [|split; [reflexivity|]].
  - intros arg Harg. unfold Special.cli_main, Special.run_clockke_cli.
    destruct (cadence_of_argument arg) as (C1 & C2 & _). cbv zeta in C1, C2.
    destruct (special_initial_run
                (Special.py_mul (Special.py_max arg (Special.Finite 0.001))
                   (Special.Finite 1000.0))
                (Z.max arg_ticks 0) (e :: envs) ltac:(lia))
      as (g & E & L & _ & _ & N).
    exists g. split; [exact E|]. split.
    + intros H. rewrite H in L. cbn [length] in L.
      destruct (0 <? Z.max arg_ticks 0)%Z eqn:B; [apply Z.ltb_lt in B|]; lia.
    + apply N. destruct Harg as [-> | ->]; [left; now apply C1 | right; now apply C2].
  - assert (B : Special.OVERFLOW <= 10 ^ 306 * 1000.0).
    { unfold Special.OVERFLOW.
      assert (P : 0 < / 2 ^ 53) by (apply Rinv_0_lt_compat, pow_lt; lra).
      assert (Q : 0 < 2 ^ 1023) by (apply pow_lt; lra).
      assert (T : 2 * 2 ^ 1023 <= 10 ^ 306 * 1000.0).
      { replace 1000.0 with (IZR 1000) by lra.
        change 2 with (IZR 2). change 10 with (IZR 10).
        rewrite !pow_IZR, <- !mult_IZR. apply IZR_le.
        apply Z.leb_le. vm_compute. reflexivity. }
      nra. }
    assert (G : 0.001 <= 10 ^ 306).
    { assert (1 <= 10 ^ 306) by (apply pow_R1_Rle; lra). lra. }
    unfold Special.py_max, Special.py_gt. cbn [Special.py_lt].
    destruct (Rlt_dec (10 ^ 306) 0.001); [lra|].
    cbn [Special.py_mul]. unfold Special.of_real.
    destruct (Rle_dec Special.OVERFLOW (10 ^ 306 * 1000.0)); [reflexivity | contradiction].
Qed.

Lemma nan_cadence_records_nan_first_tick :
  let e := mkTickEnv 0 0 "2025-01-01T00:00:00Z" 0 0 in
  exists g,
    Special.cli_main Special.NaN 1 [e] = inr g
    /\ Special.rows g <> []
    /\ Forall (fun r => Special.row_final_align_str r = "+nan"
                        /\ Special.row_band r = "D") (Special.rows g).
Proof.
  cbv zeta.
  apply (proj1 (nan_cadence_records_nan 1
                  (mkTickEnv 0 0 "2025-01-01T00:00:00Z" 0 0) []) Special.NaN).
  left. reflexivity.
Defined.


(** ** A finite cadence on special floats *)
















